(** * BULK_HUB_X_PARSER: a shallow embedding of [parser.js]

    The program is a command-line job that copies the posts of a community
    from a paginated, rate-limited HTTP API into PostgreSQL.  This file
    embeds the paced API client ([TwitterApiIO]), the normalisers, the SQL
    statements and the drivers ([backfill], [ingestNew], [refreshMetrics],
    [refreshUsers], [syncMembers]) as functions of an exception-and-state
    monad over an explicit world, and proves the properties of the
    synchronisation engine about them.

    Modelling conventions.
    - JavaScript numbers are integers ([Z]); the clock counts milliseconds.
      The number of hours given on the command line is kept as the text
      [String] gives of it, so that it may be any number.
    - Values read from JSON payloads are JavaScript scalars ([jsval]); an
      absent property is [JUndefined].
    - Asynchronous calls run one after the other (the program never starts
      two at once), so an [await] is a plain monadic bind.  Time passes
      only at suspension points: a timer, an HTTP exchange, a database
      round trip.  A timer of [ms] milliseconds can resume one
      millisecond before [ms] have passed on [Date.now()], as the timers
      of Node do, and as late as the world scripts.  No suspension point
      lies between the stamp [_pace] takes and the call of [fetch] that
      follows it: the time a request carries in the trace is the reading
      of the clock that [_pace] stored in [_lastTs].
    - The outside world (HTTP responses, database failures, result rows of
      the selection queries, scheduling delays) is scripted in the world
      and consumed in order.
    - The ISO-8601 string produced by [Date.prototype.toISOString] is
      represented by the time value it denotes.
    - The statements that write rows act on a database of finite maps;
      the selection queries of [refreshMetrics] and [refreshUsers] return
      the rows the world scripts for them.
    - Every raised exception leaves a record [EvThrow] in the trace, so
      that a caught exception stays visible.

    The [doctor] command and the dispatch of [main] are embedded with
    the drivers.  Left out: the [user-stats] command, which prints a row
    the way Node renders an object and stays abstract in [main]; the
    closing of the pool and the handler of unhandled rejections; and
    [migrate.js]. *)

From Stdlib Require Import ZArith Lia.
From stdpp Require Import base option list gmap strings pretty.

Local Open Scope string_scope.
Local Open Scope list_scope.
Local Open Scope Z_scope.

(** ** JavaScript scalars *)

Inductive jsval : Type :=
| JUndefined
| JNull
| JBool (b : bool)
| JNum (n : Z)
| JStr (s : string).

(** [!!v] *)
Definition truthy (v : jsval) : bool :=
  match v with
  | JUndefined | JNull => false
  | JBool b => b
  | JNum n => negb (n =? 0)
  | JStr s => negb (String.eqb s EmptyString)
  end.

(** [String(v)], also the conversion done by a template literal. *)
Definition ToString (v : jsval) : string :=
  match v with
  | JUndefined => "undefined"
  | JNull => "null"
  | JBool true => "true"
  | JBool false => "false"
  | JNum n => pretty n
  | JStr s => s
  end.

(** [a || b] *)
Definition js_or (a b : jsval) : jsval := if truthy a then a else b.

(** [v == null]: the test node-postgres applies to a parameter before it
    sends SQL NULL; every other scalar is sent as its text. *)
Definition pg_param (v : jsval) : option string :=
  match v with
  | JUndefined | JNull => None
  | _ => Some (ToString v)
  end.

(** A nullable text column read back into JavaScript. *)
Definition of_column (c : option string) : jsval :=
  match c with
  | Some s => JStr s
  | None => JNull
  end.

(** ** Configuration (the environment variables read at start-up)

    A variable that is not set is the empty string: both are falsy. *)

Record Config : Type := mkConfig {
  API_KEY : string;
  COMMUNITY_ID : string;
  MIN_REQUEST_INTERVAL_MS : Z;
  TOP_PAGES : Z;
  RECENT_HOURS : Z;
  ACTIVE_HOURS : Z;
  BATCH_TWEET_IDS : Z;
  BACKFILL_CUTOFF_DAYS : Z;
  BACKFILL_PAGES_PER_RUN : Z;
}.

(** ** API payloads *)

Record raw_author : Type := mkAuthor {
  a_id : jsval;
  a_userName : jsval;
  a_username : jsval;
}.

(** One element of [data.tweets]; the six counters are read by
    [upsertMetrics] only. *)
Record raw_tweet : Type := mkRawTweet {
  t_id : jsval;
  t_url : jsval;
  t_text : jsval;
  t_createdAt : jsval;
  t_author : option raw_author;
  t_viewCount : jsval;
  t_likeCount : jsval;
  t_retweetCount : jsval;
  t_replyCount : jsval;
  t_quoteCount : jsval;
  t_bookmarkCount : jsval;
}.

(** A user object ([data.user], an element of [data.members]). *)
Record raw_user : Type := mkRawUser {
  u_id : jsval;
  u_userName : jsval;
  u_name : jsval;
  u_followers : jsval;
  u_following : jsval;
  u_profilePicture : jsval;
}.

(** The parsed response body.  [p_tweets] and [p_members] are [None] when
    the property is not an array; [p_user], [p_data] and [p_result] are
    [None] when the property is falsy. *)
Record payload : Type := mkPayload {
  p_status : jsval;
  p_msg : jsval;
  p_message : jsval;
  p_tweets : option (list raw_tweet);
  p_members : option (list raw_user);
  p_has_next_page : jsval;
  p_next_cursor : jsval;
  p_user : option raw_user;
  p_data : option raw_user;
  p_result : option raw_user;
}.

(** [{}], and every body that is not an object. *)
Definition empty_payload : payload :=
  mkPayload JUndefined JUndefined JUndefined None None JUndefined JUndefined
            None None None.

(** The text of a response body: empty, not JSON, or JSON. *)
Inductive body : Type :=
| BodyEmpty
| BodyText (text : string)
| BodyJson (data : payload).

Record response : Type := mkResponse {
  status : Z;
  res_body : body;
}.

(** [res.ok] *)
Definition ok (res : response) : bool :=
  (200 <=? status res) && (status res <=? 299).

(** What one call of [fetch] meets: a response, or a network failure
    ([None], the promise rejects). *)
Abbreviation exchange := (option response) (only parsing).

(** ** The database *)

Record state_row : Type := mkStateRow {
  backfill_cursor : option string;
  last_seen_tweet_id : option string;
}.

Record tweet_row : Type := mkTweetRow {
  created_at_col : option Z;
  author_user_id_col : option string;
  author_username_col : option string;
  url_col : option string;
  text_col : option string;
}.

Record metrics_row : Type := mkMetricsRow {
  view_count : option Z;
  like_count : option Z;
  retweet_count : option Z;
  reply_count : option Z;
  quote_count : option Z;
  bookmark_count : option Z;
}.

Record user_row : Type := mkUserRow {
  username_col : option string;
  name_col : option string;
  followers_col : option Z;
  following_col : option Z;
  profile_picture_col : option string;
}.

Record Database : Type := mkDatabase {
  ingest_state : gmap string state_row;
  community_tweets : gmap (string * string) tweet_row;
  tweet_metrics_latest : gmap string metrics_row;
  users : gmap string user_row;
  community_members : gmap (string * string) (option string);
}.

(** The statements the program sends, with their parameters. *)
Inductive query : Type :=
| QSelect1
| QEnsureStateRow (communityId : string)
| QSelectState (communityId : string)
| QSetBackfillCursor (communityId : string) (cursor : option string)
| QSetLastSeenTweetId (communityId : string) (tweetId : option string)
| QUpsertCommunityTweet (communityId tweet_id : string) (row : tweet_row)
| QUpsertMetrics (tweet_id : string) (row : metrics_row)
| QUpsertUser (user_id : string) (row : user_row)
| QUpsertMember (communityId user_id : string) (username : option string)
| QSelectStaleTweets (communityId : string) (all : bool) (hours : string)
| QSelectActiveUsers (communityId : string) (hours : string).

(** [COALESCE(EXCLUDED.c, t.c)] *)
Definition COALESCE {A : Type} (excluded current : option A) : option A :=
  match excluded with
  | Some v => Some v
  | None => current
  end.

(** The effect of a statement that succeeds. *)
Definition apply_query (qr : query) (d : Database) : Database :=
  match qr with
  | QEnsureStateRow cid =>
      match ingest_state d !! cid with
      | Some _ => d
      | None =>
          mkDatabase (<[cid := mkStateRow None None]> (ingest_state d))
                     (community_tweets d) (tweet_metrics_latest d) (users d)
                     (community_members d)
      end
  | QSetBackfillCursor cid c =>
      mkDatabase
        (alter (fun r => mkStateRow c (last_seen_tweet_id r)) cid (ingest_state d))
        (community_tweets d) (tweet_metrics_latest d) (users d)
        (community_members d)
  | QSetLastSeenTweetId cid t =>
      mkDatabase
        (alter (fun r => mkStateRow (backfill_cursor r) t) cid (ingest_state d))
        (community_tweets d) (tweet_metrics_latest d) (users d)
        (community_members d)
  | QUpsertCommunityTweet cid tid new =>
      let stored :=
        match community_tweets d !! (cid, tid) with
        | None => new
        | Some old =>
            mkTweetRow
              (COALESCE (created_at_col new) (created_at_col old))
              (COALESCE (author_user_id_col new) (author_user_id_col old))
              (COALESCE (author_username_col new) (author_username_col old))
              (COALESCE (url_col new) (url_col old))
              (COALESCE (text_col new) (text_col old))
        end in
      mkDatabase (ingest_state d) (<[(cid, tid) := stored]> (community_tweets d))
                 (tweet_metrics_latest d) (users d) (community_members d)
  | QUpsertMetrics tid row =>
      mkDatabase (ingest_state d) (community_tweets d)
                 (<[tid := row]> (tweet_metrics_latest d)) (users d)
                 (community_members d)
  | QUpsertUser uid row =>
      mkDatabase (ingest_state d) (community_tweets d) (tweet_metrics_latest d)
                 (<[uid := row]> (users d)) (community_members d)
  | QUpsertMember cid uid name =>
      mkDatabase (ingest_state d) (community_tweets d) (tweet_metrics_latest d)
                 (users d) (<[(cid, uid) := name]> (community_members d))
  | QSelect1 | QSelectState _ | QSelectStaleTweets _ _ _
  | QSelectActiveUsers _ _ => d
  end.

(** What the server answers to one statement: success, with the first
    column of the rows of a selection query (ignored by the others), or
    an error. *)
Inductive dbreply : Type :=
| DbOk (rows : list jsval)
| DbFail (message : string).

(** ** The world *)

Inductive event : Type :=
| EvSleep (ms : Z)
| EvFetch (at_ms : Z) (path : string) (params : list (string * string))
          (ex : exchange)
| EvQuery (qr : query) (reply : dbreply)
| EvThrow (message : string).

Record World : Type := mkWorld {
  now : Z;                    (* Date.now() *)
  lastTs : Z;                 (* api._lastTs *)
  jitter : list N;            (* extra delay of the next suspensions *)
  net : list exchange;        (* what the next fetches meet *)
  dbs : list dbreply;         (* what the next statements meet *)
  db : Database;
  trace : list event;         (* what happened, oldest first *)
  console : list string;      (* console output, oldest first *)
}.

(** ** The monad: state, exceptions, exit *)

Inductive abort : Type :=
| Thrown (message : string)   (* a JavaScript exception *)
| Exited (code : Z)           (* process.exit *)
| Diverged.                   (* the loop never ends *)

Inductive outcome (A : Type) : Type :=
| Ok (a : A)
| Abort (e : abort).
Arguments Ok {A} a.
Arguments Abort {A} e.

Definition M (A : Type) : Type := World -> outcome A * World.

Definition ret {A : Type} (a : A) : M A := fun w => (Ok a, w).

Definition bind {A B : Type} (m : M A) (k : A -> M B) : M B :=
  fun w =>
    match m w with
    | (Ok a, w') => k a w'
    | (Abort e, w') => (Abort e, w')
    end.

Declare Scope js_scope.
Delimit Scope js_scope with js.
Notation "'let*' x ':=' m 'in' k" := (bind m (fun x => k))
  (at level 10, x pattern, m at level 100, k at level 200) : js_scope.
Notation "m ';;' k" := (bind m (fun _ => k))
  (at level 100, k at level 200, right associativity) : js_scope.
Local Open Scope js_scope.

Definition emit (e : event) : M unit :=
  fun w => (Ok tt, mkWorld (now w) (lastTs w) (jitter w) (net w) (dbs w) (db w)
                           (trace w ++ [e]) (console w)).

(** [console.log], [console.warn], [console.error] *)
Definition log (line : string) : M unit :=
  fun w => (Ok tt, mkWorld (now w) (lastTs w) (jitter w) (net w) (dbs w) (db w)
                           (trace w) (console w ++ [line])).

(** [throw new Error(message)]; the raise is recorded in the trace. *)
Definition throw {A : Type} (message : string) : M A :=
  fun w => (Abort (Thrown message),
            mkWorld (now w) (lastTs w) (jitter w) (net w) (dbs w) (db w)
                    (trace w ++ [EvThrow message]) (console w)).

Definition diverge {A : Type} : M A := fun w => (Abort Diverged, w).

(** [try { m } catch (e) { handler(e.message) }]: only exceptions are
    caught, [process.exit] is not. *)
Definition try_catch {A : Type} (m : M A) (handler : string -> M A) : M A :=
  fun w =>
    match m w with
    | (Abort (Thrown message), w') => handler message w'
    | r => r
    end.

(** [die(msg)] *)
Definition die {A : Type} (msg : string) : M A :=
  fun w => (Abort (Exited 1),
            mkWorld (now w) (lastTs w) (jitter w) (net w) (dbs w) (db w)
                    (trace w) (console w ++ ["FATAL: " +:+ msg])).

(** [Date.now()] *)
Definition Date_now : M Z := fun w => (Ok (now w), w).

(** The program is suspended: the clock moves on by [ms] and by the next
    scripted delay. *)
Definition suspend (ms : Z) : M unit :=
  fun w => (Ok tt, mkWorld (now w + ms + Z.of_N (hd 0%N (jitter w))) (lastTs w)
                           (tl (jitter w)) (net w) (dbs w) (db w)
                           (trace w) (console w)).

(** Node arms a timer on the clock of the event loop, which it reads in
    whole milliseconds: measured with [Date.now()], a timer of [ms]
    milliseconds can resume [timer_slack] before [ms] have passed, and
    no earlier. *)
Definition timer_slack : Z := 1.

(** [sleep(ms)] *)
Definition sleep (ms : Z) : M unit :=
  emit (EvSleep ms);; suspend (Z.max 0 (ms - timer_slack)).

#[global] Instance jsval_eq_dec : EqDecision jsval.
Proof. solve_decision. Defined.

(** [a === b] on scalars *)
Definition strict_eq (a b : jsval) : bool := bool_decide (a = b).

(** ** World accessors *)

Definition get_lastTs : M Z := fun w => (Ok (lastTs w), w).

Definition set_lastTs (t : Z) : M unit :=
  fun w => (Ok tt, mkWorld (now w) t (jitter w) (net w) (dbs w) (db w)
                           (trace w) (console w)).

Definition next_exchange : M exchange :=
  fun w => (Ok (mjoin (head (net w))),
            mkWorld (now w) (lastTs w) (jitter w) (tl (net w)) (dbs w) (db w)
                    (trace w) (console w)).

Definition next_dbreply : M dbreply :=
  fun w => (Ok (default (DbOk []) (head (dbs w))),
            mkWorld (now w) (lastTs w) (jitter w) (net w) (tl (dbs w)) (db w)
                    (trace w) (console w)).

Definition get_db : M Database := fun w => (Ok (db w), w).

Definition modify_db (f : Database -> Database) : M unit :=
  fun w => (Ok tt, mkWorld (now w) (lastTs w) (jitter w) (net w) (dbs w)
                           (f (db w)) (trace w) (console w)).

(** [fetch(url, ...)]: the request is recorded with the clock as it
    reads when [fetch] is called, and meets the next scripted exchange
    within the suspension that follows; a network failure rejects the
    promise. *)
Definition fetch (path : string) (params : list (string * string)) : M response :=
  let* t := Date_now in
  let* ex := next_exchange in
  emit (EvFetch t path params ex);;
  suspend 0;;
  match ex with
  | Some res => ret res
  | None => throw "fetch failed"
  end.

(** [pool.query(sql, params)] *)
Definition q (qr : query) : M (list jsval) :=
  let* reply := next_dbreply in
  emit (EvQuery qr reply);;
  suspend 0;;
  match reply with
  | DbOk rows => modify_db (apply_query qr);; ret rows
  | DbFail message => throw message
  end.

(** ** The paced client *)

Section Client.
Variable cfg : Config.

Definition _pace : M unit :=
  let* now := Date_now in
  let* last := get_lastTs in
  let wait := last + MIN_REQUEST_INTERVAL_MS cfg - now in
  (if 0 <? wait then sleep wait else ret tt);;
  let* now' := Date_now in
  set_lastTs now'.

(** The entries of [params] that reach the query string. *)
Definition search_params (params : list (string * jsval))
  : list (string * string) :=
  omap (fun kv =>
          match kv.2 with
          | JUndefined | JNull => None
          | JStr EmptyString => None
          | v => Some (kv.1, ToString v)
          end) params.

(** [text ? JSON.parse(text) : {}], and [{ raw: text }] when the text
    is not JSON. *)
Definition parse_body (b : body) : payload :=
  match b with
  | BodyJson data => data
  | BodyEmpty | BodyText _ => empty_payload
  end.

(** The message of the error thrown for a response that is not ok. *)
Definition http_error_message (res : response) (path : string) : string :=
  let data := parse_body (res_body res) in
  let msg := js_or (p_message data)
                   (js_or (p_msg data) (JStr ("HTTP " +:+ pretty (status res)))) in
  ToString msg +:+ " @ " +:+ path.

Definition api_error_message (data : payload) (path : string) : string :=
  ToString (js_or (p_msg data) (JStr "API status error")) +:+ " @ " +:+ path.

(** What [get] does with a response it does not retry. *)
Definition finish (res : response) (path : string) : M payload :=
  let data := parse_body (res_body res) in
  if negb (ok res) then throw (http_error_message res path)
  else if truthy (p_status data)
          && negb (strict_eq (p_status data) (JStr "success"))
  then throw (api_error_message data path)
  else ret data.

(** The warnings of the 429 branch; [res.json()] fails, silently, on a
    body that is not JSON. *)
Definition warn_429 (res : response) (waitMs attempt retries : Z) : M unit :=
  match res_body res with
  | BodyJson j =>
      log ("API 429: " +:+
           ToString (js_or (p_message j)
                           (js_or (p_msg j) (JStr "Too Many Requests"))))
  | BodyEmpty | BodyText _ => ret tt
  end;;
  log ("429 -> retry in " +:+ pretty waitMs +:+ "ms (attempt " +:+
       pretty attempt +:+ "/" +:+ pretty retries +:+ ")").

(** The [while (true)] loop of [get]; [attempt] is the number of
    requests made so far, [fuel] bounds the retries still to come. *)
Fixpoint get_loop (path : string) (params : list (string * string))
         (retries : Z) (fuel : nat) (attempt : Z) : M payload :=
  let attempt := attempt + 1 in
  let* res := fetch path params in
  if (status res =? 429) && (attempt <=? retries) then
    let waitMs := MIN_REQUEST_INTERVAL_MS cfg + attempt * 1000 in
    warn_429 res waitMs attempt retries;;
    sleep waitMs;;
    _pace;;
    match fuel with
    | S fuel' => get_loop path params retries fuel' attempt
    | O => diverge
    end
  else finish res path.

Definition get (path : string) (params : list (string * jsval))
           (retries : Z) : M payload :=
  (if String.eqb (API_KEY cfg) EmptyString
   then die "No TWITTERAPI_IO_KEY" else ret tt);;
  _pace;;
  get_loop path (search_params params) retries (Z.to_nat retries) 0.

Definition getCommunityTweets (community_id : string) (cursor : jsval)
  : M payload :=
  get "/twitter/community/tweets"
      [("community_id", JStr community_id); ("cursor", cursor)] 6.

Definition getTweetsByIds (tweet_ids : list string) : M payload :=
  get "/twitter/tweets"
      [("tweet_ids", JStr (String.concat "," tweet_ids))] 6.

Definition getUserInfo (userName : jsval) : M payload :=
  get "/twitter/user/info" [("userName", userName)] 6.

Definition getCommunityMembers (community_id : string) (cursor : jsval)
  : M payload :=
  get "/twitter/community/members"
      [("community_id", JStr community_id); ("cursor", cursor)] 6.
End Client.

(** ** Sync state store *)

Definition ensureStateRow (communityId : string) : M unit :=
  q (QEnsureStateRow communityId);; ret tt.

(** [r.rows[0]]: the row of the community, [None] ([undefined]) when
    there is none. *)
Definition getState (communityId : string) : M (option state_row) :=
  ensureStateRow communityId;;
  q (QSelectState communityId);;
  let* d := get_db in
  ret (ingest_state d !! communityId).

Definition setBackfillCursor (communityId : string) (cursor : jsval) : M unit :=
  q (QSetBackfillCursor communityId (pg_param cursor));; ret tt.

Definition setLastSeenTweetId (communityId : string) (tweetId : jsval) : M unit :=
  q (QSetLastSeenTweetId communityId (pg_param tweetId));; ret tt.

(** [state.backfill_cursor], [state.last_seen_tweet_id]: reading a
    property of [undefined] throws. *)
Definition state_field (f : state_row -> option string)
           (state : option state_row) : M jsval :=
  match state with
  | Some row => ret (of_column (f row))
  | None => throw "TypeError: Cannot read properties of undefined"
  end.

(** ** Normalisers and upserts *)

(** The normalised post built by [normalizeTweet]; [created_at] is
    [null] or an ISO string. *)
Record tweet : Type := mkTweet {
  tweet_id : string;
  url : jsval;
  text : jsval;
  created_at : option Z;
  author_user_id : jsval;
  author_username : jsval;
}.

(** ** Scenarios

    Concrete configurations, payloads and worlds on which the examples at
    the end of the file run the program. *)

(** A date parser that knows two dates, and a number parser that knows
    none. *)
Definition demo_Date_parse (s : string) : option Z :=
  if String.eqb s "2024-01-01T00:00:00.000Z" then Some 1704067200000
  else if String.eqb s "2020-01-01T00:00:00.000Z" then Some 1577836800000
  else None.

Definition demo_StringToNumber (s : string) : option Z := None.

(** The defaults of the program, with a key, a community and a cutoff
    of thirty days. *)
Definition cfg0 : Config := mkConfig "key" "c1" 5200 3 48 24 80 30 50.

Definition empty_db : Database := mkDatabase ∅ ∅ ∅ ∅ ∅.

(** A post with an identifier and a creation date, and nothing else. *)
Definition post (id : string) (date : string) : raw_tweet :=
  mkRawTweet (JStr id) JUndefined (JStr "hello") (JStr date) None
             JUndefined JUndefined JUndefined JUndefined JUndefined JUndefined.

(** A page of posts of 2024 with the identifiers [ids]. *)
Definition page_of (ids : list string) (next : jsval) : payload :=
  mkPayload (JStr "success") JUndefined JUndefined
    (Some (map (fun id => post id "2024-01-01T00:00:00.000Z") ids))
    None (JBool true) next None None None.

Definition served_page (ids : list string) (next : jsval) : option response :=
  Some (mkResponse 200 (BodyJson (page_of ids next))).

(** Thirty days before the clock of the scenarios. *)
Definition cutoff0 : Z := 1701478000000.

(** A page whose third post is the first one older than the cutoff; the
    date of the second does not parse. *)
Definition page1 : payload :=
  mkPayload (JStr "success") JUndefined JUndefined
    (Some [post "T3" "2024-01-01T00:00:00.000Z"; post "T2" "soon";
           post "T1" "2020-01-01T00:00:00.000Z"])
    None (JBool true) (JStr "cur2") None None None.

Definition w0 : World :=
  mkWorld 1704070000000 0 [] [Some (mkResponse 200 (BodyJson page1))] []
          empty_db [] [].

(** A page whose only post is older than the cutoff. *)
Definition old_page : payload :=
  mkPayload (JStr "success") JUndefined JUndefined
    (Some [post "T1" "2020-01-01T00:00:00.000Z"])
    None (JBool true) (JStr "cur2") None None None.

Definition w_old : World :=
  mkWorld 1704070000000 0 [] [Some (mkResponse 200 (BodyJson old_page))] []
          empty_db [] [].

(** A stored post with a known author, and the same post seen again
    without its author. *)
Definition stored_post : tweet_row :=
  mkTweetRow (Some 1704067200000) (Some "42") (Some "alice")
             (Some "https://x.com/a/1") (Some "hello").

Definition w_post : World :=
  mkWorld 1704070000000 0 [] [] []
    (mkDatabase ∅ {[ ("c1", "T3") := stored_post ]} ∅ ∅ ∅) [] [].

Definition anonymous_post : tweet :=
  mkTweet "T3" JNull (JStr "hello again") None JNull JNull.

(** A user payload without a handle. *)
Definition no_handle : raw_user :=
  mkRawUser (JStr "42") JUndefined (JStr "Alice") (JNum 10) (JNum 2) JUndefined.

(** The head of the feed is T100, the stored watermark T90 is on none
    of the four pages the API would serve. *)
Definition w_head : World :=
  mkWorld 1704070000000 0 []
    [served_page ["T100"; "T99"] (JStr "n1");
     served_page ["T98"] (JStr "n2");
     served_page ["T97"] (JStr "n3");
     served_page ["T96"] (JStr "n4")] []
    (mkDatabase {[ "c1" := mkStateRow None (Some "T90") ]} ∅ ∅ ∅ ∅) [] [].

(** The stored watermark T98 is the third item of the first page. *)
Definition w_mark : World :=
  mkWorld 1704070000000 0 []
    [served_page ["T100"; "T99"; "T98"; "T97"] (JStr "n1");
     served_page ["T96"] (JStr "n2")] []
    (mkDatabase {[ "c1" := mkStateRow None (Some "T98") ]} ∅ ∅ ∅ ∅) [] [].

Definition failing : payload :=
  mkPayload JUndefined JUndefined (JStr "boom") None None JUndefined JUndefined
            None None None.

Definition user_payload (u : raw_user) : payload :=
  mkPayload (JStr "success") JUndefined JUndefined None None JUndefined
            JUndefined (Some u) None None.

Definition bob : raw_user :=
  mkRawUser (JStr "7") (JStr "bob") (JStr "Bob") (JNum 10) (JNum 2) JUndefined.

(** Three handles are selected: the API answers 500 for the first, the
    database refuses the profile of the second, the network fails for
    the third. *)
Definition w_users : World :=
  mkWorld 1704070000000 0 []
    [Some (mkResponse 500 (BodyJson failing));
     Some (mkResponse 200 (BodyJson (user_payload bob)));
     None]
    [DbOk [JStr "alice"; JStr "bob"; JStr "carol"]; DbFail "deadlock detected"]
    empty_db [] [].





(** The API answers 429 seven times in a row; and, in another world, 500
    once with the same body. *)
Definition slow_down : payload :=
  mkPayload JUndefined JUndefined (JStr "one request every 5 seconds")
            None None JUndefined JUndefined None None None.

Definition too_many : response := mkResponse 429 (BodyJson slow_down).

Definition w_limited : World :=
  mkWorld 1704070000000 0 [] (replicate 7 (Some too_many)) [] empty_db [] [].

Definition w_broken : World :=
  mkWorld 1704070000000 0 [] [Some (mkResponse 500 (BodyJson slow_down))] []
          empty_db [] [].

(** The texts of the numbers two strings read as. *)
Definition demo_Number_text (s : string) : string :=
  if String.eqb s "12" then "12"
  else if String.eqb s "1.5" then "1.5" else "NaN".

(** The configuration [cfg0] with batches of two identifiers, and
    without an API key. *)
Definition cfg_pairs : Config := mkConfig "key" "c1" 5200 3 48 24 2 30 50.


(** The feed of [w_head], with the network failing on the second
    page. *)
Definition w_cut : World :=
  mkWorld 1704070000000 0 []
    [served_page ["T100"; "T99"] (JStr "n1"); None] []
    (mkDatabase {[ "c1" := mkStateRow None (Some "T90") ]} ∅ ∅ ∅ ∅) [] [].

(** A backfill stopped at the cursor cur7; the API would serve one
    last page. *)
Definition w_resume : World :=
  mkWorld 1704070000000 0 []
    [served_page ["T50"] JNull] []
    (mkDatabase {[ "c1" := mkStateRow (Some "cur7") None ]} ∅ ∅ ∅ ∅) [] [].

(** The network is down. *)
Definition w_down : World :=
  mkWorld 1704070000000 0 [] [None] [] empty_db [] [].

(** The post T3 measured, with no like counter; and seen again with
    neither text nor url. *)
Definition measured : raw_tweet :=
  mkRawTweet (JStr "T3") JUndefined JUndefined JUndefined None
             (JNum 10) JUndefined (JNum 2) (JNum 0) JUndefined JUndefined.

Definition textless : raw_tweet :=
  mkRawTweet (JStr "T3") JUndefined JUndefined JUndefined None
             JUndefined JUndefined JUndefined JUndefined JUndefined JUndefined.

(** A member with a handle and no identifier. *)
Definition ghost : raw_user :=
  mkRawUser JUndefined (JStr "ghost") JUndefined JUndefined JUndefined JUndefined.

(** The API answers the profile request with a profile without a
    handle. *)
Definition w_ghost : World :=
  mkWorld 1704070000000 0 []
    [Some (mkResponse 200 (BodyJson (user_payload no_handle)))] []
    empty_db [] [].

(** Three posts are stale; the API serves their metrics in two
    batches. *)
Definition metrics_page (ts : list raw_tweet) : response :=
  mkResponse 200
    (BodyJson (mkPayload (JStr "success") JUndefined JUndefined (Some ts) None
                         JUndefined JUndefined None None None)).

Definition w_stale : World :=
  mkWorld 1704070000000 0 []
    [Some (metrics_page [measured]); Some (metrics_page [])]
    [DbOk [JStr "T1"; JStr "T2"; JStr "T3"]] empty_db [] [].

(** A backfill stopped at the cursor cur7 meets a response 200 with an
    empty body. *)
Definition w_blank : World :=
  mkWorld 1704070000000 0 []
    [Some (mkResponse 200 BodyEmpty)] []
    (mkDatabase {[ "c1" := mkStateRow (Some "cur7") None ]} ∅ ∅ ∅ ∅) [] [].

Section Platform.
(** The two parsers of the JavaScript engine the program relies on:
    [Date.parse] on a string ([None] is an invalid date) and the
    conversion of a string to a number ([None] is [NaN]). *)
Variable Date_parse : string -> option Z.
Variable StringToNumber : string -> option Z.

(** [new Date(v).getTime()], [None] for [NaN]. *)
Definition new_Date (v : jsval) : option Z :=
  match v with
  | JStr s => Date_parse s
  | JNum n => if Z.abs n <=? 8640000000000000 then Some n else None
  | JBool b => Some (if b then 1 else 0)
  | JNull => Some 0
  | JUndefined => None
  end.

(** [Number(v)] *)
Definition ToNumber (v : jsval) : option Z :=
  match v with
  | JStr s => StringToNumber s
  | JNum n => Some n
  | JBool b => Some (if b then 1 else 0)
  | JNull => Some 0
  | JUndefined => None
  end.

Definition parseCreatedAt (s : jsval) : option Z :=
  if negb (truthy s) then None
  else match new_Date s with
       | None => None
       | Some ms => Some ms
       end.

(** [t?.author?.f] *)
Definition author_field (f : raw_author -> jsval) (t : raw_tweet) : jsval :=
  match t_author t with
  | Some a => f a
  | None => JUndefined
  end.

Definition normalizeTweet (t : raw_tweet) : tweet :=
  {| tweet_id := ToString (t_id t);
     url := js_or (t_url t) JNull;
     text := js_or (t_text t) (JStr "");
     created_at := parseCreatedAt (t_createdAt t);
     author_user_id :=
       if truthy (author_field a_id t)
       then JStr (ToString (author_field a_id t)) else JNull;
     author_username :=
       js_or (author_field a_userName t)
             (js_or (author_field a_username t) JNull) |}.

(** The parameters [$3..$7] of the post upsert. *)
Definition tweet_params (tw : tweet) : tweet_row :=
  {| created_at_col := created_at tw;
     author_user_id_col := pg_param (author_user_id tw);
     author_username_col := pg_param (author_username tw);
     url_col := pg_param (url tw);
     text_col := pg_param (text tw) |}.

Definition upsertCommunityTweet (communityId : string) (tw : tweet) : M unit :=
  q (QUpsertCommunityTweet communityId (tweet_id tw) (tweet_params tw));;
  ret tt.

(** [Number(v || 0)] *)
Definition count_of (v : jsval) : option Z := ToNumber (js_or v (JNum 0)).

Definition upsertMetrics (m : raw_tweet) : M unit :=
  q (QUpsertMetrics (ToString (t_id m))
       {| view_count := count_of (t_viewCount m);
          like_count := count_of (t_likeCount m);
          retweet_count := count_of (t_retweetCount m);
          reply_count := count_of (t_replyCount m);
          quote_count := count_of (t_quoteCount m);
          bookmark_count := count_of (t_bookmarkCount m) |});;
  ret tt.

Definition upsertUser (u : raw_user) : M unit :=
  let user_id := if truthy (u_id u) then JStr (ToString (u_id u)) else JNull in
  let username := js_or (u_userName u) JNull in
  let name := js_or (u_name u) JNull in
  let followers := count_of (u_followers u) in
  let following := count_of (u_following u) in
  let profile_picture := js_or (u_profilePicture u) JNull in
  if negb (truthy user_id) || negb (truthy username) then ret tt
  else
    q (QUpsertUser (ToString user_id)
         {| username_col := pg_param username;
            name_col := pg_param name;
            followers_col := followers;
            following_col := following;
            profile_picture_col := pg_param profile_picture |});;
    ret tt.

(** ** Drivers *)

Variable cfg : Config.

(** [Array.isArray(data?.tweets) ? data.tweets : []] *)
Definition tweets_of (data : payload) : list raw_tweet :=
  default [] (p_tweets data).

Definition members_of (data : payload) : list raw_user :=
  default [] (p_members data).

(** [!data?.has_next_page || !data?.next_cursor] *)
Definition no_next_page (data : payload) : bool :=
  negb (truthy (p_has_next_page data)) || negb (truthy (p_next_cursor data)).

(** *** backfill *)

(** The cutoff check on one normalised post: [cutoffTs] is [None] for
    [null]; an ISO string is truthy and parses back to its time value. *)
Definition reaches_cutoff (cutoffTs : option Z) (tw : tweet) : bool :=
  match cutoffTs, created_at tw with
  | Some c, Some ts => negb (c =? 0) && (ts <? c)
  | _, _ => false
  end.

(** The [for (const t of tweets)] loop of [backfill]; returns
    [(insertedThisPage, insertedTotal, reachedCutoff)]. *)
Fixpoint backfill_scan (communityId : string) (cutoffTs : option Z)
         (tweets : list raw_tweet) (insertedThisPage insertedTotal : Z)
  : M (Z * Z * bool) :=
  match tweets with
  | [] => ret (insertedThisPage, insertedTotal, false)
  | t :: rest =>
      let tw := normalizeTweet t in
      if reaches_cutoff cutoffTs tw
      then ret (insertedThisPage, insertedTotal, true)
      else
        upsertCommunityTweet communityId tw;;
        backfill_scan communityId cutoffTs rest
                      (insertedThisPage + 1) (insertedTotal + 1)
  end.

(** The [for (let page = 1; page <= BACKFILL_PAGES_PER_RUN; page++)]
    loop, with [n] iterations left. *)
Fixpoint backfill_pages (communityId : string) (cutoffTs : option Z)
         (n : nat) (page : Z) (cursor : jsval) (insertedTotal : Z) : M unit :=
  match n with
  | O => ret tt
  | S n' =>
      let* data := getCommunityTweets cfg communityId cursor in
      let tweets := tweets_of data in
      let* r := backfill_scan communityId cutoffTs tweets 0 insertedTotal in
      let '(insertedThisPage, insertedTotal, reachedCutoff) := r in
      log ("backfill page=" +:+ pretty page +:+
           " insertedTotal=" +:+ pretty insertedTotal +:+
           " insertedThisPage=" +:+ pretty insertedThisPage +:+
           " cursor=" +:+ (if truthy cursor then "..." else "<null>"));;
      if reachedCutoff then
        log ("backfill stop: reached cutoff (" +:+
             pretty (BACKFILL_CUTOFF_DAYS cfg) +:+ " days)");;
        setBackfillCursor communityId JNull
      else if no_next_page data then
        log "backfill stop: no next page";;
        setBackfillCursor communityId JNull
      else
        let cursor := p_next_cursor data in
        setBackfillCursor communityId cursor;;
        backfill_pages communityId cutoffTs n' (page + 1) cursor insertedTotal
  end.

Definition backfill : M unit :=
  let communityId := COMMUNITY_ID cfg in
  (if String.eqb communityId EmptyString then die "No COMMUNITY_ID" else ret tt);;
  let* state := getState communityId in
  let* stored := state_field backfill_cursor state in
  let cursor := js_or stored JNull in
  let* now := Date_now in
  let cutoffTs :=
    if 0 <? BACKFILL_CUTOFF_DAYS cfg
    then Some (now - BACKFILL_CUTOFF_DAYS cfg * 24 * 3600 * 1000)
    else None in
  backfill_pages communityId cutoffTs
                 (Z.to_nat (BACKFILL_PAGES_PER_RUN cfg)) 1 cursor 0.

(** *** ingest-new *)

(** The [for (const t of tweets)] loop of [ingestNew]; returns
    [(inserted, stopped)]. *)
Fixpoint ingest_scan (communityId : string) (stopId : jsval)
         (tweets : list raw_tweet) (inserted : Z) : M (Z * bool) :=
  match tweets with
  | [] => ret (inserted, false)
  | t :: rest =>
      let id := JStr (ToString (t_id t)) in
      if truthy stopId && strict_eq id stopId then ret (inserted, true)
      else
        let tw := normalizeTweet t in
        upsertCommunityTweet communityId tw;;
        ingest_scan communityId stopId rest (inserted + 1)
  end.

(** [tweets[0]?.id] *)
Definition first_id (tweets : list raw_tweet) : jsval :=
  match tweets with
  | t :: _ => t_id t
  | [] => JUndefined
  end.

(** The [for (let page = 1; page <= TOP_PAGES; page++)] loop, with [n]
    iterations left; returns [newLastSeen]. *)
Fixpoint ingest_pages (communityId : string) (stopId : jsval)
         (n : nat) (page : Z) (cursor newLastSeen : jsval) (inserted : Z)
  : M jsval :=
  match n with
  | O => ret newLastSeen
  | S n' =>
      let* data := getCommunityTweets cfg communityId cursor in
      let tweets := tweets_of data in
      let newLastSeen :=
        if (page =? 1) && truthy (first_id tweets)
        then JStr (ToString (first_id tweets)) else newLastSeen in
      let* r := ingest_scan communityId stopId tweets inserted in
      let '(inserted, stopped) := r in
      log ("ingest-new page=" +:+ pretty page +:+
           " inserted=" +:+ pretty inserted +:+
           " stopped=" +:+ (if stopped then "true" else "false"));;
      if stopped then ret newLastSeen
      else if no_next_page data then ret newLastSeen
      else ingest_pages communityId stopId n' (page + 1)
                        (p_next_cursor data) newLastSeen inserted
  end.

Definition ingestNew : M unit :=
  let communityId := COMMUNITY_ID cfg in
  (if String.eqb communityId EmptyString then die "No COMMUNITY_ID" else ret tt);;
  let* state := getState communityId in
  let* stored := state_field last_seen_tweet_id state in
  let stopId := js_or stored JNull in
  let* newLastSeen :=
    ingest_pages communityId stopId (Z.to_nat (TOP_PAGES cfg)) 1
                 JNull JNull 0 in
  if truthy newLastSeen then setLastSeenTweetId communityId newLastSeen
  else ret tt.

(** *** refresh-metrics *)

(** The slices pushed by [chunk(arr, size)] for a positive [size]. *)
Fixpoint chunk_slices {A : Type} (fuel : nat) (arr : list A) (size : nat)
  : list (list A) :=
  match fuel, arr with
  | S fuel', _ :: _ => take size arr :: chunk_slices fuel' (drop size arr) size
  | _, _ => []
  end.

(** [chunk(arr, size)]; [None] when its loop never ends ([i += size]
    with [size <= 0] on an array that is not empty). *)
Definition chunk {A : Type} (arr : list A) (size : Z) : option (list (list A)) :=
  match arr with
  | [] => Some []
  | _ :: _ =>
      if size <=? 0 then None
      else Some (chunk_slices (length arr) arr (Z.to_nat size))
  end.

(** [for (const x of xs) await body(x)] *)
Fixpoint for_of {A : Type} (xs : list A) (body : A -> M unit) : M unit :=
  match xs with
  | [] => ret tt
  | x :: rest => body x;; for_of rest body
  end.

Definition refreshMetrics (hours : Z) (all : bool) : M unit :=
  let communityId := COMMUNITY_ID cfg in
  (if String.eqb communityId EmptyString then die "No COMMUNITY_ID" else ret tt);;
  let* rows := q (QSelectStaleTweets communityId all (pretty hours)) in
  let ids := map ToString rows in
  log ("refresh-metrics: tweets to update = " +:+
       pretty (Z.of_nat (length ids)) +:+
       " (all=" +:+ (if all then "true" else "false") +:+
       ", hours=" +:+ pretty hours +:+ ")");;
  if Nat.eqb (length ids) 0 then ret tt
  else
    match chunk ids (BATCH_TWEET_IDS cfg) with
    | None => diverge
    | Some groups =>
        for_of groups (fun group =>
          let* data := getTweetsByIds cfg group in
          for_of (tweets_of data) upsertMetrics;;
          log ("refresh-metrics: updated batch size=" +:+
               pretty (Z.of_nat (length group))));;
        log "refresh-metrics done."
    end.

(** *** refresh-users *)

(** The body of the [try] block, for one handle. *)
Definition refresh_one (username : jsval) : M unit :=
  let* data := getUserInfo cfg username in
  match p_user data, p_data data, p_result data with
  | Some u, _, _ => upsertUser u
  | None, Some u, _ => upsertUser u
  | None, None, Some u => upsertUser u
  | None, None, None => ret tt
  end;;
  log ("refresh-users ok @" +:+ ToString username).

Definition refresh_guarded (username : jsval) : M unit :=
  try_catch (refresh_one username)
            (fun message =>
               log ("refresh-users fail @" +:+ ToString username +:+
                    ": " +:+ message)).

Definition refreshUsers (hours : Z) : M unit :=
  let communityId := COMMUNITY_ID cfg in
  (if String.eqb communityId EmptyString then die "No COMMUNITY_ID" else ret tt);;
  let* rows := q (QSelectActiveUsers communityId (pretty hours)) in
  let users := filter (fun x => truthy x = true) rows in
  log ("refresh-users: found " +:+ pretty (Z.of_nat (length users)) +:+
       " active users (last " +:+ pretty hours +:+ "h)");;
  for_of users refresh_guarded;;
  log "refresh-users done.".

(** *** sync-members *)

Definition sync_member (communityId : string) (m : raw_user) : M unit :=
  upsertUser m;;
  q (QUpsertMember communityId (ToString (u_id m)) (pg_param (u_userName m)));;
  ret tt.

(** The [while (true)] loop of [syncMembers]; [fuel] bounds the pages. *)
Fixpoint sync_pages (communityId : string) (fuel : nat) (cursor : jsval)
         (total : Z) : M unit :=
  match fuel with
  | O => diverge
  | S fuel' =>
      let* data := getCommunityMembers cfg communityId cursor in
      let members := members_of data in
      for_of members (sync_member communityId);;
      let total := total + Z.of_nat (length members) in
      log ("sync-members page added=" +:+ pretty (Z.of_nat (length members)) +:+
           " total=" +:+ pretty total);;
      if no_next_page data then ret tt
      else sync_pages communityId fuel' (p_next_cursor data) total
  end.

(** Every page consumes a scripted exchange and a fetch fails once the
    script is used up, so the pages left to serve bound the loop. *)
Definition syncMembers : M unit :=
  let communityId := COMMUNITY_ID cfg in
  (if String.eqb communityId EmptyString then die "No COMMUNITY_ID" else ret tt);;
  (fun w => sync_pages communityId (S (length (net w))) JNull 0 w);;
  log "sync-members done.".

(** *** doctor *)

(** The connection string read from the environment; empty when it is
    not set. *)
Variable DATABASE_URL : string.

Definition doctor : M unit :=
  (if String.eqb (API_KEY cfg) EmptyString
      || String.eqb (COMMUNITY_ID cfg) EmptyString
      || String.eqb DATABASE_URL EmptyString
   then die "Missing env vars (key/community_id/database_url)" else ret tt);;
  q QSelect1;;
  let* data := getCommunityTweets cfg (COMMUNITY_ID cfg) JUndefined in
  let n := length (tweets_of data) in
  log "DB: OK";;
  log ("API: OK (/community/tweets returned " +:+ pretty (Z.of_nat n) +:+
       " tweets)").

(** *** main *)

(** [refreshMetrics] and [refreshUsers] read [hours] through its text
    only, in the parameter of their query and in their first line; here
    they take that text, so that the flag of the command line may hold
    any number, an integer or not. *)
Definition refreshMetrics_as (hours : string) (all : bool) : M unit :=
  let communityId := COMMUNITY_ID cfg in
  (if String.eqb communityId EmptyString then die "No COMMUNITY_ID" else ret tt);;
  let* rows := q (QSelectStaleTweets communityId all hours) in
  let ids := map ToString rows in
  log ("refresh-metrics: tweets to update = " +:+
       pretty (Z.of_nat (length ids)) +:+
       " (all=" +:+ (if all then "true" else "false") +:+
       ", hours=" +:+ hours +:+ ")");;
  if Nat.eqb (length ids) 0 then ret tt
  else
    match chunk ids (BATCH_TWEET_IDS cfg) with
    | None => diverge
    | Some groups =>
        for_of groups (fun group =>
          let* data := getTweetsByIds cfg group in
          for_of (tweets_of data) upsertMetrics;;
          log ("refresh-metrics: updated batch size=" +:+
               pretty (Z.of_nat (length group))));;
        log "refresh-metrics done."
    end.

Definition refreshUsers_as (hours : string) : M unit :=
  let communityId := COMMUNITY_ID cfg in
  (if String.eqb communityId EmptyString then die "No COMMUNITY_ID" else ret tt);;
  let* rows := q (QSelectActiveUsers communityId hours) in
  let users := filter (fun x => truthy x = true) rows in
  log ("refresh-users: found " +:+ pretty (Z.of_nat (length users)) +:+
       " active users (last " +:+ hours +:+ "h)");;
  for_of users refresh_guarded;;
  log "refresh-users done.".

(** [String(n)] for a number that may be [NaN]. *)
Definition number_text (n : option Z) : string :=
  match n with
  | Some n => pretty n
  | None => "NaN"
  end.

(** What stands in [s] before its first ["="], and after it. *)
Fixpoint upto_eq (s : string) : string :=
  match s with
  | EmptyString => EmptyString
  | String c rest =>
      if String.eqb (String c EmptyString) "=" then EmptyString
      else String c (upto_eq rest)
  end.

Fixpoint after_eq (s : string) : option string :=
  match s with
  | EmptyString => None
  | String c rest =>
      if String.eqb (String c EmptyString) "=" then Some rest else after_eq rest
  end.

(** [s.split("=")[1]]: what stands between the first ["="] of [s] and
    the next one, [undefined] when [s] has none. *)
Definition split_eq_1 (s : string) : jsval :=
  match after_eq s with
  | Some rest => JStr (upto_eq rest)
  | None => JUndefined
  end.

(** [String(Number(s))] for a string [s]: the text of the number [s]
    reads as, which need not be an integer (["1.5"] reads as itself),
    and ["NaN"] when [s] reads as no number. *)
Variable Number_text : string -> string.

(** [String(Number(v))] *)
Definition String_Number (v : jsval) : string :=
  match v with
  | JStr s => Number_text s
  | _ => number_text (ToNumber v)
  end.

(** [String(hoursArg ? Number(hoursArg.split("=")[1]) : dflt)]: the
    drivers read the number of hours through its text only. *)
Definition hours_flag (argv : list string) (dflt : Z) : string :=
  match List.find (String.prefix "--hours=") argv with
  | Some hoursArg => String_Number (split_eq_1 hoursArg)
  | None => pretty dflt
  end.

(** The text printed for [help]. *)
Definition usage : string :=
  "Commands:
  node parser.js doctor
  node parser.js backfill
  node parser.js ingest-new
  node parser.js refresh-metrics [--all] [--hours=48]
  node parser.js refresh-users [--hours=24]
  node parser.js sync-members
  node parser.js user-stats <username>

Env:
  TWITTERAPI_IO_KEY
  COMMUNITY_ID
  DATABASE_URL
  PGSSL=true (Railway обычно)
  MIN_REQUEST_INTERVAL_MS=5200
  TOP_PAGES=3
  RECENT_HOURS=48
  ACTIVE_HOURS=24
  BATCH_TWEET_IDS=80
  BACKFILL_CUTOFF_DAYS=0
  BACKFILL_PAGES_PER_RUN=50".

(** [userStats] prints a row of aggregates the way Node renders an
    object; it is left abstract. *)
Variable userStats : option string -> M unit.

(** [main], for the command line [argv] ([process.argv]); closing the
    pool in [finally] changes nothing of the world. *)
Definition main (argv : list string) : M unit :=
  match argv !! 2%nat with
  | None => log usage
  | Some cmd =>
      if String.eqb cmd EmptyString || String.eqb cmd "help"
         || String.eqb cmd "--help"
      then log usage
      else
        (if String.eqb DATABASE_URL EmptyString
         then die "Missing DATABASE_URL" else ret tt);;
        (if String.eqb (COMMUNITY_ID cfg) EmptyString
         then die "Missing COMMUNITY_ID" else ret tt);;
        (if String.eqb (API_KEY cfg) EmptyString
         then die "Missing TWITTERAPI_IO_KEY" else ret tt);;
        if String.eqb cmd "doctor" then doctor
        else if String.eqb cmd "backfill" then backfill
        else if String.eqb cmd "ingest-new" then ingestNew
        else if String.eqb cmd "refresh-metrics" then
          let all := existsb (String.eqb "--all") argv in
          let hours := hours_flag argv (RECENT_HOURS cfg) in
          refreshMetrics_as hours all
        else if String.eqb cmd "refresh-users" then
          let hours := hours_flag argv (ACTIVE_HOURS cfg) in
          refreshUsers_as hours
        else if String.eqb cmd "sync-members" then syncMembers
        else if String.eqb cmd "user-stats" then userStats (argv !! 3%nat)
        else die ("Unknown command: " +:+ cmd)
  end.

(** * Specification vocabulary *)

Definition wp {A : Type} (m : M A) (Q : outcome A -> World -> Prop)
           (w : World) : Prop :=
  Q (m w).1 (m w).2.

(** Events of the client that are neither a statement nor a raise. *)
Definition quiet (e : event) : Prop :=
  match e with
  | EvSleep _ | EvFetch _ _ _ _ => True
  | EvQuery _ _ | EvThrow _ => False
  end.

(** How a call of the client ends, read off the events it adds: a
    result is the parsed body of the last exchange; an exception is
    the last event; nothing else is raised, no statement is sent. *)
Definition get_ends (path : string) (sp : list (string * string))
           (r : outcome payload) (evs : list event) : Prop :=
  match r with
  | Ok data =>
      exists evs0 t res,
        evs = evs0 ++ [EvFetch t path sp (Some res)] /\
        data = parse_body (res_body res) /\ Forall quiet evs0
  | Abort (Thrown message) =>
      exists evs0,
        evs = evs0 ++ [EvThrow message] /\ Forall quiet evs0 /\
        exists t ex, EvFetch t path sp ex ∈ evs0
  | Abort (Exited _) => Forall quiet evs
  | Abort Diverged => False
  end.

(** What a call of the client leaves alone, and what it adds. *)
Definition client_effect (path : string) (sp : list (string * string))
           (w : World) (r : outcome payload) (w' : World) : Prop :=
  exists evs lines,
    trace w' = trace w ++ evs /\ console w' = console w ++ lines /\
    db w' = db w /\ dbs w' = dbs w /\
    get_ends path sp r evs /\
    (forall data, r = Ok data -> (length (net w') < length (net w))%nat).

(** A reply that is not an error. *)
Definition reply_ok (r : dbreply) : bool :=
  match r with
  | DbOk _ => true
  | DbFail _ => false
  end.

(** The database answers every statement to come. *)
Definition db_up (w : World) : Prop := Forall (fun r => reply_ok r = true) (dbs w).

(** The event of a post upsert that succeeded. *)
Definition upsert_event (communityId : string) (tw : tweet) (e : event) : Prop :=
  exists rows,
    e = EvQuery (QUpsertCommunityTweet communityId (tweet_id tw)
                                       (tweet_params tw)) (DbOk rows).

(** A statement that writes the backfill cursor. *)
Definition is_cursor_write (e : event) : bool :=
  match e with
  | EvQuery (QSetBackfillCursor _ _) _ => true
  | _ => false
  end.

(** A statement that writes the last-seen watermark. *)
Definition is_watermark_write (e : event) : bool :=
  match e with
  | EvQuery (QSetLastSeenTweetId _ _) _ => true
  | _ => false
  end.

(** Events of a page scan: post upserts and the raise that ends it. *)
Definition scan_event (e : event) : Prop :=
  match e with
  | EvQuery (QUpsertCommunityTweet _ _ _) _ | EvThrow _ => True
  | _ => False
  end.

(** What a page scan leaves alone. *)
Definition scan_frame (w w' : World) : Prop :=
  net w' = net w /\ lastTs w' = lastTs w /\ console w' = console w /\
  ingest_state (db w') = ingest_state (db w) /\
  (db_up w -> db_up w').

(** How the scan of [backfill] ends: on success the posts before the
    first one older than the cutoff have been upserted, in order. *)
Definition backfill_scan_ends (communityId : string) (cutoffTs : option Z)
           (tweets : list raw_tweet) (a b : Z)
           (r : outcome (Z * Z * bool)) (evs : list event) : Prop :=
  match r with
  | Ok (insertedThisPage, insertedTotal, reachedCutoff) =>
      exists kept,
        Forall2 (upsert_event communityId) kept evs /\
        Forall (fun tw => reaches_cutoff cutoffTs tw = false) kept /\
        insertedThisPage = a + Z.of_nat (length kept) /\
        insertedTotal = b + Z.of_nat (length kept) /\
        if reachedCutoff
        then exists tw rest,
            map normalizeTweet tweets = kept ++ tw :: rest /\
            reaches_cutoff cutoffTs tw = true
        else map normalizeTweet tweets = kept
  | Abort (Thrown message) =>
      exists evs0, evs = evs0 ++ [EvThrow message] /\ Forall scan_event evs
  | Abort _ => False
  end.

(** The world once the database has answered the statement [qr]. *)
Definition answered (qr : query) (w : World) : World :=
  mkWorld (now w + 0 + Z.of_N (hd 0%N (jitter w))) (lastTs w)
          (tl (jitter w)) (net w) (tl (dbs w)) (apply_query qr (db w))
          (trace w ++ [EvQuery qr (default (DbOk []) (head (dbs w)))])
          (console w).

(** The statement of the cursor discipline as the specification words
    it: whenever the cursor is written, the events since the last
    request are the upserts of every post of the page it returned. *)
Definition cursor_follows_page (communityId : string) (evs : list event) : Prop :=
  forall pre c reply post,
    evs = pre ++ EvQuery (QSetBackfillCursor communityId c) reply :: post ->
    exists pre0 t sp res ups,
      pre = pre0 ++ EvFetch t "/twitter/community/tweets" sp (Some res) :: ups /\
      Forall2 (upsert_event communityId)
              (map normalizeTweet (tweets_of (parse_body (res_body res)))) ups.

(** The discipline the driver keeps: whenever the cursor is written,
    the events since the last request are the upserts of the posts of
    the page it returned, all of them unless a post older than the
    cutoff stopped the scan; in that case the cursor written is null. *)
Definition cursor_follows_scan (communityId : string) (cutoffTs : option Z)
           (evs : list event) : Prop :=
  forall pre c reply post,
    evs = pre ++ EvQuery (QSetBackfillCursor communityId c) reply :: post ->
    exists pre0 t sp res ups kept,
      pre = pre0 ++ EvFetch t "/twitter/community/tweets" sp (Some res) :: ups /\
      Forall2 (upsert_event communityId) kept ups /\
      let data := parse_body (res_body res) in
      let page := map normalizeTweet (tweets_of data) in
      (kept = page /\
       c = if no_next_page data then None else pg_param (p_next_cursor data))
      \/ (c = None /\
          Forall (fun tw => reaches_cutoff cutoffTs tw = false) kept /\
          exists tw rest,
            page = kept ++ tw :: rest /\ reaches_cutoff cutoffTs tw = true).

(** The backfill cursor is not written in [evs]. *)
Definition no_cursor_write (evs : list event) : Prop :=
  Forall (fun e => is_cursor_write e = false) evs.

(** Events of the prelude of a driver: reading the sync state. *)
Definition prelude_event (e : event) : Prop :=
  match e with
  | EvQuery (QEnsureStateRow _) _ | EvQuery (QSelectState _) _
  | EvThrow _ => True
  | _ => False
  end.

(** The stop test of [ingestNew] on one item. *)
Definition at_watermark (stopId : jsval) (t : raw_tweet) : bool :=
  truthy stopId && strict_eq (JStr (ToString (t_id t))) stopId.

(** Events that are not statements. *)
Definition client_event (e : event) : Prop :=
  match e with
  | EvQuery _ _ => False
  | _ => True
  end.

(** The watermark is not written in [evs]. *)
Definition no_watermark_write (evs : list event) : Prop :=
  Forall (fun e => is_watermark_write e = false) evs.

(** The candidate watermark after the page [data] fetched as page
    number [page]. *)
Definition candidate (page : Z) (data : payload) (newLastSeen : jsval) : jsval :=
  if (page =? 1) && truthy (first_id (tweets_of data))
  then JStr (ToString (first_id (tweets_of data))) else newLastSeen.

(** The record of a raised exception. *)
Definition is_throw (e : event) : bool :=
  match e with
  | EvThrow _ => true
  | _ => false
  end.

(** No exception is raised in [evs]. *)
Definition calm (evs : list event) : Prop :=
  Forall (fun e => is_throw e = false) evs.

(** The events added agree with the outcome: an exception that ends
    the computation is the last event and the only raise. *)
Definition raises_last {A : Type} (r : outcome A) (evs : list event) : Prop :=
  match r with
  | Abort (Thrown message) =>
      exists evs0, evs = evs0 ++ [EvThrow message] /\ calm evs0
  | _ => calm evs
  end.

(** Every exception raised while [m] runs ends [m]. *)
Definition propagates {A : Type} (m : M A) : Prop :=
  forall w,
    wp m (fun r w' => exists evs, trace w' = trace w ++ evs /\ raises_last r evs) w.

(** The same, read off the trace: an exception raised during the run
    is its outcome. *)
Definition unwinds {A : Type} (m : M A) : Prop :=
  forall w evs message,
    trace (m w).2 = trace w ++ evs ->
    EvThrow message ∈ evs ->
    (m w).1 = Abort (Thrown message).

(** The profile of [username] was requested in [evs]. *)
Definition requested (username : jsval) (evs : list event) : Prop :=
  exists t ex,
    EvFetch t "/twitter/user/info" [("userName", ToString username)] ex ∈ evs.

(** A line the client prints when it meets a response 429. *)
Definition client_warning (line : string) : Prop :=
  exists rest,
    line = "API 429: " +:+ rest \/ line = "429 -> retry in " +:+ rest.

(** What one handle leaves in the trace and on the console: its events
    hold the request of its profile; when none of them is a raise, the
    console gets the line that says ok; when one is, it is the last of
    them and the console gets the line that says fail, with the message
    of that exception.  Before that line come only warnings of the
    client. *)
Definition handled (username : jsval) (block : list event * list string)
  : Prop :=
  requested username block.1 /\
  exists warns,
    Forall client_warning warns /\
    ((calm block.1 /\
      block.2 = warns ++ ["refresh-users ok @" +:+ ToString username]) \/
     (exists evs0 message,
         block.1 = evs0 ++ [EvThrow message] /\ calm evs0 /\
         block.2 = warns ++ ["refresh-users fail @" +:+ ToString username +:+
                             ": " +:+ message])).

(** The times the requests carry, oldest first: for each request the
    stamp [_pace] took before it was sent. *)
Definition fetch_times (evs : list event) : list Z :=
  omap (fun e => match e with
                 | EvFetch t _ _ _ => Some t
                 | _ => None
                 end) evs.

(** The durations of the timers set, oldest first. *)
Definition sleeps (evs : list event) : list Z :=
  omap (fun e => match e with
                 | EvSleep ms => Some ms
                 | _ => None
                 end) evs.





(** A response the client returns at once: it is ok and its envelope
    does not report a failure. *)
Definition served (res : response) : bool :=
  ok res &&
  negb (truthy (p_status (parse_body (res_body res)))
        && negb (strict_eq (p_status (parse_body (res_body res)))
                           (JStr "success"))).

(** A request that brought a response the client returns. *)
Definition is_served_fetch (e : event) : bool :=
  match e with
  | EvFetch _ _ _ (Some res) => served res
  | _ => false
  end.

(** No request of [evs] brought such a response. *)
Definition unserved (evs : list event) : Prop :=
  Forall (fun e => is_served_fetch e = false) evs.


(** What a page with a post older than the cutoff does to a run of
    [backfill] that added the events [evs] and ended in [w'] with the
    outcome [r]: after the request that brought the page come the
    upserts of the posts before that post and the write of a null
    cursor, and that ends the run. *)
Definition stops_at_cutoff (communityId : string) (cutoffTs : option Z)
           (r : outcome unit) (w' : World) (evs : list event) : Prop :=
  forall evs0 t path sp res evs1 pre tK post,
    evs = evs0 ++ EvFetch t path sp (Some res) :: evs1 ->
    served res = true ->
    tweets_of (parse_body (res_body res)) = pre ++ tK :: post ->
    Forall (fun x => reaches_cutoff cutoffTs (normalizeTweet x) = false) pre ->
    reaches_cutoff cutoffTs (normalizeTweet tK) = true ->
    r = Ok tt /\
    (exists ups reply,
        evs1 = ups ++ [EvQuery (QSetBackfillCursor communityId None) reply] /\
        reply_ok reply = true /\
        Forall2 (upsert_event communityId) (map normalizeTweet pre) ups) /\
    exists row,
      ingest_state (db w') !! communityId = Some row /\
      backfill_cursor row = None.

(** What the watermark does to a run of the page loop of [ingestNew]
    that added the events [evs]: after the request that brought a page
    with an item at the watermark come the upserts of the items before
    it, and that ends the loop; after the request of a page without
    such an item come the upserts of all its items. *)
Definition stops_at_watermark {A : Type} (communityId : string) (stopId : jsval)
           (r : outcome A) (evs : list event) : Prop :=
  forall evs0 t path sp res evs1,
    evs = evs0 ++ EvFetch t path sp (Some res) :: evs1 ->
    served res = true ->
    let page := tweets_of (parse_body (res_body res)) in
    (forall pre tm post,
        page = pre ++ tm :: post ->
        Forall (fun x => at_watermark stopId x = false) pre ->
        at_watermark stopId tm = true ->
        (exists v, r = Ok v) /\
        Forall2 (upsert_event communityId) (map normalizeTweet pre) evs1) /\
    (Forall (fun x => at_watermark stopId x = false) page ->
     exists ups rest,
       evs1 = ups ++ rest /\
       Forall2 (upsert_event communityId) (map normalizeTweet page) ups).


(** The delays of the retries number [first], [first + 1], ... *)
Definition backoffs (first count : Z) : list Z :=
  map (fun attempt => MIN_REQUEST_INTERVAL_MS cfg + attempt * 1000)
      (seqZ first count).

(** ** Runs as sequences of actions *)

(** The steps a driver takes: a console line, a raise, a timer, a
    request let through by [_pace], a statement. *)
Inductive action : Type :=
| ALog (line : string)
| AThrow (message : string)
| ASleep (ms : Z)
| ARequest (path : string) (params : list (string * string))
| AQuery (qr : query).

(** The world after one step. *)
Definition act (a : action) (w : World) : World :=
  match a with
  | ALog line => (log line w).2
  | AThrow message => (@throw unit message w).2
  | ASleep ms => (sleep ms w).2
  | ARequest path params => (fetch path params (_pace cfg w).2).2
  | AQuery qr => (q qr w).2
  end.

Definition run (acts : list action) (w : World) : World :=
  foldl (fun w a => act a w) w acts.

(** The steps allowed to a computation that sends only the statements
    [St] and calls only the endpoints [Rq]. *)
Definition allowed (St : query -> Prop)
           (Rq : string -> list (string * string) -> Prop) (a : action) : Prop :=
  match a with
  | ARequest path params => Rq path params
  | AQuery qr => St qr
  | _ => True
  end.

(** Every run of [m] is a sequence of allowed steps. *)
Definition performs {A : Type} (St : query -> Prop)
           (Rq : string -> list (string * string) -> Prop) (m : M A) : Prop :=
  forall w,
    wp m (fun _ w' => exists acts, w' = run acts w /\ Forall (allowed St Rq) acts) w.

(** The requests among the steps [acts]. *)
Definition calls (acts : list action) : list (string * list (string * string)) :=
  omap (fun a => match a with
                 | ARequest path params => Some (path, params)
                 | _ => None
                 end) acts.

(** Every run of [m] is a sequence of steps with at most [n] requests. *)
Definition within {A : Type} (n : nat) (m : M A) : Prop :=
  forall w,
    wp m (fun _ w' => exists acts, w' = run acts w /\
                                   (length (calls acts) <= n)%nat) w.

(** The requests of [evs], oldest first. *)
Definition requests (evs : list event) : list (string * list (string * string)) :=
  omap (fun e => match e with
                 | EvFetch _ path params _ => Some (path, params)
                 | _ => None
                 end) evs.

(** The statements sent in [evs], oldest first. *)
Definition statements (evs : list event) : list query :=
  omap (fun e => match e with
                 | EvQuery qr _ => Some qr
                 | _ => None
                 end) evs.

(** The statements of [evs] that succeeded, oldest first. *)
Definition committed (evs : list event) : list query :=
  omap (fun e => match e with
                 | EvQuery qr (DbOk _) => Some qr
                 | _ => None
                 end) evs.

(** The database after the statements [qs]. *)
Definition replay (qs : list query) (d : Database) : Database :=
  foldl (fun d qr => apply_query qr d) d qs.

(** From [w] to [w'] only the endpoints [Rq] are called and only the
    statements [St] are sent; the database of [w'] is that of [w] with
    the statements that succeeded applied in order. *)
Definition journal (St : query -> Prop)
           (Rq : string -> list (string * string) -> Prop) (w w' : World) : Prop :=
  exists evs,
    trace w' = trace w ++ evs /\
    Forall (fun r => Rq r.1 r.2) (requests evs) /\
    Forall St (statements evs) /\
    db w' = replay (committed evs) (db w).

(** Every run of [m] keeps such a journal. *)
Definition confined {A : Type} (St : query -> Prop)
           (Rq : string -> list (string * string) -> Prop) (m : M A) : Prop :=
  forall w, journal St Rq w (m w).2.

(** The statements of each driver, for the community [cid]. *)
Definition backfill_statement (cid : string) (qr : query) : Prop :=
  match qr with
  | QEnsureStateRow c | QSelectState c | QSetBackfillCursor c _
  | QUpsertCommunityTweet c _ _ => c = cid
  | _ => False
  end.

Definition ingest_statement (cid : string) (qr : query) : Prop :=
  match qr with
  | QEnsureStateRow c | QSelectState c | QSetLastSeenTweetId c _
  | QUpsertCommunityTweet c _ _ => c = cid
  | _ => False
  end.

Definition metrics_statement (cid : string) (qr : query) : Prop :=
  match qr with
  | QSelectStaleTweets c _ _ => c = cid
  | QUpsertMetrics _ _ => True
  | _ => False
  end.

Definition users_statement (cid : string) (qr : query) : Prop :=
  match qr with
  | QSelectActiveUsers c _ => c = cid
  | QUpsertUser _ _ => True
  | _ => False
  end.

Definition members_statement (cid : string) (qr : query) : Prop :=
  match qr with
  | QUpsertUser _ _ => True
  | QUpsertMember c _ _ => c = cid
  | _ => False
  end.

Definition doctor_statement (qr : query) : Prop := qr = QSelect1.

(** The requests of each driver. *)
Definition page_request (path cid : string) (p : string)
           (sp : list (string * string)) : Prop :=
  p = path /\
  exists cursor, sp = search_params [("community_id", JStr cid); ("cursor", cursor)].

Definition tweets_request (p : string) (sp : list (string * string)) : Prop :=
  p = "/twitter/tweets" /\
  exists ids, sp = search_params [("tweet_ids", JStr (String.concat "," ids))].

Definition user_request (p : string) (sp : list (string * string)) : Prop :=
  p = "/twitter/user/info" /\ exists u, sp = search_params [("userName", u)].

(** ** What a driver leaves alone *)

(** From [d] to [d'] the sync state of every community keeps its field
    [field], and the state of the communities other than [cid0] is
    untouched. *)
Definition state_kept {A : Type} (field : state_row -> A) (cid0 : string)
           (d d' : Database) : Prop :=
  forall cid row,
    ingest_state d !! cid = Some row ->
    exists row',
      ingest_state d' !! cid = Some row' /\ field row' = field row /\
      (cid <> cid0 -> row' = row).

(** From [d] to [d'] no post is removed and the posts of the
    communities other than [cid0] are untouched. *)
Definition posts_kept (cid0 : string) (d d' : Database) : Prop :=
  (forall k, is_Some (community_tweets d !! k) ->
             is_Some (community_tweets d' !! k)) /\
  (forall cid tid,
      cid <> cid0 ->
      community_tweets d' !! (cid, tid) = community_tweets d !! (cid, tid)).

(** What a driver that reads pages of posts leaves of the database:
    the field [field] of the sync state, the posts of the other
    communities, and the three other tables. *)
Definition pages_frame {A : Type} (field : state_row -> A) (cid0 : string)
           (d d' : Database) : Prop :=
  state_kept field cid0 d d' /\ posts_kept cid0 d d' /\
  tweet_metrics_latest d' = tweet_metrics_latest d /\
  users d' = users d /\
  community_members d' = community_members d.

(** What [syncMembers] leaves of the database. *)
Definition members_frame (cid0 : string) (d d' : Database) : Prop :=
  ingest_state d' = ingest_state d /\
  community_tweets d' = community_tweets d /\
  tweet_metrics_latest d' = tweet_metrics_latest d /\
  forall cid uid,
    cid <> cid0 ->
    community_members d' !! (cid, uid) = community_members d !! (cid, uid).

(** The profile a response to [getUserInfo] holds: [data.user], else
    [data.data], else [data.result]. *)
Definition profile_of (data : payload) : option raw_user :=
  match p_user data, p_data data, p_result data with
  | Some u, _, _ => Some u
  | None, Some u, _ => Some u
  | None, None, Some u => Some u
  | None, None, None => None
  end.

(** The request that follows a write of the backfill cursor asks for
    the page of the cursor written. *)
Definition cursor_leads (cid : string) (evs : list event) : Prop :=
  forall pre c reply post r,
    evs = pre ++ EvQuery (QSetBackfillCursor cid c) reply :: post ->
    head (requests post) = Some r ->
    exists v,
      c = pg_param v /\
      r = ("/twitter/community/tweets",
           search_params [("community_id", JStr cid); ("cursor", v)]).

(** No run of [m] ends the process. *)
Definition stays {A : Type} (m : M A) : Prop :=
  forall w, wp m (fun r _ => forall c, r <> Abort (Exited c)) w.

(** * Properties *)

(** ** A weakest-precondition reading of the monad *)

Lemma wp_bind {A B : Type} (m : M A) (k : A -> M B) Q w :
  wp m (fun r w1 =>
          match r with
          | Ok a => wp (k a) Q w1
          | Abort e => Q (Abort e) w1
          end) w ->
  wp (bind m k) Q w.
Proof.
  unfold wp, bind. destruct (m w) as [[a|e] w1]; simpl; auto.
Qed.

Lemma wp_mono {A : Type} (m : M A) (Q Q' : outcome A -> World -> Prop) w :
  wp m Q w -> (forall r w', Q r w' -> Q' r w') -> wp m Q' w.
Proof. unfold wp. auto. Qed.

Lemma wp_run {A : Type} (m : M A) Q w r w' :
  m w = (r, w') -> Q r w' -> wp m Q w.
Proof. unfold wp. intros ->. auto. Qed.

Lemma wp_if {A : Type} (b : bool) (m1 m2 : M A) Q w :
  (b = true -> wp m1 Q w) -> (b = false -> wp m2 Q w) ->
  wp (if b then m1 else m2) Q w.
Proof. destruct b; auto. Qed.

Lemma wp_elim {A : Type} (m : M A) Q w : wp m Q w -> Q (m w).1 (m w).2.
Proof. exact id. Qed.

Lemma wp_intro {A : Type} (m : M A) (Q : outcome A -> World -> Prop) w :
  Q (m w).1 (m w).2 -> wp m Q w.
Proof. exact id. Qed.

Lemma wp_ret {A : Type} (a : A) Q w : Q (Ok a) w -> wp (ret a) Q w.
Proof. exact id. Qed.

Lemma wp_emit e Q w :
  Q (Ok tt) (mkWorld (now w) (lastTs w) (jitter w) (net w) (dbs w) (db w)
                     (trace w ++ [e]) (console w)) ->
  wp (emit e) Q w.
Proof. exact id. Qed.

Lemma wp_log line Q w :
  Q (Ok tt) (mkWorld (now w) (lastTs w) (jitter w) (net w) (dbs w) (db w)
                     (trace w) (console w ++ [line])) ->
  wp (log line) Q w.
Proof. exact id. Qed.

Lemma wp_throw {A : Type} message (Q : outcome A -> World -> Prop) w :
  Q (Abort (Thrown message))
    (mkWorld (now w) (lastTs w) (jitter w) (net w) (dbs w) (db w)
             (trace w ++ [EvThrow message]) (console w)) ->
  wp (throw message) Q w.
Proof. exact id. Qed.

Lemma wp_die {A : Type} msg (Q : outcome A -> World -> Prop) w :
  Q (Abort (Exited 1))
    (mkWorld (now w) (lastTs w) (jitter w) (net w) (dbs w) (db w)
             (trace w) (console w ++ ["FATAL: " +:+ msg])) ->
  wp (die msg) Q w.
Proof. exact id. Qed.

Lemma wp_diverge {A : Type} (Q : outcome A -> World -> Prop) w :
  Q (Abort Diverged) w -> wp diverge Q w.
Proof. exact id. Qed.

Lemma wp_suspend ms Q w :
  Q (Ok tt) (mkWorld (now w + ms + Z.of_N (hd 0%N (jitter w))) (lastTs w)
                     (tl (jitter w)) (net w) (dbs w) (db w)
                     (trace w) (console w)) ->
  wp (suspend ms) Q w.
Proof. exact id. Qed.

Lemma wp_Date_now Q w : Q (Ok (now w)) w -> wp Date_now Q w.
Proof. exact id. Qed.

Lemma wp_get_lastTs Q w : Q (Ok (lastTs w)) w -> wp get_lastTs Q w.
Proof. exact id. Qed.

Lemma wp_set_lastTs t Q w :
  Q (Ok tt) (mkWorld (now w) t (jitter w) (net w) (dbs w) (db w)
                     (trace w) (console w)) ->
  wp (set_lastTs t) Q w.
Proof. exact id. Qed.

Lemma wp_next_exchange Q w :
  Q (Ok (mjoin (head (net w))))
    (mkWorld (now w) (lastTs w) (jitter w) (tl (net w)) (dbs w) (db w)
             (trace w) (console w)) ->
  wp next_exchange Q w.
Proof. exact id. Qed.

Lemma wp_next_dbreply Q w :
  Q (Ok (default (DbOk []) (head (dbs w))))
    (mkWorld (now w) (lastTs w) (jitter w) (net w) (tl (dbs w)) (db w)
             (trace w) (console w)) ->
  wp next_dbreply Q w.
Proof. exact id. Qed.

Lemma wp_get_db Q w : Q (Ok (db w)) w -> wp get_db Q w.
Proof. exact id. Qed.

Lemma wp_modify_db f Q w :
  Q (Ok tt) (mkWorld (now w) (lastTs w) (jitter w) (net w) (dbs w)
                     (f (db w)) (trace w) (console w)) ->
  wp (modify_db f) Q w.
Proof. exact id. Qed.

Opaque wp.

Ltac wp_step :=
  lazymatch goal with
  | |- wp (bind _ _) _ _ => apply wp_bind
  | |- wp (if _ then _ else _) _ _ => apply wp_if; intros ?
  | |- wp (ret _) _ _ => apply wp_ret
  | |- wp (emit _) _ _ => apply wp_emit
  | |- wp (log _) _ _ => apply wp_log
  | |- wp (throw _) _ _ => apply wp_throw
  | |- wp (die _) _ _ => apply wp_die
  | |- wp diverge _ _ => apply wp_diverge
  | |- wp (suspend _) _ _ => apply wp_suspend
  | |- wp Date_now _ _ => apply wp_Date_now
  | |- wp get_lastTs _ _ => apply wp_get_lastTs
  | |- wp (set_lastTs _) _ _ => apply wp_set_lastTs
  | |- wp next_exchange _ _ => apply wp_next_exchange
  | |- wp next_dbreply _ _ => apply wp_next_dbreply
  | |- wp get_db _ _ => apply wp_get_db
  | |- wp (modify_db _) _ _ => apply wp_modify_db
  | |- wp (sleep _) _ _ => unfold sleep
  end; cbv beta iota; cbn [now lastTs jitter net dbs db trace console].

Ltac wsimpl := cbn [now lastTs jitter net dbs db trace console] in *.

(** ** The client: effect on the world *)

Lemma get_loop_eq path sp retries fuel attempt :
  get_loop cfg path sp retries fuel attempt =
  (let attempt := attempt + 1 in
   let* res := fetch path sp in
   if (status res =? 429) && (attempt <=? retries) then
     let waitMs := MIN_REQUEST_INTERVAL_MS cfg + attempt * 1000 in
     warn_429 res waitMs attempt retries;;
     sleep waitMs;;
     _pace cfg;;
     match fuel with
     | S fuel' => get_loop cfg path sp retries fuel' attempt
     | O => diverge
     end
   else finish res path).
Proof. destruct fuel; reflexivity. Qed.

Lemma wp_warn_429 res waitMs attempt retries Q w :
  (forall lines,
      Q (Ok tt) (mkWorld (now w) (lastTs w) (jitter w) (net w) (dbs w) (db w)
                         (trace w) (console w ++ lines))) ->
  wp (warn_429 res waitMs attempt retries) Q w.
Proof.
  intros HQ. unfold warn_429.
  destruct (res_body res); repeat wp_step; rewrite <- ?app_assoc; apply HQ.
Qed.

Lemma wp_pace Q w :
  (let wait := lastTs w + MIN_REQUEST_INTERVAL_MS cfg - now w in
   if 0 <? wait then
     let t := now w + Z.max 0 (wait - timer_slack)
              + Z.of_N (hd 0%N (jitter w)) in
     Q (Ok tt) (mkWorld t t (tl (jitter w)) (net w) (dbs w) (db w)
                        (trace w ++ [EvSleep wait]) (console w))
   else
     Q (Ok tt) (mkWorld (now w) (now w) (jitter w) (net w) (dbs w) (db w)
                        (trace w) (console w))) ->
  wp (_pace cfg) Q w.
Proof.
  cbv zeta. intros HQ. unfold _pace. repeat wp_step.
  all: match goal with H : (0 <? _) = _ |- _ => rewrite H in HQ end.
  all: repeat wp_step; exact HQ.
Qed.

Lemma wp_finish res path Q w :
  (if negb (ok res) then
     Q (Abort (Thrown (http_error_message res path)))
       (mkWorld (now w) (lastTs w) (jitter w) (net w) (dbs w) (db w)
                (trace w ++ [EvThrow (http_error_message res path)])
                (console w))
   else if truthy (p_status (parse_body (res_body res)))
           && negb (strict_eq (p_status (parse_body (res_body res)))
                              (JStr "success"))
   then
     Q (Abort (Thrown (api_error_message (parse_body (res_body res)) path)))
       (mkWorld (now w) (lastTs w) (jitter w) (net w) (dbs w) (db w)
                (trace w ++ [EvThrow (api_error_message
                                        (parse_body (res_body res)) path)])
                (console w))
   else Q (Ok (parse_body (res_body res))) w) ->
  wp (finish res path) Q w.
Proof.
  intros HQ. unfold finish. cbv zeta.
  destruct (negb (ok res)); [repeat wp_step; exact HQ|].
  destruct (truthy _ && negb _); repeat wp_step; exact HQ.
Qed.

Lemma get_ends_app path sp r pre evs :
  Forall quiet pre -> get_ends path sp r evs -> get_ends path sp r (pre ++ evs).
Proof.
  intros Hpre. destruct r as [data|[m|c|]]; simpl; [| | |done].
  - intros (evs0 & t & res & -> & -> & Hq).
    exists (pre ++ evs0), t, res. rewrite app_assoc.
    split_and!; [done..|]. by apply Forall_app.
  - intros (evs0 & -> & Hq & t & ex & Hin). exists (pre ++ evs0).
    rewrite app_assoc. split_and!; [done|by apply Forall_app|].
    exists t, ex. apply elem_of_app. by right.
  - intros Hq. by apply Forall_app.
Qed.

Lemma head_tail_length {A : Type} (l : list (option A)) x :
  mjoin (head l) = Some x -> (length (tail l) < length l)%nat.
Proof. destruct l; simpl; [done|lia]. Qed.

Lemma get_loop_effect path sp retries fuel : forall attempt w,
  retries - attempt <= Z.of_nat fuel ->
  wp (get_loop cfg path sp retries fuel attempt)
     (fun r w' => (forall c, r <> Abort (Exited c)) /\
                  client_effect path sp w r w') w.
Proof.
  induction fuel as [|fuel IH]; intros attempt w Hfuel;
    rewrite get_loop_eq; cbv zeta.
  all: unfold fetch; repeat wp_step.
  all: destruct (mjoin (head (net w))) as [res|] eqn:Hex; repeat wp_step.
  all: try match goal with
           | H : _ && (_ <=? _) = true |- _ =>
               apply andb_true_iff in H as [_ Hle]; apply Z.leb_le in Hle
           end.
  all: try (apply wp_warn_429; intros lines; repeat wp_step; apply wp_pace;
            wsimpl;
            match goal with |- if ?c then _ else _ => destruct c end;
            first
              [ apply wp_diverge; simpl in Hfuel; lia
              | eapply wp_mono; [apply IH; lia|];
                intros r w'
                       [Hne (evs & lines' & Ht & Hc & Hd & Hs & Hend & Hnet)];
                wsimpl; split; [done|];
                repeat rewrite <- app_assoc in Ht; simpl in Ht ]).
  all: try (apply wp_finish;
            destruct (negb (ok res));
            [|destruct (truthy _ && negb _)]; wsimpl; (split; [done|])).
  all: try (split; [done|]).
  all: try match type of Ht with
           | _ = trace _ ++ ?l => exists l, (lines ++ lines')
           end.
  all: try match goal with
           | |- client_effect _ _ _ _ {| trace := (trace _ ++ ?l) ++ ?l' |} =>
               exists (l ++ l'), []
           | |- client_effect _ _ _ _ {| trace := trace _ ++ ?l |} =>
               exists l, []
           end.
  all: wsimpl; rewrite <- ?app_assoc, ?app_nil_r.
  all: split_and!; try done; try congruence.
  all: try (rewrite Hc; by rewrite app_assoc).
  all: try match goal with
           | |- get_ends _ _ (Ok _) _ =>
               eexists [], _, _; split_and!; [reflexivity..|constructor]
           | |- get_ends _ _ (Abort (Thrown _)) _ =>
               eexists [_]; split_and!;
               [reflexivity|repeat constructor|
                 eexists _, _; apply list_elem_of_singleton; reflexivity]
           | |- get_ends _ _ _ (?a :: ?b :: ?c :: ?l) =>
               apply (get_ends_app _ _ _ [a; b; c]); [repeat constructor|done]
           | |- get_ends _ _ _ (?a :: ?b :: ?l) =>
               apply (get_ends_app _ _ _ [a; b]); [repeat constructor|done]
           end.
  all: intros data Hr; pose proof (head_tail_length _ _ Hex) as Hlen.
  all: try match goal with
           | Hn : forall d, _ = Ok d -> _ |- _ =>
               specialize (Hn _ Hr); wsimpl
           end; lia.
Qed.

Lemma get_effect path params retries w :
  wp (get cfg path params retries)
     (fun r w' =>
        (API_KEY cfg <> EmptyString -> forall c, r <> Abort (Exited c)) /\
        client_effect path (search_params params) w r w') w.
Proof.
  unfold get. repeat wp_step.
  - split; [intros Hkey; by apply String.eqb_eq in H|].
    exists [], ["FATAL: No TWITTERAPI_IO_KEY"]. wsimpl.
    rewrite app_nil_r. split_and!; try done. constructor.
  - apply wp_pace. cbv zeta.
    match goal with |- if ?c then _ else _ => destruct c end.
    all: (eapply wp_mono; [apply get_loop_effect; lia|]).
    all: intros r w' [Hne (evs & lines & Ht & Hc & Hd & Hs & Hend & Hnet)].
    all: wsimpl; split; [done|].
    + exists (EvSleep (lastTs w + MIN_REQUEST_INTERVAL_MS cfg - now w) :: evs),
             lines.
      rewrite <- app_assoc in Ht. split_and!; try done.
      eapply (get_ends_app _ _ _ [_]); [repeat constructor|done].
    + by exists evs, lines.
Qed.

(** ** Statements *)

Lemma wp_q qr Q w :
  match default (DbOk []) (head (dbs w)) with
  | DbOk rows =>
      Q (Ok rows)
        (mkWorld (now w + 0 + Z.of_N (hd 0%N (jitter w))) (lastTs w)
                 (tl (jitter w)) (net w) (tl (dbs w))
                 (apply_query qr (db w))
                 (trace w ++ [EvQuery qr (DbOk rows)]) (console w))
  | DbFail message =>
      Q (Abort (Thrown message))
        (mkWorld (now w + 0 + Z.of_N (hd 0%N (jitter w))) (lastTs w)
                 (tl (jitter w)) (net w) (tl (dbs w)) (db w)
                 (trace w ++ [EvQuery qr (DbFail message); EvThrow message])
                 (console w))
  end ->
  wp (q qr) Q w.
Proof.
  intros HQ. unfold q. repeat wp_step.
  destruct (default _ _); repeat wp_step; [done|].
  by rewrite <- app_assoc.
Qed.

Lemma db_up_head w :
  db_up w -> exists rows, default (DbOk []) (head (dbs w)) = DbOk rows.
Proof.
  unfold db_up. destruct (dbs w) as [|[rows|m] l]; simpl; eauto.
  intros H. by apply Forall_cons in H as [? _].
Qed.

Lemma db_up_tail w : db_up w -> Forall (fun r => reply_ok r = true) (tl (dbs w)).
Proof.
  unfold db_up. destruct (dbs w); simpl; [done|].
  intros H. by apply Forall_cons in H as [_ ?].
Qed.

(** C7: a post upsert that meets an existing row of its key leaves in
    every column the incoming value when it is not null and the prior
    value when it is; a null author handle never replaces a stored one. *)
Theorem upsertCommunityTweet_coalesces communityId tw old rows w :
  community_tweets (db w) !! (communityId, tweet_id tw) = Some old ->
  default (DbOk []) (head (dbs w)) = DbOk rows ->
  exists stored,
    (upsertCommunityTweet communityId tw w).1 = Ok tt /\
    community_tweets (db (upsertCommunityTweet communityId tw w).2)
      !! (communityId, tweet_id tw) = Some stored /\
    created_at_col stored =
      match created_at tw with
      | Some v => Some v | None => created_at_col old end /\
    author_user_id_col stored =
      match pg_param (author_user_id tw) with
      | Some v => Some v | None => author_user_id_col old end /\
    author_username_col stored =
      match pg_param (author_username tw) with
      | Some v => Some v | None => author_username_col old end /\
    url_col stored =
      match pg_param (url tw) with
      | Some v => Some v | None => url_col old end /\
    text_col stored =
      match pg_param (text tw) with
      | Some v => Some v | None => text_col old end /\
    (pg_param (author_username tw) = None ->
     author_username_col stored = author_username_col old).
Proof.
  intros Hold Hreply.
  set (new := tweet_params tw).
  set (stored :=
         {| created_at_col := COALESCE (created_at_col new) (created_at_col old);
            author_user_id_col :=
              COALESCE (author_user_id_col new) (author_user_id_col old);
            author_username_col :=
              COALESCE (author_username_col new) (author_username_col old);
            url_col := COALESCE (url_col new) (url_col old);
            text_col := COALESCE (text_col new) (text_col old) |}).
  assert (wp (upsertCommunityTweet communityId tw)
             (fun r w' =>
                r = Ok tt /\
                community_tweets (db w') !! (communityId, tweet_id tw)
                = Some stored) w) as Hwp.
  { unfold upsertCommunityTweet. wp_step. apply wp_q. rewrite Hreply.
    wp_step. split; [done|]. cbn [db apply_query community_tweets].
    rewrite Hold. by rewrite lookup_insert_eq. }
  apply wp_elim in Hwp as [Hr Hrow].
  exists stored. split_and!; try done.
  cbn. by intros ->.
Qed.

(** C8: a user payload whose identifier or handle is missing is
    dropped: no statement is sent, nothing is raised, the world is as
    before. *)
Theorem upsertUser_drops_incomplete u w :
  truthy (u_id u) = false \/ truthy (u_userName u) = false ->
  upsertUser u w = (Ok tt, w).
Proof.
  intros H. unfold upsertUser. cbv zeta.
  destruct (truthy (u_id u)) eqn:Hid; [|reflexivity].
  destruct H as [H|H]; [done|].
  unfold js_or. rewrite H. simpl. by rewrite orb_true_r.
Qed.

(** ** Page scans *)

Lemma upsert_events_scan communityId tws evs :
  Forall2 (upsert_event communityId) tws evs -> Forall scan_event evs.
Proof.
  induction 1 as [|tw e tws evs [rows ->] _ IH]; constructor; done.
Qed.

Lemma wp_upsertCommunityTweet communityId tw Q w :
  match default (DbOk []) (head (dbs w)) with
  | DbOk rows =>
      Q (Ok tt)
        (mkWorld (now w + 0 + Z.of_N (hd 0%N (jitter w))) (lastTs w)
                 (tl (jitter w)) (net w) (tl (dbs w))
                 (apply_query (QUpsertCommunityTweet communityId (tweet_id tw)
                                                     (tweet_params tw)) (db w))
                 (trace w ++ [EvQuery (QUpsertCommunityTweet
                                         communityId (tweet_id tw)
                                         (tweet_params tw)) (DbOk rows)])
                 (console w))
  | DbFail message =>
      Q (Abort (Thrown message))
        (mkWorld (now w + 0 + Z.of_N (hd 0%N (jitter w))) (lastTs w)
                 (tl (jitter w)) (net w) (tl (dbs w)) (db w)
                 (trace w ++ [EvQuery (QUpsertCommunityTweet
                                         communityId (tweet_id tw)
                                         (tweet_params tw)) (DbFail message);
                              EvThrow message])
                 (console w))
  end ->
  wp (upsertCommunityTweet communityId tw) Q w.
Proof.
  intros HQ. unfold upsertCommunityTweet. wp_step. apply wp_q.
  destruct (default _ _); [by wp_step|done].
Qed.

Lemma backfill_scan_effect communityId cutoffTs tweets : forall a b w,
  wp (backfill_scan communityId cutoffTs tweets a b)
     (fun r w' =>
        exists evs,
          trace w' = trace w ++ evs /\ scan_frame w w' /\
          (db_up w -> exists v, r = Ok v) /\
          backfill_scan_ends communityId cutoffTs tweets a b r evs) w.
Proof.
  induction tweets as [|t tweets IH]; intros a b w; simpl backfill_scan.
  - wp_step. exists []. rewrite app_nil_r. split_and!; try done.
    + eauto.
    + exists []. simpl. split_and!; try done; try lia.
  - destruct (reaches_cutoff cutoffTs (normalizeTweet t)) eqn:Hcut.
    + wp_step. exists []. rewrite app_nil_r. split_and!; try done.
      * eauto.
      * exists []. simpl. split_and!; try done; try lia.
        by exists (normalizeTweet t), (map normalizeTweet tweets).
    + wp_step. apply wp_upsertCommunityTweet.
      destruct (default (DbOk []) (head (dbs w))) as [rows|message] eqn:Hreply.
      * eapply wp_mono; [apply IH|]. intros r w' (evs & Ht & Hf & Hok & Hend).
        wsimpl. rewrite <- app_assoc in Ht. eexists. split; [exact Ht|].
        split_and!.
        -- destruct Hf as (Hn & Hl & Hc & Hi & Hu). unfold db_up in *.
           wsimpl. split_and!; try done.
           intros Hup. apply Hu. by apply db_up_tail.
        -- intros Hup. apply Hok. by apply db_up_tail.
        -- destruct r as [[[a' b'] reached]|[m|c|]]; simpl in *; try done.
           ++ destruct Hend as (kept & Hevs & Hkept & -> & -> & Hr).
              exists (normalizeTweet t :: kept). split_and!.
              ** constructor; [by exists rows|done].
              ** by constructor.
              ** simpl length. lia.
              ** simpl length. lia.
              ** destruct reached.
                 --- destruct Hr as (tw & rest & -> & ?). by exists tw, rest.
                 --- by rewrite Hr.
           ++ destruct Hend as (evs0 & -> & Hall).
              eexists (_ :: evs0). split; [done|]. by constructor.
      * eexists. split; [done|]. split_and!; try done.
        -- split_and!; try done. apply db_up_tail.
        -- intros Hup. apply db_up_head in Hup as [rows Hrows]. congruence.
        -- simpl. eexists [_]. split; [done|]. by repeat constructor.
Qed.

Lemma q_answered qr w :
  db_up w ->
  exists rows,
    default (DbOk []) (head (dbs w)) = DbOk rows /\
    q qr w = (Ok rows, answered qr w).
Proof.
  intros [rows Hrows]%db_up_head. exists rows. split; [done|].
  unfold q, bind, next_dbreply, emit, suspend, modify_db, ret, answered.
  simpl. rewrite Hrows. reflexivity.
Qed.

Lemma answered_db_up qr w : db_up w -> db_up (answered qr w).
Proof. apply db_up_tail. Qed.

Lemma upsertCommunityTweet_answered communityId tw w :
  db_up w ->
  upsertCommunityTweet communityId tw w =
  (Ok tt, answered (QUpsertCommunityTweet communityId (tweet_id tw)
                                          (tweet_params tw)) w) /\
  upsert_event communityId tw
    (EvQuery (QUpsertCommunityTweet communityId (tweet_id tw) (tweet_params tw))
             (default (DbOk []) (head (dbs w)))).
Proof.
  intros Hup. destruct (q_answered (QUpsertCommunityTweet communityId
    (tweet_id tw) (tweet_params tw)) w Hup) as (rows & Hrows & Hq).
  split; [|by exists rows; rewrite Hrows].
  unfold upsertCommunityTweet, bind. by rewrite Hq.
Qed.

(** While the database answers, the scan of [backfill] upserts the
    posts the cutoff does not stop, in order, and goes on with the
    rest of the page. *)
Lemma backfill_scan_prefix communityId cutoffTs pre rest : forall a b w,
  db_up w ->
  Forall (fun t => reaches_cutoff cutoffTs (normalizeTweet t) = false) pre ->
  exists w1 evs,
    backfill_scan communityId cutoffTs (pre ++ rest) a b w =
    backfill_scan communityId cutoffTs rest
                  (a + Z.of_nat (length pre)) (b + Z.of_nat (length pre)) w1 /\
    trace w1 = trace w ++ evs /\
    Forall2 (upsert_event communityId) (map normalizeTweet pre) evs /\
    scan_frame w w1 /\ db_up w1.
Proof.
  induction pre as [|t pre IH]; intros a b w Hup Hpre.
  - exists w, []. simpl. rewrite !Z.add_0_r, app_nil_r.
    by split_and!.
  - apply Forall_cons in Hpre as [Ht Hpre].
    destruct (upsertCommunityTweet_answered communityId (normalizeTweet t) w Hup)
      as [Hrun Hev].
    set (w0 := answered _ w) in Hrun.
    destruct (IH (a + 1) (b + 1) w0 (answered_db_up _ _ Hup) Hpre)
      as (w1 & evs & Heq & Htr & Hevs & Hf & Hup1).
    eexists w1, (_ :: evs). split_and!.
    + simpl. rewrite Ht. unfold bind at 1. rewrite Hrun. rewrite Heq.
      f_equal; lia.
    + rewrite Htr. subst w0. simpl. by rewrite <- app_assoc.
    + simpl. by constructor.
    + destruct Hf as (? & ? & ? & ? & ?). by split_and!.
    + done.
Qed.

(** C10: a post whose creation time does not parse never reaches the
    cutoff, whatever the cutoff is: the scan upserts it and goes on
    with the posts after it. *)
Theorem unparsed_date_bypasses_cutoff communityId cutoffTs t :
  parseCreatedAt (t_createdAt t) = None ->
  reaches_cutoff cutoffTs (normalizeTweet t) = false /\
  forall pre post a b w,
    db_up w ->
    Forall (fun x => reaches_cutoff cutoffTs (normalizeTweet x) = false) pre ->
    exists w1 evs e,
      backfill_scan communityId cutoffTs (pre ++ t :: post) a b w =
      backfill_scan communityId cutoffTs post
                    (a + Z.of_nat (length pre) + 1)
                    (b + Z.of_nat (length pre) + 1) w1 /\
      trace w1 = trace w ++ evs ++ [e] /\
      Forall2 (upsert_event communityId) (map normalizeTweet pre) evs /\
      upsert_event communityId (normalizeTweet t) e /\
      db_up w1.
Proof.
  intros Hnull.
  assert (reaches_cutoff cutoffTs (normalizeTweet t) = false) as Hno.
  { unfold reaches_cutoff. simpl. rewrite Hnull. by destruct cutoffTs. }
  split; [done|]. intros pre post a b w Hup Hpre.
  destruct (backfill_scan_prefix communityId cutoffTs pre (t :: post) a b w
              Hup Hpre) as (w0 & evs & Heq & Htr & Hevs & _ & Hup0).
  destruct (upsertCommunityTweet_answered communityId (normalizeTweet t) w0 Hup0)
    as [Hrun Hev].
  eexists _, evs, _. split_and!; [ | | exact Hevs | exact Hev | ].
  - rewrite Heq. simpl. rewrite Hno. unfold bind at 1. rewrite Hrun.
    reflexivity.
  - simpl. rewrite Htr. by rewrite <- app_assoc.
  - by apply answered_db_up.
Qed.

(** ** backfill: the statement that writes the cursor *)

Lemma setBackfillCursor_answered communityId cursor w :
  db_up w ->
  setBackfillCursor communityId cursor w =
  (Ok tt, answered (QSetBackfillCursor communityId (pg_param cursor)) w) /\
  reply_ok (default (DbOk []) (head (dbs w))) = true.
Proof.
  intros Hup.
  destruct (q_answered (QSetBackfillCursor communityId (pg_param cursor)) w Hup)
    as (rows & Hrows & Hq).
  split; [|by rewrite Hrows].
  unfold setBackfillCursor, bind. by rewrite Hq.
Qed.

(** ** backfill: the cursor is written after the page *)

Lemma cursor_write_unique l1 x l2 : forall pre y post,
  no_cursor_write l1 -> no_cursor_write l2 -> is_cursor_write y = true ->
  l1 ++ x :: l2 = pre ++ y :: post ->
  pre = l1 /\ y = x /\ post = l2.
Proof.
  induction l1 as [|a l1 IH]; intros pre y post H1 H2 Hy Heq.
  - destruct pre as [|p pre]; simpl in Heq.
    + by injection Heq as -> ->.
    + injection Heq as -> ->. exfalso.
      apply Forall_app in H2 as [_ H2]. apply Forall_cons in H2 as [H2 _].
      congruence.
  - apply Forall_cons in H1 as [Ha H1].
    destruct pre as [|p pre]; simpl in Heq.
    + injection Heq as -> _. congruence.
    + injection Heq as -> Heq.
      destruct (IH pre y post H1 H2 Hy Heq) as (-> & -> & ->). done.
Qed.

Lemma no_cursor_write_follows communityId cutoffTs evs :
  no_cursor_write evs -> cursor_follows_scan communityId cutoffTs evs.
Proof.
  intros Hno pre c reply post ->. exfalso.
  apply Forall_app in Hno as [_ Hno]. apply Forall_cons in Hno as [Hno _].
  done.
Qed.

Lemma cursor_follows_app communityId cutoffTs l1 l2 :
  cursor_follows_scan communityId cutoffTs l1 ->
  cursor_follows_scan communityId cutoffTs l2 ->
  cursor_follows_scan communityId cutoffTs (l1 ++ l2).
Proof.
  intros H1 H2 pre c reply post Heq.
  apply app_eq_inv in Heq as [(k & -> & Hk)|(k & -> & ->)].
  - destruct k as [|e k]; simpl in Hk.
    + destruct (H2 [] c reply post (eq_sym Hk))
        as (pre0 & t & sp & res & ups & kept & Hpre & _).
      by destruct pre0.
    + injection Hk as <- ->.
      apply (H1 pre c reply k). done.
  - destruct (H2 k c reply post eq_refl)
      as (pre0 & t & sp & res & ups & kept & -> & Hrest).
    exists (l1 ++ pre0), t, sp, res, ups, kept.
    by rewrite <- app_assoc.
Qed.

Lemma quiet_no_cursor_write evs : Forall quiet evs -> no_cursor_write evs.
Proof. intros H. eapply Forall_impl; [exact H|]. by intros []. Qed.

Lemma scan_no_cursor_write evs : Forall scan_event evs -> no_cursor_write evs.
Proof. intros H. eapply Forall_impl; [exact H|]. intros [| |[]|]; done. Qed.

(** The events of one iteration that ends with a cursor write. *)
Lemma cursor_follows_block communityId cutoffTs evs0 t sp res kept ups c reply :
  Forall quiet evs0 ->
  Forall2 (upsert_event communityId) kept ups ->
  (let data := parse_body (res_body res) in
   let page := map normalizeTweet (tweets_of data) in
   (kept = page /\
    c = if no_next_page data then None else pg_param (p_next_cursor data))
   \/ (c = None /\
       Forall (fun tw => reaches_cutoff cutoffTs tw = false) kept /\
       exists tw rest,
         page = kept ++ tw :: rest /\ reaches_cutoff cutoffTs tw = true)) ->
  cursor_follows_scan communityId cutoffTs
    ((evs0 ++ [EvFetch t "/twitter/community/tweets" sp (Some res)]) ++ ups ++
     [EvQuery (QSetBackfillCursor communityId c) reply]).
Proof.
  intros Hq Hups Hcase pre c' reply' post Heq.
  rewrite app_assoc in Heq.
  apply cursor_write_unique in Heq as (-> & Hy & ->); try done.
  - injection Hy as -> ->.
    exists evs0, t, sp, res, ups, kept. rewrite <- app_assoc. done.
  - apply Forall_app. split.
    + apply Forall_app. split; [by apply quiet_no_cursor_write|].
      by repeat constructor.
    + eapply scan_no_cursor_write, upsert_events_scan. done.
  - constructor.
Qed.

Lemma cursor_follows_iteration communityId cutoffTs evs0 t sp res kept ups
      c reply rest :
  Forall quiet evs0 ->
  Forall2 (upsert_event communityId) kept ups ->
  (let data := parse_body (res_body res) in
   let page := map normalizeTweet (tweets_of data) in
   (kept = page /\
    c = if no_next_page data then None else pg_param (p_next_cursor data))
   \/ (c = None /\
       Forall (fun tw => reaches_cutoff cutoffTs tw = false) kept /\
       exists tw rest,
         page = kept ++ tw :: rest /\ reaches_cutoff cutoffTs tw = true)) ->
  cursor_follows_scan communityId cutoffTs rest ->
  cursor_follows_scan communityId cutoffTs
    (evs0 ++ [EvFetch t "/twitter/community/tweets" sp (Some res)] ++ ups ++
     EvQuery (QSetBackfillCursor communityId c) reply :: rest).
Proof.
  intros Hq Hups Hcase Hrest.
  replace (evs0 ++ [EvFetch t "/twitter/community/tweets" sp (Some res)] ++
           ups ++ EvQuery (QSetBackfillCursor communityId c) reply :: rest)
    with (((evs0 ++ [EvFetch t "/twitter/community/tweets" sp (Some res)]) ++
           ups ++ [EvQuery (QSetBackfillCursor communityId c) reply]) ++ rest).
  - apply cursor_follows_app; [|done].
    by eapply cursor_follows_block.
  - by rewrite <- !app_assoc.
Qed.

Lemma wp_setBackfillCursor communityId cursor Q w :
  (forall reply w',
      trace w' =
        trace w ++ EvQuery (QSetBackfillCursor communityId (pg_param cursor)) reply
                :: match reply with
                   | DbOk _ => []
                   | DbFail message => [EvThrow message]
                   end ->
      net w' = net w -> console w' = console w ->
      Q (match reply with
         | DbOk _ => Ok tt
         | DbFail message => Abort (Thrown message)
         end) w') ->
  wp (setBackfillCursor communityId cursor) Q w.
Proof.
  intros HQ. unfold setBackfillCursor. wp_step. apply wp_q.
  destruct (default _ _) as [rows|message] eqn:Hreply.
  - wp_step. by apply (HQ (DbOk rows)).
  - by apply (HQ (DbFail message)).
Qed.

Lemma backfill_pages_cursor communityId cutoffTs n : forall page cursor total w,
  wp (backfill_pages communityId cutoffTs n page cursor total)
     (fun _ w' =>
        exists evs,
          trace w' = trace w ++ evs /\
          cursor_follows_scan communityId cutoffTs evs) w.
Proof.
  induction n as [|n IH]; intros page cursor total w; cbn [backfill_pages].
  { wp_step. exists []. rewrite app_nil_r. split; [done|].
    apply no_cursor_write_follows. constructor. }
  wp_step. unfold getCommunityTweets.
  eapply wp_mono; [apply get_effect|].
  intros r w1 (_ & evsA & linesA & HtA & _ & _ & _ & HendA & _).
  destruct r as [data|e].
  2: { exists evsA. split; [done|]. apply no_cursor_write_follows.
       destruct e as [m|c|]; simpl in HendA; [|by apply quiet_no_cursor_write|done].
       destruct HendA as (evs0 & -> & Hq & _). apply Forall_app. split.
       - by apply quiet_no_cursor_write.
       - by repeat constructor. }
  destruct HendA as (evs0 & t & res & -> & -> & Hq).
  wp_step.
  eapply wp_mono; [apply backfill_scan_effect|].
  intros r w2 (evsB & HtB & _ & _ & HendB).
  destruct r as [[[thisPage total'] reached]|e].
  2: { eexists ((evs0 ++ [_]) ++ evsB).
       split; [by rewrite HtB, HtA, <- !app_assoc|].
       apply no_cursor_write_follows.
       destruct e as [m|c|]; simpl in HendB; try done.
       destruct HendB as (? & _ & Hall). apply Forall_app. split.
       - apply Forall_app. split; [by apply quiet_no_cursor_write|].
         by repeat constructor.
       - by apply scan_no_cursor_write. }
  destruct HendB as (kept & Hups & Hkept & -> & -> & Hreached).
  repeat wp_step.
  1, 2: apply wp_setBackfillCursor; intros reply w' Htr _ _; wsimpl.
  1, 2: rewrite HtB, HtA, <- !app_assoc in Htr.
  1, 2: eexists; split; [exact Htr|].
  1, 2: apply cursor_follows_iteration with (kept := kept); try done.
  1, 3: cbv zeta; subst reached.
  - right. split_and!; done.
  - left. split; [done|].
    match goal with H : no_next_page _ = true |- _ => by rewrite H end.
  - apply no_cursor_write_follows. destruct reply; by repeat constructor.
  - apply no_cursor_write_follows. destruct reply; by repeat constructor.
  - subst reached.
    apply wp_setBackfillCursor. intros reply w0 Htr _ _. wsimpl.
    rewrite HtB, HtA, <- !app_assoc in Htr.
    assert (let data := parse_body (res_body res) in
            kept = map normalizeTweet (tweets_of data) /\
            pg_param (p_next_cursor data) =
            if no_next_page data then None else pg_param (p_next_cursor data))
      as Hcase.
    { split; [done|].
      match goal with H : no_next_page _ = false |- _ => by rewrite H end. }
    destruct reply as [rows|message].
    + eapply wp_mono; [apply IH|].
      intros _ w' (rest & Htr' & Hrest). rewrite Htr, <- !app_assoc in Htr'.
      eexists. split; [exact Htr'|].
      apply cursor_follows_iteration with (kept := kept); try done.
      by left.
    + eexists. split; [exact Htr|].
      apply cursor_follows_iteration with (kept := kept); try done.
      * by left.
      * apply no_cursor_write_follows. by repeat constructor.
Qed.

Lemma getState_effect communityId w :
  wp (getState communityId)
     (fun r w' =>
        exists evs,
          trace w' = trace w ++ evs /\ Forall prelude_event evs /\
          net w' = net w /\
          forall state, r = Ok state ->
                        state = ingest_state (db w') !! communityId) w.
Proof.
  unfold getState, ensureStateRow. repeat wp_step. apply wp_q.
  destruct (default _ _) as [rows|message].
  2: { eexists. split; [done|]. split_and!; try done. by repeat constructor. }
  repeat wp_step. apply wp_q. wsimpl.
  destruct (default _ _) as [rows'|message].
  2: { eexists. rewrite <- app_assoc. split; [done|]. split_and!; try done.
       by repeat constructor. }
  repeat wp_step. eexists. rewrite <- app_assoc. split; [done|].
  split_and!; try done; [by repeat constructor|]. by intros ? [= <-].
Qed.

Lemma prelude_no_cursor_write evs : Forall prelude_event evs -> no_cursor_write evs.
Proof. intros H. eapply Forall_impl; [exact H|]. intros [| |[]|]; done. Qed.

Lemma wp_state_field f state Q w :
  (forall v, Q (Ok v) w) ->
  (forall message,
      Q (Abort (Thrown message))
        (mkWorld (now w) (lastTs w) (jitter w) (net w) (dbs w) (db w)
                 (trace w ++ [EvThrow message]) (console w))) ->
  wp (state_field f state) Q w.
Proof.
  intros H1 H2. unfold state_field. destruct state; wp_step; auto.
Qed.

Lemma cursor_follows_scan_page communityId evs :
  cursor_follows_scan communityId None evs ->
  cursor_follows_page communityId evs.
Proof.
  intros H pre c reply post Heq.
  destruct (H pre c reply post Heq)
    as (pre0 & t & sp & res & ups & kept & -> & Hups & Hcase).
  exists pre0, t, sp, res, ups. split; [done|].
  destruct Hcase as [[<- _]|(_ & _ & tw & rest & _ & Hcut)]; [done|].
  by destruct (created_at tw).
Qed.

(** C1 (amended): in a run of [backfill], whatever the API and the
    database answer, every write of the cursor comes after the request
    of a page and the upserts of its posts, in order and all
    successful: every post of the page, or, when a post older than the
    cutoff stopped the scan, the posts before it, and then the cursor
    written is null.  The cutoff is the one the driver computes at some
    time [t] of the run; without a cutoff every write follows the
    upserts of the whole page. *)
Theorem backfill_cursor_follows_scan w :
  exists evs t,
    let cutoffTs :=
      if 0 <? BACKFILL_CUTOFF_DAYS cfg
      then Some (t - BACKFILL_CUTOFF_DAYS cfg * 24 * 3600 * 1000)
      else None in
    trace (backfill w).2 = trace w ++ evs /\
    cursor_follows_scan (COMMUNITY_ID cfg) cutoffTs evs /\
    (BACKFILL_CUTOFF_DAYS cfg <= 0 ->
     cursor_follows_page (COMMUNITY_ID cfg) evs).
Proof.
  set (cutoff_at := fun t =>
         if 0 <? BACKFILL_CUTOFF_DAYS cfg
         then Some (t - BACKFILL_CUTOFF_DAYS cfg * 24 * 3600 * 1000)
         else None).
  apply (wp_elim backfill
    (fun _ w' =>
       exists evs t,
         trace w' = trace w ++ evs /\
         cursor_follows_scan (COMMUNITY_ID cfg) (cutoff_at t) evs /\
         (BACKFILL_CUTOFF_DAYS cfg <= 0 ->
          cursor_follows_page (COMMUNITY_ID cfg) evs))).
  assert (forall evs,
             no_cursor_write evs ->
             cursor_follows_scan (COMMUNITY_ID cfg) (cutoff_at 0) evs /\
             (BACKFILL_CUTOFF_DAYS cfg <= 0 ->
              cursor_follows_page (COMMUNITY_ID cfg) evs))
    as Hnone.
  { intros evs Hno. split; [by apply no_cursor_write_follows|].
    intros _. by apply cursor_follows_scan_page, no_cursor_write_follows. }
  unfold backfill. cbv zeta. repeat wp_step.
  { exists [], 0. rewrite app_nil_r. split; [done|].
    apply Hnone. constructor. }
  eapply wp_mono; [apply getState_effect|].
  intros r w1 (evs1 & Ht1 & Hpre & _ & _).
  apply prelude_no_cursor_write in Hpre.
  destruct r as [state|e].
  2: { exists evs1, 0. split; [done|]. by apply Hnone. }
  wp_step. apply wp_state_field.
  2: { intros message. exists (evs1 ++ [EvThrow message]), 0. wsimpl.
       rewrite Ht1, <- app_assoc. split; [done|].
       apply Hnone, Forall_app. split; [done|]. by repeat constructor. }
  intros stored. repeat wp_step.
  fold (cutoff_at (now w1)).
  eapply wp_mono; [apply backfill_pages_cursor|].
  intros _ w2 (evs2 & Ht2 & Hfollows).
  exists (evs1 ++ evs2), (now w1).
  assert (cursor_follows_scan (COMMUNITY_ID cfg) (cutoff_at (now w1))
                              (evs1 ++ evs2)) as HF.
  { apply cursor_follows_app; [by apply no_cursor_write_follows|done]. }
  split_and!; try done.
  - by rewrite Ht2, Ht1, <- app_assoc.
  - intros Hdays. apply cursor_follows_scan_page.
    replace (cutoff_at (now w1)) with (@None Z) in HF; [done|].
    unfold cutoff_at.
    destruct (0 <? BACKFILL_CUTOFF_DAYS cfg) eqn:Hlt; [|done].
    apply Z.ltb_lt in Hlt. lia.
Qed.

(** ** ingest-new *)

Lemma pretty_N_go_nonempty x : forall s,
  s <> EmptyString -> pretty_N_go x s <> EmptyString.
Proof.
  induction (N.lt_wf_0 x) as [x _ IH]; intros s Hs.
  assert (x = 0 \/ 0 < x)%N as [->|Hpos] by lia.
  - by rewrite pretty_N_go_0.
  - rewrite pretty_N_go_step by done. apply IH; [by apply N.div_lt|done].
Qed.

Lemma pretty_Z_nonempty (n : Z) : pretty n <> EmptyString.
Proof.
  assert (forall x : N, pretty x <> EmptyString) as HN.
  { intros x. unfold pretty, pretty_N. case_decide; [done|].
    rewrite pretty_N_go_step by lia. by apply pretty_N_go_nonempty. }
  destruct n as [|p|p]; unfold pretty, pretty_Z; [done|apply HN|done].
Qed.

(** A truthy scalar has a text that is not empty. *)
Lemma truthy_ToString v : truthy v = true -> truthy (JStr (ToString v)) = true.
Proof.
  destruct v as [| |[]|n|s]; simpl; try done.
  intros _. apply negb_true_iff, String.eqb_neq, pretty_Z_nonempty.
Qed.

Lemma at_watermark_iff s t :
  s <> EmptyString ->
  at_watermark (JStr s) t = true <-> ToString (t_id t) = s.
Proof.
  intros Hs. unfold at_watermark, strict_eq. simpl.
  apply String.eqb_neq in Hs. rewrite Hs. simpl.
  rewrite bool_decide_eq_true. split; [by intros [= ->]|by intros ->].
Qed.

Lemma ingest_scan_prefix communityId stopId pre rest : forall inserted w,
  db_up w ->
  Forall (fun t => at_watermark stopId t = false) pre ->
  exists w1 evs,
    ingest_scan communityId stopId (pre ++ rest) inserted w =
    ingest_scan communityId stopId rest (inserted + Z.of_nat (length pre)) w1 /\
    trace w1 = trace w ++ evs /\
    Forall2 (upsert_event communityId) (map normalizeTweet pre) evs /\
    scan_frame w w1 /\ db_up w1.
Proof.
  induction pre as [|t pre IH]; intros inserted w Hup Hpre.
  - exists w, []. simpl. rewrite Z.add_0_r, app_nil_r. by split_and!.
  - apply Forall_cons in Hpre as [Ht Hpre]. unfold at_watermark in Ht.
    destruct (upsertCommunityTweet_answered communityId (normalizeTweet t) w Hup)
      as [Hrun Hev].
    set (w0 := answered _ w) in Hrun.
    destruct (IH (inserted + 1) w0 (answered_db_up _ _ Hup) Hpre)
      as (w1 & evs & Heq & Htr & Hevs & Hf & Hup1).
    eexists w1, (_ :: evs). split_and!.
    + cbn [app ingest_scan]. rewrite Ht. unfold bind at 1.
      rewrite Hrun. rewrite Heq. f_equal; simpl length; lia.
    + rewrite Htr. subst w0. simpl. by rewrite <- app_assoc.
    + simpl. by constructor.
    + destruct Hf as (? & ? & ? & ? & ?). by split_and!.
    + done.
Qed.

(** How the scan of [ingestNew] ends, whatever the database answers. *)
Lemma ingest_scan_effect communityId stopId tweets : forall inserted w,
  wp (ingest_scan communityId stopId tweets inserted)
     (fun r w' =>
        exists evs,
          trace w' = trace w ++ evs /\ scan_frame w w' /\
          Forall scan_event evs /\
          match r with
          | Ok _ => True
          | Abort (Thrown message) => exists evs0, evs = evs0 ++ [EvThrow message]
          | Abort _ => False
          end) w.
Proof.
  induction tweets as [|t tweets IH]; intros inserted w; cbn [ingest_scan].
  - wp_step. exists []. rewrite app_nil_r. by split_and!.
  - destruct (truthy stopId && _).
    + wp_step. exists []. rewrite app_nil_r. by split_and!.
    + wp_step. apply wp_upsertCommunityTweet.
      destruct (default (DbOk []) (head (dbs w))) as [rows|message].
      * eapply wp_mono; [apply IH|].
        intros r w' (evs & Ht & (Hn & Hl & Hc & Hi & Hu) & Hall & Hend).
        unfold db_up in *. wsimpl. rewrite <- app_assoc in Ht.
        eexists. split; [exact Ht|]. split_and!; try done.
        -- split_and!; try done. intros Hup. apply Hu. by apply db_up_tail.
        -- by constructor.
        -- destruct r as [v|[m|c|]]; try done.
           destruct Hend as [evs0 ->]. by eexists (_ :: evs0).
      * eexists. split; [done|]. split_and!; try done.
        -- split_and!; try done. apply db_up_tail.
        -- by repeat constructor.
        -- by eexists [_].
Qed.

Lemma get_ends_client path sp r evs :
  get_ends path sp r evs -> Forall client_event evs.
Proof.
  assert (forall l, Forall quiet l -> Forall client_event l) as Hq.
  { intros l H. eapply Forall_impl; [exact H|]. by intros []. }
  destruct r as [data|[m|c|]]; simpl; [| | |done].
  - intros (evs0 & t & res & -> & _ & H). apply Forall_app.
    split; [auto|by repeat constructor].
  - intros (evs0 & -> & H & _). apply Forall_app.
    split; [auto|by repeat constructor].
  - auto.
Qed.

Lemma client_no_watermark_write evs :
  Forall client_event evs -> no_watermark_write evs.
Proof. intros H. eapply Forall_impl; [exact H|]. by intros []. Qed.

Lemma scan_no_watermark_write evs :
  Forall scan_event evs -> no_watermark_write evs.
Proof. intros H. eapply Forall_impl; [exact H|]. intros [| |[]|]; done. Qed.

Lemma prelude_no_watermark_write evs :
  Forall prelude_event evs -> no_watermark_write evs.
Proof. intros H. eapply Forall_impl; [exact H|]. intros [| |[]|]; done. Qed.

(** The page loop of [ingestNew] writes no watermark, leaves the sync
    state alone, and after the first page returns the candidate it was
    given. *)
Lemma ingest_pages_effect communityId stopId n :
  forall page cursor newLastSeen inserted w,
  wp (ingest_pages communityId stopId n page cursor newLastSeen inserted)
     (fun r w' =>
        exists evs,
          trace w' = trace w ++ evs /\ no_watermark_write evs /\
          ingest_state (db w') = ingest_state (db w) /\
          (forall v, r = Ok v -> 1 < page -> v = newLastSeen)) w.
Proof.
  induction n as [|n IH]; intros page cursor newLastSeen inserted w;
    cbn [ingest_pages].
  { wp_step. exists []. rewrite app_nil_r.
    split_and!; [done|constructor|done|]. by intros ? [= <-]. }
  wp_step. unfold getCommunityTweets.
  eapply wp_mono; [apply get_effect|].
  intros r w1 (_ & evsA & linesA & HtA & _ & HdA & _ & HendA & _).
  apply get_ends_client, client_no_watermark_write in HendA.
  destruct r as [data|e]; [|by exists evsA; rewrite HdA].
  wp_step. cbv zeta.
  eapply wp_mono; [apply ingest_scan_effect|].
  intros r w2 (evsB & HtB & (_ & _ & _ & HiB & _) & HallB & HendB).
  apply scan_no_watermark_write in HallB.
  assert (no_watermark_write (evsA ++ evsB)) as HAB by by apply Forall_app.
  assert (trace w2 = trace w ++ evsA ++ evsB) as HtAB
      by by rewrite HtB, HtA, <- app_assoc.
  destruct r as [[inserted' stopped]|e];
    [|exists (evsA ++ evsB); by rewrite HiB, HdA].
  repeat wp_step.
  1, 2: exists (evsA ++ evsB); rewrite HiB, HdA; split_and!; try done.
  1, 2: intros v [= <-] Hpage;
    assert ((page =? 1) = false) as -> by (apply Z.eqb_neq; lia); done.
  eapply wp_mono; [apply IH|].
  intros r w3 (evsC & HtC & HallC & HiC & Hret). wsimpl.
  exists ((evsA ++ evsB) ++ evsC). split_and!.
  - by rewrite HtC, HtAB, <- !app_assoc.
  - by apply Forall_app.
  - by rewrite HiC, HiB, HdA.
  - intros v Hv Hpage. rewrite (Hret v Hv) by lia.
    assert ((page =? 1) = false) as -> by (apply Z.eqb_neq; lia). done.
Qed.

(** C2: in a run of [ingestNew] that comes to its end, the identifier
    of the first item of the first page, when it has one, is stored as
    the new watermark by the last statement of the run, however the
    page loop ended; when the first page has no such identifier no
    watermark is written and the stored one stays as it was. *)
Theorem ingestNew_persists_head w state w0 data w1 w' :
  COMMUNITY_ID cfg <> EmptyString ->
  1 <= TOP_PAGES cfg ->
  getState (COMMUNITY_ID cfg) w = (Ok state, w0) ->
  getCommunityTweets cfg (COMMUNITY_ID cfg) JNull w0 = (Ok data, w1) ->
  ingestNew w = (Ok tt, w') ->
  let head := first_id (tweets_of data) in
  if truthy head then
    (exists evs rows,
        trace w' =
        trace w ++ evs ++
        [EvQuery (QSetLastSeenTweetId (COMMUNITY_ID cfg) (Some (ToString head)))
                 (DbOk rows)] /\
        no_watermark_write evs) /\
    last_seen_tweet_id <$> ingest_state (db w') !! COMMUNITY_ID cfg =
    Some (Some (ToString head))
  else
    (exists evs, trace w' = trace w ++ evs /\ no_watermark_write evs) /\
    ingest_state (db w') = ingest_state (db w0).
Proof.
  intros Hcid Hpages HgetState Hget Hrun head.
  assert (wp ingestNew
            (fun r w' =>
               r = Ok tt ->
               if truthy head then
                 (exists evs rows,
                     trace w' =
                     trace w ++ evs ++
                     [EvQuery (QSetLastSeenTweetId (COMMUNITY_ID cfg)
                                                   (Some (ToString head)))
                              (DbOk rows)] /\
                     no_watermark_write evs) /\
                 last_seen_tweet_id <$> ingest_state (db w') !! COMMUNITY_ID cfg =
                 Some (Some (ToString head))
               else
                 (exists evs, trace w' = trace w ++ evs /\
                              no_watermark_write evs) /\
                 ingest_state (db w') = ingest_state (db w0)) w) as Hwp.
  2: { apply wp_elim in Hwp. rewrite Hrun in Hwp. by apply Hwp. }
  pose proof (getState_effect (COMMUNITY_ID cfg) w) as Hst.
  apply wp_elim in Hst. rewrite HgetState in Hst. cbn [fst snd] in Hst.
  destruct Hst as (evs0 & Ht0 & Hall0 & _ & Hstate).
  apply prelude_no_watermark_write in Hall0.
  specialize (Hstate _ eq_refl).
  unfold ingestNew. cbv zeta. repeat wp_step.
  { by apply String.eqb_eq in H. }
  eapply wp_run; [exact HgetState|]. cbv beta iota. wp_step.
  destruct state as [row|]; unfold state_field; [|by wp_step].
  repeat wp_step.
  destruct (Z.to_nat (TOP_PAGES cfg)) as [|n] eqn:Hn; [lia|].
  cbn [ingest_pages]. wp_step.
  eapply wp_run; [exact Hget|]. cbv beta iota zeta.
  pose proof (get_effect "/twitter/community/tweets"
                [("community_id", JStr (COMMUNITY_ID cfg)); ("cursor", JNull)]
                6 w0) as Hg.
  apply wp_elim in Hg. unfold getCommunityTweets in Hget. rewrite Hget in Hg.
  cbn [fst snd] in Hg.
  destruct Hg as (_ & evsA & _ & HtA & _ & HdA & _ & HendA & _).
  apply get_ends_client, client_no_watermark_write in HendA.
  wp_step.
  eapply wp_mono; [apply ingest_scan_effect|].
  intros r w2 (evsB & HtB & (_ & _ & _ & HiB & _) & HallB & _).
  apply scan_no_watermark_write in HallB.
  assert (trace w2 = trace w ++ evs0 ++ evsA ++ evsB) as Ht2
      by by rewrite HtB, HtA, Ht0, <- !app_assoc.
  assert (no_watermark_write (evs0 ++ evsA ++ evsB)) as Hall2
      by by repeat (apply Forall_app; split).
  assert (ingest_state (db w2) = ingest_state (db w0)) as Hi2
      by by rewrite HiB, HdA.
  clear HtB HtA Ht0 HiB HdA.
  destruct r as [[inserted stopped]|e]; [|done].
  fold head. change (1 =? 1) with true. cbn [andb].
  set (newLastSeen := if truthy head then JStr (ToString head) else JNull).
  assert (forall w3 evsC,
             trace w3 = trace w2 ++ evsC -> no_watermark_write evsC ->
             ingest_state (db w3) = ingest_state (db w2) ->
             wp (if truthy newLastSeen
                 then setLastSeenTweetId (COMMUNITY_ID cfg) newLastSeen
                 else ret tt)
                (fun r w' =>
                   r = Ok tt ->
                   if truthy head then
                     (exists evs rows,
                         trace w' =
                         trace w ++ evs ++
                         [EvQuery (QSetLastSeenTweetId (COMMUNITY_ID cfg)
                                                       (Some (ToString head)))
                                  (DbOk rows)] /\
                         no_watermark_write evs) /\
                     last_seen_tweet_id
                       <$> ingest_state (db w') !! COMMUNITY_ID cfg =
                     Some (Some (ToString head))
                   else
                     (exists evs, trace w' = trace w ++ evs /\
                                  no_watermark_write evs) /\
                     ingest_state (db w') = ingest_state (db w0)) w3) as Hfin.
  { intros w3 evsC Ht3 HallC Hi3. subst newLastSeen.
    destruct (truthy head) eqn:Hhead.
    - rewrite (truthy_ToString _ Hhead).
      unfold setLastSeenTweetId. wp_step. apply wp_q.
      destruct (default _ _) as [rows|message]; [|done].
      wp_step. intros _. split.
      + exists ((evs0 ++ evsA ++ evsB) ++ evsC), rows. wsimpl.
        split; [by rewrite Ht3, Ht2, <- !app_assoc|].
        by apply Forall_app.
      + cbn [db apply_query ingest_state]. rewrite lookup_alter_eq.
        rewrite Hi3, Hi2, <- Hstate. done.
    - simpl. wp_step. intros _. split.
      + exists ((evs0 ++ evsA ++ evsB) ++ evsC).
        split; [by rewrite Ht3, Ht2, <- !app_assoc|]. by apply Forall_app.
      + by rewrite Hi3, Hi2. }
  repeat lazymatch goal with
         | |- wp (if truthy newLastSeen then _ else _) _ _ => fail
         | |- wp (ingest_pages _ _ _ _ _ _ _) _ _ => fail
         | _ => wp_step
         end.
  1, 2: apply (Hfin _ []); wsimpl; [by rewrite app_nil_r|constructor|done].
  eapply wp_mono; [apply ingest_pages_effect|].
  intros r w3 (evsC & Ht3 & HallC & Hi3 & Hret). wsimpl.
  destruct r as [v|e]; [|done].
  rewrite (Hret v eq_refl) by lia.
  by apply (Hfin _ evsC).
Qed.

(** ** Failures: what unwinds a run *)

Lemma propagates_unwinds {A : Type} (m : M A) : propagates m -> unwinds m.
Proof.
  intros Hm w evs message Htr Hin.
  specialize (Hm w). apply wp_elim in Hm as (evs' & Htr' & Hlast).
  rewrite Htr' in Htr. apply app_inv_head in Htr as ->.
  assert (forall l, calm l -> EvThrow message ∈ l -> False) as Hcalm.
  { intros l Hl Hm. eapply Forall_forall in Hl; [|exact Hm]. done. }
  destruct (m w).1 as [a|[m'|c|]]; simpl in Hlast;
    try (exfalso; by eapply Hcalm).
  destruct Hlast as (evs0 & -> & Hcalm0).
  apply elem_of_app in Hin as [Hin|Hin]; [exfalso; by eapply Hcalm|].
  apply list_elem_of_singleton in Hin. by injection Hin as ->.
Qed.

Lemma propagates_ret {A : Type} (a : A) : propagates (ret a).
Proof. intros w. wp_step. exists []. rewrite app_nil_r. split; [done|constructor]. Qed.

Lemma propagates_bind {A B : Type} (m : M A) (k : A -> M B) :
  propagates m -> (forall a, propagates (k a)) -> propagates (bind m k).
Proof.
  intros Hm Hk w. wp_step. eapply wp_mono; [apply Hm|].
  intros [a|e] w1 (evs1 & Ht1 & Hl1); simpl in Hl1.
  - eapply wp_mono; [apply Hk|]. intros r w2 (evs2 & Ht2 & Hl2).
    exists (evs1 ++ evs2). split; [by rewrite Ht2, Ht1, <- app_assoc|].
    destruct r as [b|[m'|c|]]; simpl in *; try by apply Forall_app.
    destruct Hl2 as (evs0 & -> & Hc). exists (evs1 ++ evs0).
    split; [by rewrite app_assoc|by apply Forall_app].
  - by exists evs1.
Qed.

Lemma propagates_if {A : Type} (b : bool) (m1 m2 : M A) :
  propagates m1 -> propagates m2 -> propagates (if b then m1 else m2).
Proof. by destruct b. Qed.

Lemma propagates_log line : propagates (log line).
Proof. intros w. wp_step. exists []. rewrite app_nil_r. split; [done|constructor]. Qed.

Lemma propagates_die {A : Type} msg : propagates (@die A msg).
Proof. intros w. wp_step. exists []. rewrite app_nil_r. split; [done|constructor]. Qed.

Lemma propagates_diverge {A : Type} : propagates (@diverge A).
Proof. intros w. wp_step. exists []. rewrite app_nil_r. split; [done|constructor]. Qed.

Lemma propagates_Date_now : propagates Date_now.
Proof. intros w. wp_step. exists []. rewrite app_nil_r. split; [done|constructor]. Qed.

Lemma propagates_get_db : propagates get_db.
Proof. intros w. wp_step. exists []. rewrite app_nil_r. split; [done|constructor]. Qed.

Lemma propagates_throw {A : Type} message : propagates (@throw A message).
Proof.
  intros w. wp_step. exists [EvThrow message]. split; [done|].
  exists []. split; [done|constructor].
Qed.

Lemma propagates_q qr : propagates (q qr).
Proof.
  intros w. apply wp_q. destruct (default _ _) as [rows|message].
  - eexists. split; [done|]. by repeat constructor.
  - eexists. split; [done|]. eexists [_]. split; [done|]. by repeat constructor.
Qed.

Lemma propagates_get path params retries :
  propagates (get cfg path params retries).
Proof.
  intros w. eapply wp_mono; [apply get_effect|].
  intros r w' (_ & evs & _ & Ht & _ & _ & _ & Hend & _). exists evs.
  split; [done|].
  assert (forall l, Forall quiet l -> calm l) as Hq.
  { intros l H. eapply Forall_impl; [exact H|]. by intros []. }
  destruct r as [data|[m|c|]]; cbn [get_ends raises_last] in *.
  - destruct Hend as (evs0 & t & res & -> & _ & H). apply Forall_app.
    split; [by apply Hq|by repeat constructor].
  - destruct Hend as (evs0 & -> & H & _). exists evs0. split; [done|by apply Hq].
  - by apply Hq.
  - done.
Qed.

Lemma propagates_for_of {A : Type} (xs : list A) (body : A -> M unit) :
  (forall x, propagates (body x)) -> propagates (for_of xs body).
Proof.
  intros Hbody. induction xs as [|x xs IH]; cbn [for_of].
  - apply propagates_ret.
  - apply propagates_bind; [apply Hbody|by intros _].
Qed.

Create HintDb unwind discriminated.
Hint Resolve propagates_ret propagates_log propagates_die propagates_diverge
     propagates_Date_now propagates_get_db propagates_throw propagates_q
     propagates_get propagates_for_of : unwind.
Hint Extern 1 (propagates (bind _ _)) =>
       apply propagates_bind; [|intros ?] : unwind.
Hint Extern 1 (propagates (if _ then _ else _)) =>
       apply propagates_if : unwind.
Hint Extern 2 (propagates (match ?x with _ => _ end)) =>
       destruct x : unwind.

Lemma propagates_upsertCommunityTweet communityId tw :
  propagates (upsertCommunityTweet communityId tw).
Proof. unfold upsertCommunityTweet. auto with unwind. Qed.

Lemma propagates_backfill_scan communityId cutoffTs tweets :
  forall a b, propagates (backfill_scan communityId cutoffTs tweets a b).
Proof.
  induction tweets as [|t tweets IH]; intros a b; cbn [backfill_scan];
    auto using propagates_upsertCommunityTweet with unwind.
Qed.

Lemma propagates_setBackfillCursor communityId cursor :
  propagates (setBackfillCursor communityId cursor).
Proof. unfold setBackfillCursor. auto with unwind. Qed.

Lemma propagates_getState communityId : propagates (getState communityId).
Proof. unfold getState, ensureStateRow. auto 10 with unwind. Qed.

Lemma propagates_state_field f state : propagates (state_field f state).
Proof. unfold state_field. auto with unwind. Qed.

Lemma propagates_backfill_pages communityId cutoffTs n :
  forall page cursor total,
    propagates (backfill_pages communityId cutoffTs n page cursor total).
Proof.
  induction n as [|n IH]; intros page cursor total; cbn [backfill_pages].
  - auto with unwind.
  - unfold getCommunityTweets.
    apply propagates_bind; [auto with unwind|]. intros data.
    apply propagates_bind; [apply propagates_backfill_scan|].
    intros [[thisPage total'] reached].
    auto 10 using propagates_setBackfillCursor with unwind.
Qed.

Lemma propagates_backfill : propagates backfill.
Proof.
  unfold backfill. cbv zeta.
  auto 10 using propagates_getState, propagates_state_field,
    propagates_backfill_pages with unwind.
Qed.

Lemma propagates_ingest_scan communityId stopId tweets :
  forall inserted, propagates (ingest_scan communityId stopId tweets inserted).
Proof.
  induction tweets as [|t tweets IH]; intros inserted; cbn [ingest_scan];
    auto using propagates_upsertCommunityTweet with unwind.
Qed.

Lemma propagates_ingest_pages communityId stopId n :
  forall page cursor newLastSeen inserted,
    propagates (ingest_pages communityId stopId n page cursor newLastSeen
                             inserted).
Proof.
  induction n as [|n IH]; intros page cursor newLastSeen inserted;
    cbn [ingest_pages].
  - auto with unwind.
  - unfold getCommunityTweets.
    apply propagates_bind; [auto with unwind|]. intros data. cbv zeta.
    apply propagates_bind; [apply propagates_ingest_scan|].
    intros [inserted' stopped]. auto 10 with unwind.
Qed.

Lemma propagates_ingestNew : propagates ingestNew.
Proof.
  unfold ingestNew, setLastSeenTweetId. cbv zeta.
  auto 10 using propagates_getState, propagates_state_field,
    propagates_ingest_pages with unwind.
Qed.

Lemma propagates_upsertMetrics m : propagates (upsertMetrics m).
Proof. unfold upsertMetrics. auto with unwind. Qed.

Lemma propagates_upsertUser u : propagates (upsertUser u).
Proof. unfold upsertUser. cbv zeta. auto with unwind. Qed.

Lemma propagates_refreshMetrics hours all : propagates (refreshMetrics hours all).
Proof.
  unfold refreshMetrics, getTweetsByIds. cbv zeta.
  auto 12 using propagates_upsertMetrics with unwind.
Qed.

Lemma propagates_sync_pages communityId fuel :
  forall cursor total, propagates (sync_pages communityId fuel cursor total).
Proof.
  induction fuel as [|fuel IH]; intros cursor total; cbn [sync_pages].
  - auto with unwind.
  - unfold getCommunityMembers, sync_member. cbv zeta.
    auto 12 using propagates_upsertUser with unwind.
Qed.

Lemma propagates_syncMembers : propagates syncMembers.
Proof.
  unfold syncMembers. cbv zeta.
  apply propagates_bind; [auto with unwind|]. intros _.
  apply propagates_bind; [|auto with unwind].
  intros w. apply wp_intro.
  exact (wp_elim _ _ _ (propagates_sync_pages _ _ _ _ w)).
Qed.

(** ** refresh-users *)

Lemma wp_try_catch {A : Type} (m : M A) (handler : string -> M A) Q w :
  wp m (fun r w1 =>
          match r with
          | Abort (Thrown message) => wp (handler message) Q w1
          | _ => Q r w1
          end) w ->
  wp (try_catch m handler) Q w.
Proof.
  intros H. apply wp_intro. apply wp_elim in H. unfold try_catch.
  destruct (m w) as [[a|[message|c|]] w1]; simpl in *; done.
Qed.

Lemma search_params_userName u :
  truthy u = true ->
  search_params [("userName", u)] = [("userName", ToString u)].
Proof. destruct u as [| |b|n|[|a s]]; simpl; try done. Qed.

Lemma upsertUser_effect u w :
  wp (upsertUser u)
     (fun r w' =>
        console w' = console w /\ (exists evs, trace w' = trace w ++ evs) /\
        (r = Ok tt \/ exists message, r = Abort (Thrown message))) w.
Proof.
  unfold upsertUser. cbv zeta. repeat wp_step.
  - split_and!; [done|by exists []; rewrite app_nil_r|by left].
  - apply wp_q. destruct (default _ _) as [rows|message].
    + wp_step. split_and!; [done|by eexists|by left].
    + split_and!; [done|by eexists|right; by eexists].
Qed.

Lemma wp_warn_429_lines res waitMs attempt retries Q w :
  (forall lines,
      Forall client_warning lines ->
      Q (Ok tt) (mkWorld (now w) (lastTs w) (jitter w) (net w) (dbs w) (db w)
                         (trace w) (console w ++ lines))) ->
  wp (warn_429 res waitMs attempt retries) Q w.
Proof.
  intros HQ. unfold warn_429.
  destruct (res_body res); repeat wp_step; rewrite <- ?app_assoc; apply HQ.
  all: repeat constructor.
  all: eexists; try (by left); by right.
Qed.

(** What a call of the client prints: a warning for each response 429
    it retries. *)
Lemma get_loop_console path sp retries fuel : forall attempt w,
  retries - attempt <= Z.of_nat fuel ->
  wp (get_loop cfg path sp retries fuel attempt)
     (fun _ w' =>
        exists lines,
          console w' = console w ++ lines /\ Forall client_warning lines) w.
Proof.
  induction fuel as [|fuel IH]; intros attempt w Hfuel;
    rewrite get_loop_eq; cbv zeta.
  all: unfold fetch; repeat wp_step.
  all: destruct (mjoin (head (net w))) as [res|] eqn:Hex; repeat wp_step.
  all: try (exists []; rewrite app_nil_r; split; [done|constructor]).
  all: try (apply wp_finish;
            destruct (negb (ok _)); [|destruct (truthy _ && negb _)];
            exists []; rewrite app_nil_r; (split; [done|constructor])).
  all: match goal with
       | H : _ && (_ <=? _) = true |- _ =>
           apply andb_true_iff in H as [_ Hle]; apply Z.leb_le in Hle
       end.
  { simpl in Hfuel. lia. }
  apply wp_warn_429_lines; intros lines Hlines; repeat wp_step; apply wp_pace;
    wsimpl.
  match goal with |- if ?c then _ else _ => destruct c end.
  all: (eapply wp_mono; [apply IH; lia|]).
  all: intros r w' (lines' & Hc & Hl); wsimpl.
  all: exists (lines ++ lines'); rewrite Hc, <- app_assoc.
  all: split; [done|by apply Forall_app].
Qed.

Lemma get_console path params retries w :
  API_KEY cfg <> EmptyString ->
  wp (get cfg path params retries)
     (fun _ w' =>
        exists lines,
          console w' = console w ++ lines /\ Forall client_warning lines) w.
Proof.
  intros Hkey. unfold get. repeat wp_step.
  { by apply String.eqb_eq in H. }
  apply wp_pace. cbv zeta.
  match goal with |- if ?c then _ else _ => destruct c end.
  all: (eapply wp_mono; [apply get_loop_console; lia|]).
  all: intros r w' (lines & Hc & Hl); wsimpl; by exists lines.
Qed.

Lemma calm_app l1 l2 : calm l1 -> calm l2 -> calm (l1 ++ l2).
Proof. intros H1 H2. by apply Forall_app. Qed.

Lemma raises_last_after {A : Type} (r : outcome A) evs1 evs2 :
  calm evs1 -> raises_last r evs2 -> raises_last r (evs1 ++ evs2).
Proof.
  intros H1. destruct r as [a|[m|c|]]; simpl; try by apply calm_app.
  intros (evs0 & -> & H0). exists (evs1 ++ evs0).
  split; [by rewrite app_assoc|by apply calm_app].
Qed.

(** The body of the [try] block for one handle: it requests the
    profile, prints the line that says ok when it comes to its end,
    and otherwise throws; what it raises is its last event. *)
Lemma refresh_one_effect username w :
  API_KEY cfg <> EmptyString ->
  truthy username = true ->
  wp (refresh_one username)
     (fun r w' =>
        exists warns evs,
          trace w' = trace w ++ evs /\ requested username evs /\
          Forall client_warning warns /\
          match r with
          | Ok _ =>
              calm evs /\
              console w' =
                console w ++ warns ++
                ["refresh-users ok @" +:+ ToString username]
          | Abort (Thrown message) =>
              (exists evs0, evs = evs0 ++ [EvThrow message] /\ calm evs0) /\
              console w' = console w ++ warns
          | Abort _ => False
          end) w.
Proof.
  intros Hkey Hu. unfold refresh_one, getUserInfo. wp_step.
  match goal with
  | |- wp (get cfg ?p ?ps 6) _ _ =>
      pose proof (wp_elim _ _ _ (get_effect p ps 6 w)) as He;
      pose proof (wp_elim _ _ _ (get_console p ps 6 w Hkey)) as Hc;
      pose proof (wp_elim _ _ _ (propagates_get p ps 6 w)) as Hp;
      apply wp_intro; destruct (get cfg p ps 6 w) as [r w1]
  end.
  cbn [fst snd] in *.
  destruct He as (Hexit & evs & _ & Ht & _ & _ & _ & Hend & _).
  destruct Hc as (warns & Hcon & Hwarns).
  destruct Hp as (evs' & Ht' & Hlast).
  rewrite Ht in Ht'. apply app_inv_head in Ht'. subst evs'.
  rewrite (search_params_userName _ Hu) in Hend.
  destruct r as [data|[message|c|]]; cbn [get_ends raises_last] in *.
  - destruct Hend as (evs0 & t & res & -> & _ & _).
    assert (requested username
              (evs0 ++ [EvFetch t "/twitter/user/info"
                                [("userName", ToString username)] (Some res)]))
      as Hreq.
    { exists t, (Some res). apply elem_of_app. right.
      by apply list_elem_of_singleton. }
    set (evs1 := evs0 ++ [EvFetch t _ _ (Some res)]) in *. clearbody evs1.
    wp_step.
    assert (forall m : M unit,
               wp m (fun r w2 =>
                       console w2 = console w1 /\
                       exists evs2,
                         trace w2 = trace w1 ++ evs2 /\ raises_last r evs2 /\
                         (r = Ok tt \/ exists message, r = Abort (Thrown message)))
                  w1 ->
               wp m (fun r w0 =>
                       match r with
                       | Ok _ =>
                           wp (log ("refresh-users ok @" +:+ ToString username))
                              (fun r0 w' =>
                                 exists warns evs,
                                   trace w' = trace w ++ evs /\
                                   requested username evs /\
                                   Forall client_warning warns /\
                                   match r0 with
                                   | Ok _ =>
                                       calm evs /\
                                       console w' =
                                         console w ++ warns ++
                                         ["refresh-users ok @" +:+
                                          ToString username]
                                   | Abort (Thrown message) =>
                                       (exists evs0,
                                           evs = evs0 ++ [EvThrow message] /\
                                           calm evs0) /\
                                       console w' = console w ++ warns
                                   | Abort _ => False
                                   end) w0
                       | Abort e =>
                           exists warns evs,
                             trace w0 = trace w ++ evs /\
                             requested username evs /\
                             Forall client_warning warns /\
                             match e with
                             | Thrown message =>
                                 (exists evs0,
                                     evs = evs0 ++ [EvThrow message] /\
                                     calm evs0) /\
                                 console w0 = console w ++ warns
                             | _ => False
                             end
                       end) w1) as Hstep.
    { intros m Hm. eapply wp_mono; [exact Hm|].
      intros r w2 (Hc2 & evs2 & Ht2 & Hl2 & Hr).
      assert (requested username (evs1 ++ evs2)) as Hreq2.
      { destruct Hreq as (t' & ex & Hin). exists t', ex.
        apply elem_of_app. by left. }
      destruct Hr as [->|[message ->]]; cbn [raises_last] in Hl2.
      - wp_step. exists warns, (evs1 ++ evs2). wsimpl.
        rewrite Ht2, Ht, Hc2, Hcon, <- !app_assoc.
        split_and!; try done. by apply calm_app.
      - exists warns, (evs1 ++ evs2).
        rewrite Ht2, Ht, Hc2, Hcon, <- !app_assoc.
        split_and!; try done.
        destruct Hl2 as (evs3 & -> & Hcalm3).
        exists (evs1 ++ evs3). split; [by rewrite <- !app_assoc|].
        by apply calm_app. }
    assert (forall u,
               wp (upsertUser u)
                  (fun r w2 =>
                     console w2 = console w1 /\
                     exists evs2,
                       trace w2 = trace w1 ++ evs2 /\ raises_last r evs2 /\
                       (r = Ok tt \/ exists message, r = Abort (Thrown message)))
                  w1) as Hupsert.
    { intros u. apply wp_intro.
      pose proof (wp_elim _ _ _ (upsertUser_effect u w1)) as (Hc2 & _ & Hr).
      pose proof (wp_elim _ _ _ (propagates_upsertUser u w1))
        as (evs2 & Ht2 & Hl2).
      split; [done|]. by exists evs2. }
    destruct (p_user data) as [u|]; [apply Hstep, Hupsert|].
    destruct (p_data data) as [u|]; [apply Hstep, Hupsert|].
    destruct (p_result data) as [u|]; [apply Hstep, Hupsert|].
    apply Hstep. wp_step. split; [done|]. exists []. rewrite app_nil_r.
    split_and!; [done|constructor|by left].
  - destruct Hend as (evs0 & -> & _ & t & ex & Hin).
    destruct Hlast as (evs1 & Heq & Hcalm).
    apply app_inj_tail in Heq as [<- _].
    exists warns, (evs0 ++ [EvThrow message]). split_and!; try done.
    + exists t, ex. apply elem_of_app. by left.
    + by exists evs0.
  - by destruct (Hexit Hkey c).
  - done.
Qed.

(** One handle of [refreshUsers]: the iteration ends normally whatever
    fails, and leaves its events and its lines. *)
Lemma refresh_guarded_effect username w :
  API_KEY cfg <> EmptyString ->
  truthy username = true ->
  wp (refresh_guarded username)
     (fun r w' =>
        r = Ok tt /\
        exists block,
          trace w' = trace w ++ block.1 /\ console w' = console w ++ block.2 /\
          handled username block) w.
Proof.
  intros Hkey Hu. unfold refresh_guarded. apply wp_try_catch.
  eapply wp_mono; [by apply refresh_one_effect|].
  intros r w1 (warns & evs & Ht & Hreq & Hwarns & Hr).
  destruct r as [[]|[message|c|]]; try done.
  - destruct Hr as [Hcalm Hc]. split; [done|].
    exists (evs, warns ++ ["refresh-users ok @" +:+ ToString username]).
    split_and!; try done. split; [done|]. exists warns. split; [done|]. by left.
  - destruct Hr as [(evs0 & -> & Hcalm) Hc]. wp_step. split; [done|].
    exists (evs0 ++ [EvThrow message],
            warns ++ ["refresh-users fail @" +:+ ToString username +:+ ": "
                      +:+ message]).
    cbn [fst snd]. rewrite Hc, <- app_assoc. split_and!; try done.
    split; [done|]. exists warns. split; [done|]. right. by exists evs0, message.
Qed.

Lemma refresh_all_effect users :
  API_KEY cfg <> EmptyString ->
  Forall (fun u => truthy u = true) users ->
  forall w,
    wp (for_of users refresh_guarded)
       (fun r w' =>
          r = Ok tt /\
          exists blocks,
            trace w' = trace w ++ concat blocks.*1 /\
            console w' = console w ++ concat blocks.*2 /\
            Forall2 handled users blocks) w.
Proof.
  intros Hkey. induction 1 as [|u users Hu _ IH]; intros w; cbn [for_of].
  - wp_step. split; [done|]. exists []. simpl. rewrite !app_nil_r.
    by split_and!.
  - wp_step. eapply wp_mono; [by apply refresh_guarded_effect|].
    intros r w1 (-> & block & Ht1 & Hc1 & Hh).
    eapply wp_mono; [apply IH|].
    intros r w2 (-> & blocks & Ht2 & Hc2 & Hhs).
    split; [done|]. exists (block :: blocks). split_and!.
    + by rewrite Ht2, Ht1, <- app_assoc.
    + by rewrite Hc2, Hc1, <- app_assoc.
    + by constructor.
Qed.

(** C9: in [refreshUsers], once the handles are selected, the run ends
    normally whatever fails for a handle.  Every handle, in the order
    of the selection, leaves its block of events and of lines: the
    request of its profile, and either no raise and the line that says
    ok, or the exception raised for it, in the API call or in the
    upsert, as the last event, caught, with the line that says fail and
    gives its message; the handles after it are processed all the
    same.  In the other drivers an exception raised during the run is
    the outcome of the run. *)
Theorem refreshUsers_isolates_failures hours w rows :
  COMMUNITY_ID cfg <> EmptyString ->
  API_KEY cfg <> EmptyString ->
  default (DbOk []) (head (dbs w)) = DbOk rows ->
  (let users := filter (fun x => truthy x = true) rows in
   exists blocks,
     (refreshUsers hours w).1 = Ok tt /\
     trace (refreshUsers hours w).2 =
       trace w ++
       [EvQuery (QSelectActiveUsers (COMMUNITY_ID cfg) (pretty hours))
                (DbOk rows)] ++
       concat blocks.*1 /\
     console (refreshUsers hours w).2 =
       console w ++
       ["refresh-users: found " +:+ pretty (Z.of_nat (length users)) +:+
        " active users (last " +:+ pretty hours +:+ "h)"] ++
       concat blocks.*2 ++ ["refresh-users done."] /\
     Forall2 handled users blocks) /\
  unwinds backfill /\ unwinds ingestNew /\
  (forall h all, unwinds (refreshMetrics h all)) /\
  unwinds syncMembers.
Proof.
  intros Hcid Hkey Hrows. split.
  2: { split_and!; intros; apply propagates_unwinds;
       auto using propagates_backfill, propagates_ingestNew,
         propagates_refreshMetrics, propagates_syncMembers. }
  cbv zeta.
  set (users := filter (fun x => truthy x = true) rows).
  assert (wp (refreshUsers hours)
            (fun r w' =>
               exists blocks,
                 r = Ok tt /\
                 trace w' =
                   trace w ++
                   [EvQuery (QSelectActiveUsers (COMMUNITY_ID cfg)
                                                (pretty hours)) (DbOk rows)] ++
                   concat blocks.*1 /\
                 console w' =
                   console w ++
                   ["refresh-users: found " +:+
                    pretty (Z.of_nat (length users)) +:+
                    " active users (last " +:+ pretty hours +:+ "h)"] ++
                   concat blocks.*2 ++ ["refresh-users done."] /\
                 Forall2 handled users blocks) w) as Hwp.
  2: { by apply wp_elim in Hwp. }
  unfold refreshUsers. cbv zeta. repeat wp_step.
  { by apply String.eqb_eq in H. }
  apply wp_q. rewrite Hrows. fold users. repeat wp_step.
  eapply wp_mono.
  { apply refresh_all_effect; [done|].
    apply Forall_forall. intros u Hin.
    by apply list_elem_of_filter in Hin as [? _]. }
  intros r w1 (-> & blocks & Ht & Hc & Hh). wsimpl.
  wp_step. exists blocks. split_and!; try done.
  - rewrite Ht, <- !app_assoc. done.
  - rewrite Hc, <- !app_assoc. done.
Qed.

(** ** The client: pacing *)

Lemma fetch_times_app l1 l2 :
  fetch_times (l1 ++ l2) = fetch_times l1 ++ fetch_times l2.
Proof. apply omap_app. Qed.

Lemma sleeps_app l1 l2 : sleeps (l1 ++ l2) = sleeps l1 ++ sleeps l2.
Proof. apply omap_app. Qed.











(** ** The client: retries on 429 *)

Lemma backoffs_cons first count :
  0 <= count ->
  backoffs first (count + 1) =
  (MIN_REQUEST_INTERVAL_MS cfg + first * 1000) :: backoffs (first + 1) count.
Proof.
  intros Hc. unfold backoffs. rewrite seqZ_cons by lia. simpl.
  do 3 f_equal; lia.
Qed.

(** The retry loop met by [length r429s] responses 429 within the
    bound and then by [res], which it does not retry: it waits the
    backoff of each attempt and comes to [finish] on [res]. *)
Lemma get_loop_after_429s path sp retries res rest :
  forall r429s fuel attempt w,
    0 <= attempt ->
    Forall (fun r => status r = 429) r429s ->
    attempt + Z.of_nat (length r429s) <= retries ->
    (status res =? 429)
      && (attempt + Z.of_nat (length r429s) + 1 <=? retries) = false ->
    retries - attempt <= Z.of_nat fuel ->
    net w = map Some r429s ++ Some res :: rest ->
    lastTs w = now w ->
    wp (get_loop cfg path sp retries fuel attempt)
       (fun r w' =>
          exists w1 evs,
            finish res path w1 = (r, w') /\
            trace w1 =
              trace w ++ evs ++ [EvFetch (lastTs w1) path sp (Some res)] /\
            sleeps evs = backoffs (attempt + 1) (Z.of_nat (length r429s)) /\
            length (fetch_times evs) = length r429s /\
            net w1 = rest /\ db w1 = db w /\ dbs w1 = dbs w) w.
Proof.
  induction r429s as [|r r429s IH];
    intros fuel attempt w Hatt H429 Hbound Hlast Hfuel Hnet Hnow.
  - assert (mjoin (head (net w)) = Some res) as Hhead by by rewrite Hnet.
    assert (tail (net w) = rest) as Htail by by rewrite Hnet.
    simpl length in Hlast. rewrite Z.add_0_r in Hlast.
    rewrite get_loop_eq. cbv zeta. unfold fetch. repeat wp_step.
    rewrite Hhead, Htail. wp_step. rewrite Hlast.
    apply wp_intro. eexists _, []. split; [apply surjective_pairing|].
    wsimpl. rewrite Hnow. by split_and!.
  - assert (mjoin (head (net w)) = Some r) as Hhead by by rewrite Hnet.
    assert (tail (net w) = map Some r429s ++ Some res :: rest) as Htail
        by by rewrite Hnet.
    apply Forall_cons in H429 as [Hr H429].
    change (length (r :: r429s)) with (S (length r429s)) in *.
    rewrite Nat2Z.inj_succ in *.
    rewrite get_loop_eq. cbv zeta. unfold fetch. repeat wp_step.
    rewrite Hhead, Htail. wp_step.
    assert ((status r =? 429) && (attempt + 1 <=? retries) = true) as ->.
    { rewrite Hr. apply andb_true_iff. split; [done|]. apply Z.leb_le. lia. }
    wp_step. apply wp_warn_429. intros lines. repeat wp_step.
    pose proof (N2Z.is_nonneg (hd 0%N (jitter w))) as Hj1.
    pose proof (N2Z.is_nonneg (hd 0%N (tail (jitter w)))) as Hj2.
    apply wp_pace. cbv zeta. wsimpl.
    match goal with
    | |- if ?c then _ else _ =>
        assert (c = false) as -> by (apply Z.ltb_ge; unfold timer_slack; lia)
    end.
    destruct fuel as [|fuel]; [simpl in Hfuel; lia|].
    eapply wp_mono.
    { apply (IH fuel (attempt + 1)); wsimpl; try done; try lia.
      - by replace (attempt + 1 + Z.of_nat (length r429s) + 1)
          with (attempt + Z.succ (Z.of_nat (length r429s)) + 1) by lia. }
    intros r' w' (w1 & evs & Hfin & Ht & Hs & Hf & Hn & Hd & Hds). wsimpl.
    exists w1, ([EvFetch (now w) path sp (Some r);
                 EvSleep (MIN_REQUEST_INTERVAL_MS cfg + (attempt + 1) * 1000)]
                  ++ evs).
    split_and!; try done.
    + rewrite Ht, <- !app_assoc. done.
    + rewrite sleeps_app, Hs.
      replace (Z.succ (Z.of_nat (length r429s)))
        with (Z.of_nat (length r429s) + 1) by lia.
      rewrite backoffs_cons by lia. done.
    + rewrite fetch_times_app, length_app, Hf. done.
Qed.

(** C5 (amended): met by [k] responses 429 in a row, [k] within the
    retry bound, and then by [res], the client makes [k + 1] requests;
    before the retry number [i] it waits the minimum interval plus
    [i] seconds and goes through the pacing gate (which stamps the
    request in [_lastTs]); [res] is handled as the response of a first
    attempt would be when it is not a 429 or when the bound is used up,
    and a 429 past the bound raises the error of any response that is
    not ok: the message of its body, or "HTTP 429", and the path. *)
Theorem get_retries_429 path params retries r429s res rest w :
  API_KEY cfg <> EmptyString ->
  Forall (fun r => status r = 429) r429s ->
  Z.of_nat (length r429s) <= retries ->
  net w = map Some r429s ++ Some res :: rest ->
  status res <> 429 \/ Z.of_nat (length r429s) = retries ->
  exists w1 evs,
    get cfg path params retries w = finish res path w1 /\
    trace w1 =
      trace w ++ evs ++
      [EvFetch (lastTs w1) path (search_params params) (Some res)] /\
    sleeps evs =
      (let wait := lastTs w + MIN_REQUEST_INTERVAL_MS cfg - now w in
       if 0 <? wait then [wait] else [])
      ++ backoffs 1 (Z.of_nat (length r429s)) /\
    length (fetch_times evs) = length r429s /\
    net w1 = rest /\ db w1 = db w /\ dbs w1 = dbs w /\
    (status res = 429 ->
     (finish res path w1).1 = Abort (Thrown (http_error_message res path))).
Proof.
  intros Hkey H429 Hbound Hnet Hlast.
  assert (wp (get cfg path params retries)
            (fun r w' =>
               exists w1 evs,
                 finish res path w1 = (r, w') /\
                 trace w1 =
                   trace w ++ evs ++
                   [EvFetch (lastTs w1) path (search_params params) (Some res)] /\
                 sleeps evs =
                   (let wait := lastTs w + MIN_REQUEST_INTERVAL_MS cfg - now w in
                    if 0 <? wait then [wait] else [])
                   ++ backoffs 1 (Z.of_nat (length r429s)) /\
                 length (fetch_times evs) = length r429s /\
                 net w1 = rest /\ db w1 = db w /\ dbs w1 = dbs w) w) as Hwp.
  { assert ((status res =? 429)
              && (0 + Z.of_nat (length r429s) + 1 <=? retries) = false) as Hno.
    { apply andb_false_iff. destruct Hlast as [Hs|Hk].
      - left. by apply Z.eqb_neq.
      - right. apply Z.leb_gt. lia. }
    unfold get. repeat wp_step.
    { by apply String.eqb_eq in H. }
    apply wp_pace. cbv zeta. destruct (0 <? _) eqn:Hwait.
    all: (eapply wp_mono;
          [apply (get_loop_after_429s path (search_params params) retries
                    res rest r429s); try done; lia|]).
    all: intros r w' (w1 & evs & Hfin & Ht & Hs & Hf & Hn & Hd & Hds); wsimpl.
    - exists w1, ([EvSleep (lastTs w + MIN_REQUEST_INTERVAL_MS cfg - now w)]
                    ++ evs).
      split_and!; try done.
      + by rewrite Ht, <- !app_assoc.
      + by rewrite sleeps_app, Hs.
    - by exists w1, evs. }
  apply wp_elim in Hwp as (w1 & evs & Hfin & Hrest).
  exists w1, evs. split_and!; try apply Hrest.
  - rewrite Hfin. apply surjective_pairing.
  - intros Hs. unfold finish, ok. rewrite Hs. reflexivity.
Qed.

(** ** sync-members: the page loop ends *)

Lemma sync_members_frame communityId members : forall w,
  wp (for_of members (sync_member communityId))
     (fun r w' => net w' = net w /\ r <> Abort Diverged) w.
Proof.
  induction members as [|m members IH]; intros w; cbn [for_of].
  - by wp_step.
  - wp_step. unfold sync_member. wp_step.
    assert (wp (upsertUser m)
               (fun r w' => net w' = net w /\ r <> Abort Diverged) w) as Hu.
    { unfold upsertUser. cbv zeta. repeat wp_step; [done|].
      apply wp_q. destruct (default _ _); [by wp_step|done]. }
    eapply wp_mono; [exact Hu|]. intros [[]|e] w1 [Hn Hd]; [|done].
    wp_step. apply wp_q. wsimpl. destruct (default _ _); [|by rewrite Hn].
    repeat wp_step. eapply wp_mono; [apply IH|].
    intros r w2 [Hn2 Hd2]. wsimpl. by rewrite Hn2.
Qed.

Lemma sync_pages_ends communityId fuel : forall cursor total w,
  (length (net w) < fuel)%nat ->
  wp (sync_pages communityId fuel cursor total)
     (fun r _ => r <> Abort Diverged) w.
Proof.
  induction fuel as [|fuel IH]; intros cursor total w Hfuel; [lia|].
  cbn [sync_pages]. wp_step. unfold getCommunityMembers.
  eapply wp_mono; [apply get_effect|].
  intros r w1 (_ & evs & lines & _ & _ & _ & _ & Hend & Hnet).
  destruct r as [data|[m|c|]]; try done.
  specialize (Hnet data eq_refl). cbv zeta. wp_step.
  eapply wp_mono; [apply sync_members_frame|].
  intros r w2 [Hn2 Hd2]. destruct r as [[]|e]; [|done].
  repeat wp_step; [done|]. apply IH. wsimpl. rewrite Hn2. lia.
Qed.

(** The fuel given to the page loop is never used up. *)
Lemma syncMembers_ends w : (syncMembers w).1 <> Abort Diverged.
Proof.
  apply (wp_elim syncMembers (fun r _ => r <> Abort Diverged)).
  unfold syncMembers. cbv zeta. repeat wp_step; [done|].
  apply wp_intro.
  pose proof (sync_pages_ends (COMMUNITY_ID cfg) (S (length (net w))) JNull 0 w
                ltac:(lia)) as Hp.
  apply wp_elim in Hp.
  destruct (sync_pages _ _ _ _ w) as [[[]|e] w1]; simpl in *; [|done].
  by wp_step.
Qed.

(** ** chunk *)

Lemma chunk_slices_spec {A : Type} (size : nat) : forall fuel (arr : list A),
  (0 < size)%nat -> (length arr <= fuel)%nat ->
  let groups := chunk_slices fuel arr size in
  concat groups = arr /\
  Forall (fun g => (0 < length g <= size)%nat) groups /\
  (forall i g, groups !! i = Some g -> (S i < length groups)%nat ->
               length g = size) /\
  Z.of_nat (length groups) =
    (Z.of_nat (length arr) + Z.of_nat size - 1) / Z.of_nat size.
Proof.
  induction fuel as [|fuel IH]; intros arr Hsize Hlen; cbv zeta.
  - destruct arr; [|cbn in Hlen; lia]. cbn.
    split_and!; [done|constructor|by intros []|].
    symmetry. apply Z.div_small. lia.
  - destruct arr as [|x arr]; cbn [chunk_slices].
    { split_and!; [done|constructor|by intros []|].
      symmetry. apply Z.div_small. cbn. lia. }
    assert (0 < length (x :: arr))%nat as Hpos by (cbn; lia).
    set (l := x :: arr) in *. clearbody l. clear x arr.
    destruct (IH (drop size l) Hsize) as (Hcat & Hall & Hfull & Hcount).
    { rewrite length_drop. lia. }
    split_and!.
    + cbn [concat]. rewrite Hcat. apply take_drop.
    + constructor; [|done]. rewrite length_take. lia.
    + intros [|i] g Hi Hlast; cbn in Hi, Hlast.
      * injection Hi as <-. rewrite length_take.
        destruct (chunk_slices fuel (drop size l) size) eqn:Hrest;
          [cbn in Hlast; lia|].
        destruct (decide (size < length l)%nat) as [|Hshort]; [lia|].
        rewrite drop_ge in Hrest by lia. by destruct fuel.
      * apply (Hfull i g Hi). lia.
    + rewrite length_cons, Nat2Z.inj_succ, Hcount, length_drop.
      destruct (decide (size < length l)%nat) as [Hlong|Hshort].
      * rewrite Nat2Z.inj_sub by lia.
        remember (Z.of_nat (length l)) as n. remember (Z.of_nat size) as sz.
        replace (n - sz + sz - 1) with (n - 1) by lia.
        replace (n + sz - 1) with (n - 1 + 1 * sz) by lia.
        rewrite Z.div_add by lia. lia.
      * replace (length l - size)%nat with 0%nat by lia.
        remember (Z.of_nat (length l)) as n. remember (Z.of_nat size) as sz.
        rewrite (Z.div_small (Z.of_nat 0 + sz - 1)) by lia.
        apply (Z.div_unique (n + sz - 1) sz (Z.succ 0) (n - 1)); lia.
Qed.

(** X1: for a positive size, [chunk] cuts the array into consecutive
    groups: put end to end they give the array back, none is empty or
    longer than the size, all but the last have exactly the size, and
    there are as many as the length divided by the size, rounded up.
    An empty array gives no group. *)
Theorem chunk_partitions {A : Type} (arr : list A) (size : Z) :
  0 < size ->
  exists groups,
    chunk arr size = Some groups /\
    concat groups = arr /\
    Forall (fun g => g <> [] /\ Z.of_nat (length g) <= size) groups /\
    (forall i g, groups !! i = Some g -> (S i < length groups)%nat ->
                 Z.of_nat (length g) = size) /\
    Z.of_nat (length groups) = (Z.of_nat (length arr) + size - 1) / size /\
    (arr = [] -> groups = []).
Proof.
  intros Hsize. unfold chunk. destruct arr as [|x arr].
  - exists []. split_and!; try done. symmetry. apply Z.div_small. cbn. lia.
  - destruct (size <=? 0) eqn:Hle; [apply Z.leb_le in Hle; lia|].
    eexists. split; [done|].
    destruct (chunk_slices_spec (Z.to_nat size) (length (x :: arr)) (x :: arr))
      as (Hcat & Hall & Hfull & Hcount); [lia|done|].
    rewrite Z2Nat.id in Hcount by lia.
    split_and!; try done.
    + eapply Forall_impl; [exact Hall|]. intros g [Hpos Hmax].
      split; [by destruct g; cbn in Hpos; [lia|]|lia].
    + intros i g Hi Hlast. rewrite (Hfull i g Hi Hlast). lia.
Qed.

(** ** The sync state store *)

Lemma getState_answered cid w :
  db_up w ->
  getState cid w =
  (Ok (ingest_state (apply_query (QEnsureStateRow cid) (db w)) !! cid),
   answered (QSelectState cid) (answered (QEnsureStateRow cid) w)).
Proof.
  intros Hup.
  destruct (q_answered (QEnsureStateRow cid) w Hup) as (rows1 & _ & H1).
  destruct (q_answered (QSelectState cid) _ (answered_db_up (QEnsureStateRow cid)
                                               w Hup)) as (rows2 & _ & H2).
  unfold getState, ensureStateRow, bind. rewrite H1. cbn [ret]. by rewrite H2.
Qed.

Lemma setLastSeenTweetId_answered cid v w :
  db_up w ->
  setLastSeenTweetId cid v w =
  (Ok tt, answered (QSetLastSeenTweetId cid (pg_param v)) w).
Proof.
  intros Hup.
  destruct (q_answered (QSetLastSeenTweetId cid (pg_param v)) w Hup)
    as (rows & _ & Hq).
  unfold setLastSeenTweetId, bind. by rewrite Hq.
Qed.

Lemma alter_missing {A : Type} (f : A -> A) (k : string) (m : gmap string A) :
  m !! k = None -> alter f k m = m.
Proof.
  intros H. apply map_eq. intros i. destruct (decide (i = k)) as [->|Hne].
  - by rewrite lookup_alter_eq, H.
  - by rewrite lookup_alter_ne.
Qed.

(** X2: while the database answers, [getState] returns the row
    of the community, never [undefined]: a row that exists is returned
    as it is and the database is left unchanged; when there is none, a
    row with a null cursor and a null watermark is created and
    returned, and the rows of the other communities are untouched. *)
Theorem getState_ensures_row cid w :
  db_up w ->
  exists row,
    (getState cid w).1 = Ok (Some row) /\
    ingest_state (db (getState cid w).2) !! cid = Some row /\
    match ingest_state (db w) !! cid with
    | Some old => row = old /\ db (getState cid w).2 = db w
    | None =>
        row = mkStateRow None None /\
        forall cid', cid' <> cid ->
          ingest_state (db (getState cid w).2) !! cid' =
          ingest_state (db w) !! cid'
    end.
Proof.
  intros Hup. rewrite (getState_answered cid w Hup). cbn.
  destruct (ingest_state (db w) !! cid) as [old|] eqn:Hold.
  - exists old. by rewrite Hold.
  - exists (mkStateRow None None). cbn. rewrite lookup_insert_eq.
    split_and!; try done. intros cid' Hne. by rewrite lookup_insert_ne.
Qed.

(** X3: what [setBackfillCursor] and [setLastSeenTweetId] store
    is what [getState] reads back, and each leaves the field of the
    other as it was; on a community without a row both change
    nothing. *)
Theorem state_setters_round_trip cid v w :
  db_up w ->
  match ingest_state (db w) !! cid with
  | Some row =>
      (getState cid (setBackfillCursor cid v w).2).1 =
        Ok (Some (mkStateRow (pg_param v) (last_seen_tweet_id row))) /\
      (getState cid (setLastSeenTweetId cid v w).2).1 =
        Ok (Some (mkStateRow (backfill_cursor row) (pg_param v)))
  | None =>
      db (setBackfillCursor cid v w).2 = db w /\
      db (setLastSeenTweetId cid v w).2 = db w
  end.
Proof.
  intros Hup.
  destruct (setBackfillCursor_answered cid v w Hup) as [Hc _].
  pose proof (setLastSeenTweetId_answered cid v w Hup) as Hs.
  rewrite Hc, Hs. cbn [snd].
  destruct (ingest_state (db w) !! cid) as [row|] eqn:Hrow.
  - rewrite !getState_answered by by apply answered_db_up.
    cbn. rewrite !lookup_alter_eq, Hrow. cbn. by rewrite !lookup_alter_eq, Hrow.
  - cbn. rewrite !alter_missing by done. by destruct (db w).
Qed.

(** ** Upserts that replace the row *)

Lemma count_of_missing v : truthy v = false -> count_of v = Some 0.
Proof. intros H. unfold count_of, js_or. by rewrite H. Qed.

(** X4: a metrics upsert that succeeds stores the six counters
    of the payload under the text of its identifier, whatever the row
    held before; a counter that is missing or zero in the payload is
    stored as 0; the other rows are untouched. *)
Theorem upsertMetrics_overwrites m rows w :
  default (DbOk []) (head (dbs w)) = DbOk rows ->
  (upsertMetrics m w).1 = Ok tt /\
  tweet_metrics_latest (db (upsertMetrics m w).2) !! ToString (t_id m) =
    Some {| view_count := count_of (t_viewCount m);
            like_count := count_of (t_likeCount m);
            retweet_count := count_of (t_retweetCount m);
            reply_count := count_of (t_replyCount m);
            quote_count := count_of (t_quoteCount m);
            bookmark_count := count_of (t_bookmarkCount m) |} /\
  (forall tid, tid <> ToString (t_id m) ->
     tweet_metrics_latest (db (upsertMetrics m w).2) !! tid =
     tweet_metrics_latest (db w) !! tid) /\
  (forall v, truthy v = false -> count_of v = Some 0).
Proof.
  intros Hreply.
  assert (wp (upsertMetrics m)
             (fun r w' =>
                r = Ok tt /\
                tweet_metrics_latest (db w') =
                <[ToString (t_id m) :=
                    {| view_count := count_of (t_viewCount m);
                       like_count := count_of (t_likeCount m);
                       retweet_count := count_of (t_retweetCount m);
                       reply_count := count_of (t_replyCount m);
                       quote_count := count_of (t_quoteCount m);
                       bookmark_count := count_of (t_bookmarkCount m) |}]>
                  (tweet_metrics_latest (db w))) w) as Hwp.
  { unfold upsertMetrics. wp_step. apply wp_q. rewrite Hreply. by wp_step. }
  apply wp_elim in Hwp as [Hr Hrow]. rewrite Hrow.
  split_and!; [done|by rewrite lookup_insert_eq| |apply count_of_missing].
  intros tid Hne. by rewrite lookup_insert_ne.
Qed.

(** X5: a user upsert that succeeds, for a payload with an
    identifier and a handle, replaces the whole row: the optional
    fields missing from the payload are stored as NULL (the counters as
    0) whatever the row held before. *)
Theorem upsertUser_overwrites u rows w :
  truthy (u_id u) = true ->
  truthy (u_userName u) = true ->
  default (DbOk []) (head (dbs w)) = DbOk rows ->
  (upsertUser u w).1 = Ok tt /\
  users (db (upsertUser u w).2) !! ToString (u_id u) =
    Some {| username_col := Some (ToString (u_userName u));
            name_col := if truthy (u_name u)
                        then Some (ToString (u_name u)) else None;
            followers_col := count_of (u_followers u);
            following_col := count_of (u_following u);
            profile_picture_col :=
              if truthy (u_profilePicture u)
              then Some (ToString (u_profilePicture u)) else None |} /\
  (forall uid, uid <> ToString (u_id u) ->
     users (db (upsertUser u w).2) !! uid = users (db w) !! uid).
Proof.
  intros Hid Hname Hreply.
  assert (forall v, pg_param (js_or v JNull) =
                    if truthy v then Some (ToString v) else None) as Hpg.
  { intros v. unfold js_or. destruct (truthy v) eqn:Hv; [|done].
    by destruct v. }
  assert (wp (upsertUser u)
             (fun r w' =>
                r = Ok tt /\
                users (db w') =
                <[ToString (u_id u) :=
                    {| username_col := Some (ToString (u_userName u));
                       name_col := if truthy (u_name u)
                                   then Some (ToString (u_name u)) else None;
                       followers_col := count_of (u_followers u);
                       following_col := count_of (u_following u);
                       profile_picture_col :=
                         if truthy (u_profilePicture u)
                         then Some (ToString (u_profilePicture u))
                         else None |}]> (users (db w))) w) as Hwp.
  { unfold upsertUser. cbv zeta. rewrite Hid, !Hpg, Hname.
    rewrite (truthy_ToString _ Hid).
    assert (truthy (js_or (u_userName u) JNull) = true) as ->
        by (unfold js_or; by rewrite Hname).
    cbn [negb orb]. wp_step. apply wp_q. rewrite Hreply. by wp_step. }
  apply wp_elim in Hwp as [Hr Hrow]. rewrite Hrow.
  split_and!; [done|by rewrite lookup_insert_eq|].
  intros uid Hne. by rewrite lookup_insert_ne.
Qed.

(** X6: the text of a normalised post is never null, so a post
    upsert that meets an existing row always replaces its text, by the
    empty string when the payload has none, while a url missing from
    the payload keeps the stored one. *)
Theorem upsert_replaces_text communityId t old rows w :
  community_tweets (db w) !! (communityId, ToString (t_id t)) = Some old ->
  default (DbOk []) (head (dbs w)) = DbOk rows ->
  exists stored,
    community_tweets
      (db (upsertCommunityTweet communityId (normalizeTweet t) w).2)
      !! (communityId, ToString (t_id t)) = Some stored /\
    text_col stored = Some (ToString (js_or (t_text t) (JStr ""))) /\
    (truthy (t_text t) = false -> text_col stored = Some "") /\
    (truthy (t_url t) = false -> url_col stored = url_col old).
Proof.
  intros Hold Hreply.
  assert (wp (upsertCommunityTweet communityId (normalizeTweet t))
             (fun r w' =>
                community_tweets (db w') !! (communityId, ToString (t_id t)) =
                Some (mkTweetRow
                        (COALESCE (created_at (normalizeTweet t))
                                  (created_at_col old))
                        (COALESCE (pg_param (author_user_id (normalizeTweet t)))
                                  (author_user_id_col old))
                        (COALESCE (pg_param (author_username (normalizeTweet t)))
                                  (author_username_col old))
                        (COALESCE (pg_param (js_or (t_url t) JNull))
                                  (url_col old))
                        (COALESCE (pg_param (js_or (t_text t) (JStr "")))
                                  (text_col old)))) w) as Hwp.
  { unfold upsertCommunityTweet. wp_step. apply wp_q. rewrite Hreply.
    wp_step. cbn [db apply_query community_tweets normalizeTweet tweet_id].
    rewrite Hold. by rewrite lookup_insert_eq. }
  apply wp_elim in Hwp. eexists. split; [exact Hwp|]. cbn [text_col url_col].
  split_and!.
  - unfold js_or. destruct (truthy (t_text t)) eqn:Htext; [|done].
    by destruct (t_text t).
  - intros Htext. unfold js_or. by rewrite Htext.
  - intros Hurl. unfold js_or. by rewrite Hurl.
Qed.

(** ** sync-members *)

Lemma upsertUser_skips u w :
  truthy (u_id u) = false \/ truthy (u_userName u) = false ->
  upsertUser u w = (Ok tt, w).
Proof.
  intros H. unfold upsertUser, js_or. cbv zeta.
  destruct (truthy (u_id u)); [|done].
  destruct H as [H|H]; [done|]. rewrite H. cbn. by rewrite orb_true_r.
Qed.

(** X7: a member whose payload lacks an identifier or a handle
    is dropped by [upsertUser] but still gets a membership row, under
    the text of its identifier (["undefined"] when it is missing) and
    with the handle it has, if any. *)
Theorem sync_member_without_profile communityId m w :
  db_up w ->
  truthy (u_id m) = false \/ truthy (u_userName m) = false ->
  (sync_member communityId m w).1 = Ok tt /\
  users (db (sync_member communityId m w).2) = users (db w) /\
  community_members (db (sync_member communityId m w).2)
    !! (communityId, ToString (u_id m)) = Some (pg_param (u_userName m)) /\
  exists evs,
    trace (sync_member communityId m w).2 = trace w ++ evs /\
    statements evs =
      [QUpsertMember communityId (ToString (u_id m)) (pg_param (u_userName m))].
Proof.
  intros Hup Hdrop. unfold sync_member, bind.
  rewrite (upsertUser_skips m w Hdrop).
  destruct (q_answered (QUpsertMember communityId (ToString (u_id m))
                                      (pg_param (u_userName m))) w Hup)
    as (rows & Hrows & ->).
  cbn. split_and!; [done|done|by rewrite lookup_insert_eq|].
  by eexists [_].
Qed.

(** ** Runs as sequences of actions *)

Lemma run_app acts1 acts2 w : run (acts1 ++ acts2) w = run acts2 (run acts1 w).
Proof. apply foldl_app. Qed.

Lemma pace_ok w : (_pace cfg w).1 = Ok tt.
Proof.
  apply (wp_elim (_pace cfg) (fun r _ => r = Ok tt)). apply wp_pace.
  cbv zeta. by destruct (0 <? _).
Qed.

Lemma fetch_outcome path sp w :
  match (fetch path sp w).1 with
  | Ok _ | Abort (Thrown _) => True
  | Abort _ => False
  end.
Proof.
  unfold fetch, bind, Date_now, next_exchange, emit, suspend, ret, throw.
  cbn [fst snd]. by destruct (mjoin (head (net w))).
Qed.

Section Performs.
Variable St : query -> Prop.
Variable Rq : string -> list (string * string) -> Prop.

Lemma performs_ret {A : Type} (a : A) : performs St Rq (ret a).
Proof. intros w. wp_step. by exists []. Qed.

Lemma performs_after {A : Type} (m : M A) acts0 w0 w :
  w = run acts0 w0 -> Forall (allowed St Rq) acts0 ->
  performs St Rq m ->
  wp m (fun _ w' => exists acts, w' = run acts w0 /\ Forall (allowed St Rq) acts) w.
Proof.
  intros -> H0 Hm. eapply wp_mono; [apply Hm|].
  intros _ w' (acts & -> & H). exists (acts0 ++ acts).
  rewrite run_app. split; [done|by apply Forall_app].
Qed.

Lemma performs_bind {A B : Type} (m : M A) (k : A -> M B) :
  performs St Rq m -> (forall a, performs St Rq (k a)) ->
  performs St Rq (bind m k).
Proof.
  intros Hm Hk w. wp_step. eapply wp_mono; [apply Hm|].
  intros [a|e] w1 (acts1 & Hw1 & H1).
  - by eapply performs_after.
  - by exists acts1.
Qed.

Lemma performs_if {A : Type} (b : bool) (m1 m2 : M A) :
  performs St Rq m1 -> performs St Rq m2 ->
  performs St Rq (if b then m1 else m2).
Proof. by destruct b. Qed.

Lemma performs_log line : performs St Rq (log line).
Proof. intros w. wp_step. exists [ALog line]. by repeat constructor. Qed.

Lemma performs_die {A : Type} msg : performs St Rq (@die A msg).
Proof.
  intros w. wp_step. exists [ALog ("FATAL: " +:+ msg)]. by repeat constructor.
Qed.

Lemma performs_diverge {A : Type} : performs St Rq (@diverge A).
Proof. intros w. wp_step. by exists []. Qed.

Lemma performs_Date_now : performs St Rq Date_now.
Proof. intros w. wp_step. by exists []. Qed.

Lemma performs_get_db : performs St Rq get_db.
Proof. intros w. wp_step. by exists []. Qed.

Lemma performs_throw {A : Type} message : performs St Rq (@throw A message).
Proof. intros w. wp_step. exists [AThrow message]. by repeat constructor. Qed.

Lemma performs_sleep ms : performs St Rq (sleep ms).
Proof. intros w. apply wp_intro. exists [ASleep ms]. by repeat constructor. Qed.

Lemma performs_q qr : St qr -> performs St Rq (q qr).
Proof. intros H w. apply wp_intro. exists [AQuery qr]. by repeat constructor. Qed.

Lemma performs_for_of {A : Type} (xs : list A) (body : A -> M unit) :
  (forall x, performs St Rq (body x)) -> performs St Rq (for_of xs body).
Proof.
  intros Hbody. induction xs as [|x xs IH]; cbn [for_of].
  - apply performs_ret.
  - apply performs_bind; [apply Hbody|by intros _].
Qed.

Lemma performs_try_catch {A : Type} (m : M A) (handler : string -> M A) :
  performs St Rq m -> (forall message, performs St Rq (handler message)) ->
  performs St Rq (try_catch m handler).
Proof.
  intros Hm Hh w. apply wp_try_catch. eapply wp_mono; [apply Hm|].
  intros r w1 (acts1 & Hw1 & H1).
  destruct r as [a|[message|c|]]; try by exists acts1.
  by eapply performs_after.
Qed.

Lemma performs_warn_429 res waitMs attempt retries :
  performs St Rq (warn_429 res waitMs attempt retries).
Proof.
  unfold warn_429. apply performs_bind; [|intros _; apply performs_log].
  destruct (res_body res); auto using performs_ret, performs_log.
Qed.

Lemma performs_finish res path : performs St Rq (finish res path).
Proof.
  unfold finish. cbv zeta.
  repeat apply performs_if; auto using performs_ret, performs_throw.
Qed.

(** A call of the client from the state [w0]: the request that follows
    [_pace], and what the loop does with its response. *)
Lemma performs_get_loop path sp retries fuel : forall attempt w0,
  retries - attempt <= Z.of_nat fuel ->
  Rq path sp ->
  wp (get_loop cfg path sp retries fuel attempt)
     (fun _ w' => exists acts, w' = run acts w0 /\ Forall (allowed St Rq) acts)
     (_pace cfg w0).2.
Proof.
  induction fuel as [|fuel IH]; intros attempt w0 Hfuel HR;
    rewrite get_loop_eq; cbv zeta.
  all: apply wp_bind; apply wp_intro.
  all: pose proof (fetch_outcome path sp (_pace cfg w0).2) as Hout.
  all: assert (run [ARequest path sp] w0 = (fetch path sp (_pace cfg w0).2).2)
         as Hreq by reflexivity.
  all: assert (Forall (allowed St Rq) [ARequest path sp]) as Hone
         by (by repeat constructor).
  all: destruct (fetch path sp (_pace cfg w0).2) as [[res|[m|c|]] w2];
    cbn [fst snd] in *; try done; try by eexists.
  all: apply wp_if; intros Hb;
    [|by eapply performs_after; [| |apply performs_finish]].
  all: apply andb_true_iff in Hb as [_ Hb]; apply Z.leb_le in Hb.
  - lia.
  - apply wp_bind.
    eapply wp_mono;
      [by eapply performs_after; [| |apply performs_warn_429]|].
    intros [[]|e] w3 (acts3 & -> & H3); [|by eexists].
    apply wp_bind.
    eapply wp_mono; [by eapply performs_after; [| |apply performs_sleep]|].
    intros [[]|e] w4 (acts4 & -> & H4); [|by eexists].
    apply wp_bind. apply wp_intro. rewrite pace_ok.
    eapply wp_mono; [apply IH; [lia|done]|].
    intros _ w' (acts & -> & H). exists (acts4 ++ acts).
    rewrite run_app. split; [done|by apply Forall_app].
Qed.

Lemma performs_get path params retries :
  Rq path (search_params params) ->
  performs St Rq (get cfg path params retries).
Proof.
  intros HR w. unfold get. apply wp_bind. apply wp_if; intros _.
  - wp_step. exists [ALog "FATAL: No TWITTERAPI_IO_KEY"]. by repeat constructor.
  - wp_step. apply wp_bind. apply wp_intro. rewrite pace_ok.
    apply performs_get_loop; [lia|done].
Qed.
End Performs.

Create HintDb footprint discriminated.
Hint Resolve performs_ret performs_log performs_die performs_diverge
     performs_Date_now performs_get_db performs_throw performs_for_of
     performs_try_catch : footprint.
Hint Extern 1 (performs _ _ (bind _ _)) =>
       apply performs_bind; [|intros ?] : footprint.
Hint Extern 1 (performs _ _ (if _ then _ else _)) =>
       apply performs_if : footprint.
Hint Extern 2 (performs _ _ (match ?x with _ => _ end)) =>
       destruct x : footprint.
Hint Extern 1 (performs _ _ (q _)) =>
       apply performs_q; by cbn : footprint.

Lemma performs_page St path cid cursor :
  performs St (page_request path cid)
           (get cfg path [("community_id", JStr cid); ("cursor", cursor)] 6).
Proof. apply performs_get. split; [done|by exists cursor]. Qed.

Lemma performs_getTweetsByIds St ids :
  performs St tweets_request (getTweetsByIds cfg ids).
Proof. apply performs_get. split; [done|by exists ids]. Qed.

Lemma performs_getUserInfo St u : performs St user_request (getUserInfo cfg u).
Proof. apply performs_get. split; [done|by exists u]. Qed.

Hint Resolve performs_page performs_getTweetsByIds performs_getUserInfo
  : footprint.

Lemma performs_getState St Rq cid :
  St (QEnsureStateRow cid) -> St (QSelectState cid) ->
  performs St Rq (getState cid).
Proof.
  intros H1 H2. unfold getState, ensureStateRow.
  auto 10 using performs_q with footprint.
Qed.

Lemma performs_state_field St Rq f state : performs St Rq (state_field f state).
Proof. unfold state_field. auto with footprint. Qed.

Lemma performs_upsertCommunityTweet St Rq cid tw :
  (forall tid row, St (QUpsertCommunityTweet cid tid row)) ->
  performs St Rq (upsertCommunityTweet cid tw).
Proof. intros H. unfold upsertCommunityTweet. auto using performs_q with footprint. Qed.

Hint Extern 1 (performs _ _ (upsertCommunityTweet _ _)) =>
       apply performs_upsertCommunityTweet; by intros; cbn : footprint.
Hint Extern 1 (performs _ _ (getState _)) =>
       apply performs_getState; by cbn : footprint.
Hint Resolve performs_state_field : footprint.

Lemma performs_backfill_scan Rq cid cutoffTs tweets : forall a b,
  performs (backfill_statement cid) Rq (backfill_scan cid cutoffTs tweets a b).
Proof.
  induction tweets as [|t tweets IH]; intros a b; cbn [backfill_scan];
    auto with footprint.
Qed.

Lemma performs_backfill_pages cid cutoffTs n : forall page cursor total,
  performs (backfill_statement cid) (page_request "/twitter/community/tweets" cid)
           (backfill_pages cid cutoffTs n page cursor total).
Proof.
  induction n as [|n IH]; intros page cursor total; cbn [backfill_pages].
  - auto with footprint.
  - unfold getCommunityTweets, setBackfillCursor.
    apply performs_bind; [auto with footprint|]. intros data.
    apply performs_bind; [apply performs_backfill_scan|].
    intros [[thisPage total'] reached]. auto 12 with footprint.
Qed.

Lemma performs_backfill :
  performs (backfill_statement (COMMUNITY_ID cfg))
           (page_request "/twitter/community/tweets" (COMMUNITY_ID cfg)) backfill.
Proof.
  unfold backfill. cbv zeta.
  auto 10 using performs_backfill_pages with footprint.
Qed.

Lemma performs_ingest_scan Rq cid stopId tweets : forall inserted,
  performs (ingest_statement cid) Rq (ingest_scan cid stopId tweets inserted).
Proof.
  induction tweets as [|t tweets IH]; intros inserted; cbn [ingest_scan];
    auto with footprint.
Qed.

Lemma performs_ingest_pages cid stopId n :
  forall page cursor newLastSeen inserted,
  performs (ingest_statement cid) (page_request "/twitter/community/tweets" cid)
           (ingest_pages cid stopId n page cursor newLastSeen inserted).
Proof.
  induction n as [|n IH]; intros page cursor newLastSeen inserted;
    cbn [ingest_pages].
  - auto with footprint.
  - unfold getCommunityTweets.
    apply performs_bind; [auto with footprint|]. intros data. cbv zeta.
    apply performs_bind; [apply performs_ingest_scan|].
    intros [inserted' stopped]. auto 10 with footprint.
Qed.

Lemma performs_ingestNew :
  performs (ingest_statement (COMMUNITY_ID cfg))
           (page_request "/twitter/community/tweets" (COMMUNITY_ID cfg)) ingestNew.
Proof.
  unfold ingestNew, setLastSeenTweetId. cbv zeta.
  auto 10 using performs_ingest_pages with footprint.
Qed.

Lemma performs_upsertMetrics St Rq m :
  (forall tid row, St (QUpsertMetrics tid row)) ->
  performs St Rq (upsertMetrics m).
Proof. intros H. unfold upsertMetrics. auto using performs_q with footprint. Qed.

Lemma performs_upsertUser St Rq u :
  (forall uid row, St (QUpsertUser uid row)) ->
  performs St Rq (upsertUser u).
Proof.
  intros H. unfold upsertUser. cbv zeta. auto using performs_q with footprint.
Qed.

Hint Extern 1 (performs _ _ (upsertMetrics _)) =>
       apply performs_upsertMetrics; by intros; cbn : footprint.
Hint Extern 1 (performs _ _ (upsertUser _)) =>
       apply performs_upsertUser; by intros; cbn : footprint.

Lemma performs_refreshMetrics hours all :
  performs (metrics_statement (COMMUNITY_ID cfg)) tweets_request
           (refreshMetrics hours all).
Proof.
  unfold refreshMetrics. cbv zeta.
  auto 12 with footprint.
Qed.

Lemma performs_refreshUsers hours :
  performs (users_statement (COMMUNITY_ID cfg)) user_request (refreshUsers hours).
Proof.
  unfold refreshUsers, refresh_guarded, refresh_one. cbv zeta.
  auto 12 with footprint.
Qed.

Lemma performs_sync_pages cid fuel : forall cursor total,
  performs (members_statement cid) (page_request "/twitter/community/members" cid)
           (sync_pages cid fuel cursor total).
Proof.
  induction fuel as [|fuel IH]; intros cursor total; cbn [sync_pages].
  - auto with footprint.
  - unfold getCommunityMembers, sync_member. cbv zeta.
    auto 12 with footprint.
Qed.

Lemma performs_syncMembers :
  performs (members_statement (COMMUNITY_ID cfg))
           (page_request "/twitter/community/members" (COMMUNITY_ID cfg))
           syncMembers.
Proof.
  unfold syncMembers. cbv zeta.
  apply performs_bind; [auto with footprint|]. intros _.
  apply performs_bind; [|auto with footprint].
  intros w. apply wp_intro.
  exact (wp_elim _ _ _ (performs_sync_pages _ _ _ _ w)).
Qed.

Lemma performs_doctor :
  performs doctor_statement
           (page_request "/twitter/community/tweets" (COMMUNITY_ID cfg)) doctor.
Proof.
  unfold doctor, getCommunityTweets. cbv zeta. auto 12 with footprint.
Qed.

(** ** What a run leaves in the trace and in the database *)

Lemma requests_app l1 l2 : requests (l1 ++ l2) = requests l1 ++ requests l2.
Proof. apply omap_app. Qed.

Lemma statements_app l1 l2 :
  statements (l1 ++ l2) = statements l1 ++ statements l2.
Proof. apply omap_app. Qed.

Lemma committed_app l1 l2 : committed (l1 ++ l2) = committed l1 ++ committed l2.
Proof. apply omap_app. Qed.

Lemma replay_app qs1 qs2 d : replay (qs1 ++ qs2) d = replay qs2 (replay qs1 d).
Proof. apply foldl_app. Qed.

Lemma pace_trace w :
  exists pre,
    trace (_pace cfg w).2 = trace w ++ pre /\
    (pre = [] \/ exists ms, pre = [EvSleep ms]) /\
    db (_pace cfg w).2 = db w.
Proof.
  apply (wp_elim (_pace cfg)
           (fun _ w' => exists pre,
                trace w' = trace w ++ pre /\
                (pre = [] \/ exists ms, pre = [EvSleep ms]) /\ db w' = db w)).
  apply wp_pace. cbv zeta. destruct (0 <? _); wsimpl.
  - eexists. split; [done|]. split; [right; by eexists|done].
  - exists []. rewrite app_nil_r. split; [done|]. split; [by left|done].
Qed.

Lemma fetch_trace path sp w :
  exists post,
    trace (fetch path sp w).2 =
      trace w ++ EvFetch (now w) path sp (mjoin (head (net w))) :: post /\
    (post = [] \/ exists m, post = [EvThrow m]) /\
    db (fetch path sp w).2 = db w.
Proof.
  unfold fetch, bind, Date_now, next_exchange, emit, suspend, ret, throw.
  cbn [fst snd]. destruct (mjoin (head (net w))); wsimpl.
  - exists []. split; [done|]. split; [by left|done].
  - eexists [_]. rewrite <- app_assoc. split; [done|].
    split; [right; by eexists|done].
Qed.

Lemma q_trace qr w :
  (exists rows,
      trace (q qr w).2 = trace w ++ [EvQuery qr (DbOk rows)] /\
      db (q qr w).2 = apply_query qr (db w)) \/
  (exists m,
      trace (q qr w).2 = trace w ++ [EvQuery qr (DbFail m); EvThrow m] /\
      db (q qr w).2 = db w).
Proof.
  apply (wp_elim (q qr)
           (fun _ w' =>
              (exists rows,
                  trace w' = trace w ++ [EvQuery qr (DbOk rows)] /\
                  db w' = apply_query qr (db w)) \/
              (exists m,
                  trace w' = trace w ++ [EvQuery qr (DbFail m); EvThrow m] /\
                  db w' = db w))).
  apply wp_q. destruct (default _ _) as [rows|m]; wsimpl.
  - left. by exists rows.
  - right. by exists m.
Qed.

Section Journal.
Variable St : query -> Prop.
Variable Rq : string -> list (string * string) -> Prop.

Lemma journal_refl w : journal St Rq w w.
Proof. exists []. rewrite app_nil_r. by repeat split. Qed.

Lemma journal_trans w1 w2 w3 :
  journal St Rq w1 w2 -> journal St Rq w2 w3 -> journal St Rq w1 w3.
Proof.
  intros (evs1 & Ht1 & Hr1 & Hs1 & Hd1) (evs2 & Ht2 & Hr2 & Hs2 & Hd2).
  exists (evs1 ++ evs2). rewrite requests_app, statements_app, committed_app,
    replay_app, <- Hd1, Hd2, Ht2, Ht1, app_assoc.
  split; [done|]. split; [by apply Forall_app|]. split; [by apply Forall_app|done].
Qed.

Lemma journal_act a w : allowed St Rq a -> journal St Rq w (act a w).
Proof.
  destruct a as [line|m|ms|path sp|qr]; cbn [allowed act]; intros Ha.
  - exists []. cbn. rewrite app_nil_r. by repeat split.
  - exists [EvThrow m]. by repeat split.
  - exists [EvSleep ms]. by repeat split.
  - destruct (pace_trace w) as (pre & Hpre & Hshape & Hdb).
    destruct (fetch_trace path sp (_pace cfg w).2) as (post & Hpost & Hp & Hdb').
    exists (pre ++ EvFetch (now (_pace cfg w).2) path sp
                           (mjoin (head (net (_pace cfg w).2))) :: post).
    rewrite Hpost, Hpre, Hdb', Hdb, <- app_assoc. split; [done|].
    destruct Hshape as [->|[ms ->]], Hp as [->|[m ->]]; cbn;
      by repeat constructor.
  - destruct (q_trace qr w) as [(rows & Ht & Hd)|(m & Ht & Hd)];
      eexists; (split; [exact Ht|]); rewrite Hd; cbn; by repeat constructor.
Qed.

Lemma journal_run acts : forall w,
  Forall (allowed St Rq) acts -> journal St Rq w (run acts w).
Proof.
  induction acts as [|a acts IH]; intros w Hall; cbn [run foldl].
  - apply journal_refl.
  - inversion Hall; subst. eapply journal_trans; [by apply journal_act|].
    by apply IH.
Qed.

Lemma performs_confined {A : Type} (m : M A) :
  performs St Rq m -> confined St Rq m.
Proof.
  intros Hm w. destruct (wp_elim _ _ _ (Hm w)) as (acts & -> & Hall).
  by apply journal_run.
Qed.
End Journal.

(** ** Pacing along a run *)




(** ** What the drivers leave alone *)

Lemma committed_statements (P : query -> Prop) evs :
  Forall P (statements evs) -> Forall P (committed evs).
Proof.
  induction evs as [|e evs IH]; [done|].
  destruct e as [ms|t path sp ex|qr [rows|m]|m]; cbn; try done.
  all: intros H; inversion H; subst; auto.
Qed.

Lemma replay_keeps (St : query -> Prop) (Rel : Database -> Database -> Prop) :
  (forall d, Rel d d) ->
  (forall d1 d2 d3, Rel d1 d2 -> Rel d2 d3 -> Rel d1 d3) ->
  (forall qr d, St qr -> Rel d (apply_query qr d)) ->
  forall qs d, Forall St qs -> Rel d (replay qs d).
Proof.
  intros Hrefl Htrans Hstep qs. induction qs as [|qr qs IH]; intros d Hall.
  - apply Hrefl.
  - inversion Hall; subst. cbn [replay foldl]. eapply Htrans; [by apply Hstep|].
    by apply IH.
Qed.

Lemma confined_keeps {A : Type} St Rq (Rel : Database -> Database -> Prop)
      (m : M A) :
  (forall d, Rel d d) ->
  (forall d1 d2 d3, Rel d1 d2 -> Rel d2 d3 -> Rel d1 d3) ->
  (forall qr d, St qr -> Rel d (apply_query qr d)) ->
  confined St Rq m -> forall w, Rel (db w) (db (m w).2).
Proof.
  intros Hrefl Htrans Hstep Hm w. destruct (Hm w) as (evs & _ & _ & Hs & ->).
  eapply replay_keeps; [done|done|done|]. by apply committed_statements.
Qed.

Lemma state_kept_refl {A : Type} (field : state_row -> A) cid0 d :
  state_kept field cid0 d d.
Proof. intros cid row H. by exists row. Qed.

Lemma state_kept_trans {A : Type} (field : state_row -> A) cid0 d1 d2 d3 :
  state_kept field cid0 d1 d2 -> state_kept field cid0 d2 d3 ->
  state_kept field cid0 d1 d3.
Proof.
  intros H12 H23 cid row H.
  destruct (H12 cid row H) as (row2 & H2 & Hf2 & Hne2).
  destruct (H23 cid row2 H2) as (row3 & H3 & Hf3 & Hne3).
  exists row3. split; [done|]. split; [congruence|].
  intros Hne. by rewrite Hne3, Hne2.
Qed.

Lemma posts_kept_refl cid0 d : posts_kept cid0 d d.
Proof. by split. Qed.

Lemma posts_kept_trans cid0 d1 d2 d3 :
  posts_kept cid0 d1 d2 -> posts_kept cid0 d2 d3 -> posts_kept cid0 d1 d3.
Proof.
  intros [Ha1 Hb1] [Ha2 Hb2]. split; [by auto|].
  intros cid tid Hne. by rewrite Hb2, Hb1.
Qed.

Lemma pages_frame_refl {A : Type} (field : state_row -> A) cid0 d :
  pages_frame field cid0 d d.
Proof.
  split; [apply state_kept_refl|]. split; [apply posts_kept_refl|done].
Qed.

Lemma pages_frame_trans {A : Type} (field : state_row -> A) cid0 d1 d2 d3 :
  pages_frame field cid0 d1 d2 -> pages_frame field cid0 d2 d3 ->
  pages_frame field cid0 d1 d3.
Proof.
  intros (Hs1 & Hp1 & Hm1 & Hu1 & Hc1) (Hs2 & Hp2 & Hm2 & Hu2 & Hc2).
  split; [by eapply state_kept_trans|]. split; [by eapply posts_kept_trans|].
  by rewrite Hm2, Hu2, Hc2.
Qed.

(** The statements on the sync state of [cid0], but for the one that
    writes the field read by [field]. *)
Lemma state_kept_ensure {A : Type} (field : state_row -> A) cid0 d :
  state_kept field cid0 d (apply_query (QEnsureStateRow cid0) d).
Proof.
  cbn [apply_query]. destruct (ingest_state d !! cid0) eqn:Hrow.
  - apply state_kept_refl.
  - intros cid row H. exists row. cbn.
    rewrite lookup_insert_ne; [done|]. by intros ->; rewrite Hrow in H.
Qed.

Lemma state_kept_alter {A : Type} (field : state_row -> A) cid0 d d'
      (f : state_row -> state_row) :
  (forall row, field (f row) = field row) ->
  ingest_state d' = alter f cid0 (ingest_state d) ->
  state_kept field cid0 d d'.
Proof.
  intros Hf Hd cid row H. rewrite Hd. destruct (decide (cid = cid0)) as [->|Hne].
  - exists (f row). rewrite lookup_alter_eq, H. by repeat split.
  - exists row. by rewrite lookup_alter_ne.
Qed.

Lemma posts_kept_upsert cid0 tid row d :
  posts_kept cid0 d (apply_query (QUpsertCommunityTweet cid0 tid row) d).
Proof.
  split; cbn.
  - intros k Hk. apply lookup_insert_is_Some.
    destruct (decide ((cid0, tid) = k)); auto.
  - intros cid tid' Hne. apply lookup_insert_ne. congruence.
Qed.

Lemma pages_frame_step {A : Type} (field : state_row -> A) cid0 qr d :
  match qr with
  | QEnsureStateRow c | QSelectState c | QUpsertCommunityTweet c _ _ => c = cid0
  | QSetBackfillCursor c v =>
      c = cid0 /\ forall row, field (mkStateRow v (last_seen_tweet_id row)) = field row
  | QSetLastSeenTweetId c v =>
      c = cid0 /\ forall row, field (mkStateRow (backfill_cursor row) v) = field row
  | _ => False
  end ->
  pages_frame field cid0 d (apply_query qr d).
Proof.
  destruct qr as [|c|c|c v|c v|c tid row| | | | |]; try done.
  - intros ->. split; [apply state_kept_ensure|].
    cbn [apply_query]. by destruct (ingest_state d !! cid0).
  - intros ->. apply pages_frame_refl.
  - intros [-> Hf]. split; [|done].
    eapply state_kept_alter; [|reflexivity]. exact Hf.
  - intros [-> Hf]. split; [|done].
    eapply state_kept_alter; [|reflexivity]. exact Hf.
  - intros ->. split; [intros cid r H; by exists r|].
    split; [apply posts_kept_upsert|done].
Qed.

(** ** Counting the requests of a run *)

Lemma calls_app acts1 acts2 : calls (acts1 ++ acts2) = calls acts1 ++ calls acts2.
Proof. apply omap_app. Qed.

Lemma run_requests acts : forall w,
  exists evs, trace (run acts w) = trace w ++ evs /\ requests evs = calls acts.
Proof.
  induction acts as [|a acts IH]; intros w.
  - exists []. cbn. by rewrite app_nil_r.
  - change (run (a :: acts) w) with (run acts (act a w)).
    destruct (IH (act a w)) as (evs & Ht & Hr).
    assert (exists evs0, trace (act a w) = trace w ++ evs0 /\
                         requests evs0 = calls [a]) as (evs0 & Ht0 & Hr0).
    { destruct a as [line|m|ms|path sp|qr]; cbn [act].
      - exists []. cbn. by rewrite app_nil_r.
      - by exists [EvThrow m].
      - by exists [EvSleep ms].
      - destruct (pace_trace w) as (pre & Hpre & Hshape & _).
        destruct (fetch_trace path sp (_pace cfg w).2) as (post & Hpost & Hp & _).
        eexists. rewrite Hpost, Hpre, <- app_assoc. split; [done|].
        by destruct Hshape as [->|[ms ->]], Hp as [->|[m ->]].
      - destruct (q_trace qr w) as [(rows & Ht0 & _)|(m & Ht0 & _)];
          eexists; (split; [exact Ht0|done]). }
    exists (evs0 ++ evs). rewrite Ht, Ht0, requests_app, Hr0, Hr, <- app_assoc.
    split; [done|]. by destruct a.
Qed.

Lemma quiet_calls St acts :
  Forall (allowed St (fun _ _ => False)) acts -> calls acts = [].
Proof.
  induction acts as [|a acts IH]; [done|]. intros H. inversion H; subst.
  destruct a; cbn in *; try done; by apply IH.
Qed.

Lemma within_quiet {A : Type} St (m : M A) :
  performs St (fun _ _ => False) m -> within 0 m.
Proof.
  intros Hm w. eapply wp_mono; [apply Hm|]. intros _ w' (acts & -> & H).
  exists acts. split; [done|]. by rewrite (quiet_calls St).
Qed.

Lemma within_weaken {A : Type} n n' (m : M A) :
  (n <= n')%nat -> within n m -> within n' m.
Proof.
  intros Hle Hm w. eapply wp_mono; [apply Hm|]. intros _ w' (acts & -> & H).
  exists acts. split; [done|lia].
Qed.

Lemma within_after {A : Type} n0 n (m : M A) acts0 w0 w :
  w = run acts0 w0 -> (length (calls acts0) <= n0)%nat ->
  within n m ->
  wp m (fun _ w' => exists acts, w' = run acts w0 /\
                                 (length (calls acts) <= n0 + n)%nat) w.
Proof.
  intros -> H0 Hm. eapply wp_mono; [apply Hm|].
  intros _ w' (acts & -> & H). exists (acts0 ++ acts).
  rewrite run_app, calls_app, length_app. split; [done|lia].
Qed.

Lemma within_bind {A B : Type} n1 n2 (m : M A) (k : A -> M B) :
  within n1 m -> (forall a, within n2 (k a)) -> within (n1 + n2) (bind m k).
Proof.
  intros Hm Hk w. wp_step. eapply wp_mono; [apply Hm|].
  intros [a|e] w1 (acts1 & Hw1 & H1).
  - by eapply within_after.
  - exists acts1. split; [done|lia].
Qed.

Lemma within_bind_quiet {A B : Type} n (m : M A) (k : A -> M B) :
  within 0 m -> (forall a, within n (k a)) -> within n (bind m k).
Proof. intros Hm Hk. by apply (within_bind 0 n). Qed.

Lemma within_bind_last {A B : Type} n (m : M A) (k : A -> M B) :
  within n m -> (forall a, within 0 (k a)) -> within n (bind m k).
Proof.
  intros Hm Hk. apply (within_weaken (n + 0)); [lia|]. by apply within_bind.
Qed.

Lemma within_if {A : Type} n (b : bool) (m1 m2 : M A) :
  within n m1 -> within n m2 -> within n (if b then m1 else m2).
Proof. by destruct b. Qed.

(** The loop of [get] makes one request, and one more for each retry
    left. *)
Lemma within_get_loop path sp retries fuel : forall attempt w0,
  retries - attempt <= Z.of_nat fuel ->
  wp (get_loop cfg path sp retries fuel attempt)
     (fun _ w' =>
        exists acts,
          w' = run acts w0 /\
          (length (calls acts) <= S (Z.to_nat (retries - attempt)))%nat)
     (_pace cfg w0).2.
Proof.
  pose (St := fun _ : query => False).
  induction fuel as [|fuel IH]; intros attempt w0 Hfuel;
    rewrite get_loop_eq; cbv zeta.
  all: apply wp_bind; apply wp_intro.
  all: pose proof (fetch_outcome path sp (_pace cfg w0).2) as Hout.
  all: assert (run [ARequest path sp] w0 = (fetch path sp (_pace cfg w0).2).2)
         as Hreq by reflexivity.
  all: assert (length (calls [ARequest path sp]) <= 1)%nat as Hone by done.
  all: destruct (fetch path sp (_pace cfg w0).2) as [[res|[m|c|]] w2];
    cbn [fst snd] in *; try done;
    try (eexists; split; [done|cbn; lia]).
  all: apply wp_if; intros Hb.
  all: try (eapply wp_mono;
            [by eapply within_after;
               [| |apply (within_quiet St), performs_finish]|];
            intros _ w' (acts & -> & H); exists acts; split; [done|lia]).
  all: apply andb_true_iff in Hb as [_ Hb]; apply Z.leb_le in Hb.
  - lia.
  - apply wp_bind.
    eapply wp_mono;
      [by eapply within_after;
         [| |apply (within_quiet St), performs_warn_429]|].
    intros [[]|e] w3 (acts3 & -> & H3); [|exists acts3; split; [done|lia]].
    apply wp_bind.
    eapply wp_mono;
      [by eapply within_after; [| |apply (within_quiet St), performs_sleep]|].
    intros [[]|e] w4 (acts4 & -> & H4); [|exists acts4; split; [done|lia]].
    apply wp_bind. apply wp_intro. rewrite pace_ok.
    eapply wp_mono; [apply IH; lia|].
    intros _ w' (acts & -> & H). exists (acts4 ++ acts).
    rewrite run_app, calls_app, length_app. cbn in H3, H4.
    split; [done|lia].
Qed.

Lemma within_get path params retries :
  within (S (Z.to_nat retries)) (get cfg path params retries).
Proof.
  intros w. unfold get. apply wp_bind. apply wp_if; intros _.
  - wp_step. exists [ALog "FATAL: No TWITTERAPI_IO_KEY"]. split; [done|cbn; lia].
  - wp_step. apply wp_bind. apply wp_intro. rewrite pace_ok.
    eapply wp_mono; [apply within_get_loop; lia|].
    intros _ w' (acts & -> & H). exists acts. split; [done|lia].
Qed.

Lemma within_requests {A : Type} n (m : M A) w :
  within n m ->
  exists evs,
    trace (m w).2 = trace w ++ evs /\ (length (requests evs) <= n)%nat.
Proof.
  intros Hm. destruct (wp_elim _ _ _ (Hm w)) as (acts & -> & Hn).
  destruct (run_requests acts w) as (evs & Ht & Hr). exists evs.
  by rewrite Hr.
Qed.

Ltac quiet_within St :=
  eapply within_weaken;
  [|apply (within_quiet St);
    unfold setBackfillCursor, setLastSeenTweetId; auto 10 with footprint];
  lia.

Lemma within_backfill_pages cid cutoffTs n : forall page cursor total,
  within (7 * n) (backfill_pages cid cutoffTs n page cursor total).
Proof.
  induction n as [|n IH]; intros page cursor total; cbn [backfill_pages].
  - quiet_within (backfill_statement cid).
  - eapply within_weaken; [|apply (within_bind 7 (7 * n))];
      [lia|apply within_get|].
    intros data. cbv zeta.
    apply within_bind_quiet;
      [apply (within_quiet (backfill_statement cid)), performs_backfill_scan|].
    intros [[thisPage total'] reached].
    apply within_bind_quiet; [quiet_within (backfill_statement cid)|]. intros _.
    repeat apply within_if; try quiet_within (backfill_statement cid).
    apply within_bind_quiet; [quiet_within (backfill_statement cid)|]. intros _.
    apply IH.
Qed.

Lemma within_backfill :
  within (7 * Z.to_nat (BACKFILL_PAGES_PER_RUN cfg)) backfill.
Proof.
  unfold backfill. cbv zeta.
  apply within_bind_quiet; [quiet_within (backfill_statement (COMMUNITY_ID cfg))|].
  intros _.
  apply within_bind_quiet; [quiet_within (backfill_statement (COMMUNITY_ID cfg))|].
  intros state.
  apply within_bind_quiet; [quiet_within (backfill_statement (COMMUNITY_ID cfg))|].
  intros stored.
  apply within_bind_quiet; [quiet_within (backfill_statement (COMMUNITY_ID cfg))|].
  intros t. apply within_backfill_pages.
Qed.

Lemma within_ingest_pages cid stopId n :
  forall page cursor newLastSeen inserted,
  within (7 * n) (ingest_pages cid stopId n page cursor newLastSeen inserted).
Proof.
  induction n as [|n IH]; intros page cursor newLastSeen inserted;
    cbn [ingest_pages].
  - quiet_within (ingest_statement cid).
  - eapply within_weaken; [|apply (within_bind 7 (7 * n))];
      [lia|apply within_get|].
    intros data. cbv zeta.
    apply within_bind_quiet;
      [apply (within_quiet (ingest_statement cid)), performs_ingest_scan|].
    intros [inserted' stopped].
    apply within_bind_quiet; [quiet_within (ingest_statement cid)|]. intros _.
    repeat apply within_if; try quiet_within (ingest_statement cid).
    apply IH.
Qed.

Lemma within_ingestNew : within (7 * Z.to_nat (TOP_PAGES cfg)) ingestNew.
Proof.
  unfold ingestNew. cbv zeta.
  apply within_bind_quiet; [quiet_within (ingest_statement (COMMUNITY_ID cfg))|].
  intros _.
  apply within_bind_quiet; [quiet_within (ingest_statement (COMMUNITY_ID cfg))|].
  intros state.
  apply within_bind_quiet; [quiet_within (ingest_statement (COMMUNITY_ID cfg))|].
  intros stored.
  apply within_bind_last; [apply within_ingest_pages|].
  intros newLastSeen. quiet_within (ingest_statement (COMMUNITY_ID cfg)).
Qed.

Lemma within_doctor : within 7 doctor.
Proof.
  unfold doctor. cbv zeta.
  apply within_bind_quiet; [quiet_within doctor_statement|]. intros _.
  apply within_bind_quiet; [quiet_within doctor_statement|]. intros _.
  apply within_bind_last; [apply within_get|]. intros data.
  quiet_within doctor_statement.
Qed.

(** The requests of one call of the client. *)
Lemma get_requests_shape path params retries w :
  exists evs,
    trace (get cfg path params retries w).2 = trace w ++ evs /\
    Forall (fun r => r = (path, search_params params)) (requests evs) /\
    statements evs = [] /\
    (length (requests evs) <= S (Z.to_nat retries))%nat /\
    if String.eqb (API_KEY cfg) EmptyString
    then evs = [] /\ (get cfg path params retries w).1 = Abort (Exited 1)
    else requests evs <> [].
Proof.
  destruct (within_requests _ _ w (within_get path params retries))
    as (evs & Ht & Hn).
  exists evs. split; [done|].
  destruct (performs_confined
              (fun _ => False)
              (fun p sp => p = path /\ sp = search_params params)
              _ (performs_get _ _ path params retries (conj eq_refl eq_refl)) w)
    as (evs' & Ht' & Hr & Hs & _).
  rewrite Ht in Ht'. apply app_inv_head in Ht' as <-.
  split; [|split; [|split; [done|]]].
  { eapply Forall_impl; [exact Hr|]. intros [p sp] [Hp Hsp]. cbn in *. congruence. }
  { destruct (statements evs); [done|]. by inversion Hs. }
  destruct (String.eqb (API_KEY cfg) EmptyString) eqn:Hkey.
  - unfold get in *. rewrite Hkey in *. cbn in Ht |- *.
    split; [|done]. apply (app_inv_head (trace w)). by rewrite app_nil_r.
  - apply String.eqb_neq in Hkey.
    destruct (wp_elim _ _ _ (get_effect path params retries w))
      as (Hexit & evs' & lines & Ht' & _ & _ & _ & Hend & _).
    rewrite Ht in Ht'. apply app_inv_head in Ht' as <-.
    destruct (get cfg path params retries w).1 as [data|[m|c|]];
      cbn [get_ends] in Hend.
    + destruct Hend as (evs0 & t & res & -> & _). rewrite requests_app.
      cbn. by destruct (requests evs0).
    + destruct Hend as (evs0 & -> & _ & t & ex & Hin).
      apply list_elem_of_split in Hin as (l1 & l2 & ->).
      rewrite !requests_app. cbn. by destruct (requests l1).
    + by destruct (Hexit Hkey c).
    + done.
Qed.

(** X8: a call of the client sends at least one request and at
    most one more than the retry bound, all of them to the same path
    with the same query string, and no statement; without an API key
    it sends no request and ends the process. *)
Theorem get_requests_bounded path params retries w :
  exists evs,
    trace (get cfg path params retries w).2 = trace w ++ evs /\
    Forall (fun r => r = (path, search_params params)) (requests evs) /\
    statements evs = [] /\
    (length (requests evs) <= S (Z.to_nat retries))%nat /\
    if String.eqb (API_KEY cfg) EmptyString
    then evs = [] /\ (get cfg path params retries w).1 = Abort (Exited 1)
    else requests evs <> [].
Proof. apply get_requests_shape. Qed.

(** X9: a run of [backfill] sends at most seven requests for each
    of the pages it may take in a run, a run of [ingestNew] at most
    seven for each of its top pages, and [doctor] at most seven;
    with a page bound of zero or less no request is sent at all. *)
Theorem page_drivers_bounded w :
  (exists evs,
      trace (backfill w).2 = trace w ++ evs /\
      (length (requests evs) <= 7 * Z.to_nat (BACKFILL_PAGES_PER_RUN cfg))%nat) /\
  (exists evs,
      trace (ingestNew w).2 = trace w ++ evs /\
      (length (requests evs) <= 7 * Z.to_nat (TOP_PAGES cfg))%nat) /\
  (exists evs,
      trace (doctor w).2 = trace w ++ evs /\ (length (requests evs) <= 7)%nat).
Proof.
  split; [apply within_requests, within_backfill|].
  split; [apply within_requests, within_ingestNew|].
  apply within_requests, within_doctor.
Qed.

(** ** Footprints of the drivers *)

(** X10: whatever the API and the database answer, each driver
    calls only its own endpoint (the page endpoints with the configured
    community) and sends only its own statements; the database it
    leaves is the one it found with the statements that succeeded
    applied in order. *)
Theorem drivers_confined :
  let cid := COMMUNITY_ID cfg in
  confined (backfill_statement cid)
           (page_request "/twitter/community/tweets" cid) backfill /\
  confined (ingest_statement cid)
           (page_request "/twitter/community/tweets" cid) ingestNew /\
  (forall hours all,
      confined (metrics_statement cid) tweets_request
               (refreshMetrics hours all)) /\
  (forall hours,
      confined (users_statement cid) user_request (refreshUsers hours)) /\
  confined (members_statement cid)
           (page_request "/twitter/community/members" cid) syncMembers /\
  confined doctor_statement
           (page_request "/twitter/community/tweets" cid) doctor.
Proof.
  cbv zeta.
  split; [apply performs_confined, performs_backfill|].
  split; [apply performs_confined, performs_ingestNew|].
  split; [intros; apply performs_confined, performs_refreshMetrics|].
  split; [intros; apply performs_confined, performs_refreshUsers|].
  split; [apply performs_confined, performs_syncMembers|].
  apply performs_confined, performs_doctor.
Qed.

(** X11: the two page drivers do not disturb each other: a run
    of [backfill] keeps the watermark of every community and a run of
    [ingestNew] keeps every backfill cursor; neither removes a post,
    touches the state or the posts of another community, or writes to
    the metrics, users and members tables. *)
Theorem sync_state_independent w :
  pages_frame last_seen_tweet_id (COMMUNITY_ID cfg) (db w) (db (backfill w).2) /\
  pages_frame backfill_cursor (COMMUNITY_ID cfg) (db w) (db (ingestNew w).2).
Proof.
  split.
  - eapply confined_keeps;
      [apply pages_frame_refl|apply pages_frame_trans|
       |apply performs_confined, performs_backfill].
    intros qr d Hqr. apply pages_frame_step. destruct qr; cbn in *; done.
  - eapply confined_keeps;
      [apply pages_frame_refl|apply pages_frame_trans|
       |apply performs_confined, performs_ingestNew].
    intros qr d Hqr. apply pages_frame_step. destruct qr; cbn in *; done.
Qed.

(** X12: [refreshMetrics] changes no table but the metrics,
    [refreshUsers] no table but the users, [syncMembers] only the users
    and the memberships of the configured community, and [doctor]
    leaves the database as it is. *)
Theorem refresh_drivers_tables w :
  (forall hours all,
      let d' := db (refreshMetrics hours all w).2 in
      ingest_state d' = ingest_state (db w) /\
      community_tweets d' = community_tweets (db w) /\
      users d' = users (db w) /\
      community_members d' = community_members (db w)) /\
  (forall hours,
      let d' := db (refreshUsers hours w).2 in
      ingest_state d' = ingest_state (db w) /\
      community_tweets d' = community_tweets (db w) /\
      tweet_metrics_latest d' = tweet_metrics_latest (db w) /\
      community_members d' = community_members (db w)) /\
  members_frame (COMMUNITY_ID cfg) (db w) (db (syncMembers w).2) /\
  db (doctor w).2 = db w.
Proof.
  split; [intros hours all|split; [intros hours|split]]; cbv zeta.
  - eapply (confined_keeps
              (metrics_statement (COMMUNITY_ID cfg)) tweets_request
              (fun d d' => ingest_state d' = ingest_state d /\
                           community_tweets d' = community_tweets d /\
                           users d' = users d /\
                           community_members d' = community_members d));
      [done| | |apply performs_confined, performs_refreshMetrics].
    + by intros d1 d2 d3 (-> & -> & -> & ->) (-> & -> & -> & ->).
    + by intros [] d.
  - eapply (confined_keeps
              (users_statement (COMMUNITY_ID cfg)) user_request
              (fun d d' => ingest_state d' = ingest_state d /\
                           community_tweets d' = community_tweets d /\
                           tweet_metrics_latest d' = tweet_metrics_latest d /\
                           community_members d' = community_members d));
      [done| | |apply performs_confined, performs_refreshUsers].
    + by intros d1 d2 d3 (-> & -> & -> & ->) (-> & -> & -> & ->).
    + by intros [] d.
  - eapply (confined_keeps
              (members_statement (COMMUNITY_ID cfg))
              (page_request "/twitter/community/members" (COMMUNITY_ID cfg))
              (members_frame (COMMUNITY_ID cfg)));
      [done| | |apply performs_confined, performs_syncMembers].
    + intros d1 d2 d3 (Ha1 & Hb1 & Hc1 & H1) (Ha2 & Hb2 & Hc2 & H2).
      split_and!; [congruence..|]. intros cid uid Hne. by rewrite H2, H1.
    + intros [] d; try done; cbn; intros ->; split_and!; try done.
      intros cid uid Hne. apply lookup_insert_ne. congruence.
  - symmetry.
    eapply (confined_keeps
              doctor_statement
              (page_request "/twitter/community/tweets" (COMMUNITY_ID cfg))
              (fun d d' => d = d'));
      [done|by intros d1 d2 d3 -> ->| |apply performs_confined, performs_doctor].
    by intros qr d ->.
Qed.


(** ** A run of ingest-new that fails *)

Lemma performs_keeps {A : Type} St Rq (Rel : Database -> Database -> Prop)
      (m : M A) :
  (forall d, Rel d d) ->
  (forall d1 d2 d3, Rel d1 d2 -> Rel d2 d3 -> Rel d1 d3) ->
  (forall qr d, St qr -> Rel d (apply_query qr d)) ->
  performs St Rq m -> forall w, wp m (fun _ w' => Rel (db w) (db w')) w.
Proof.
  intros Hrefl Htrans Hstep Hm w. eapply wp_mono; [apply Hm|].
  intros _ w' (acts & -> & Hall).
  destruct (journal_run St Rq acts w Hall) as (evs & _ & _ & Hs & ->).
  eapply replay_keeps; [done|done|done|]. by apply committed_statements.
Qed.

(** X14: the watermark moves only at the end of a run of
    [ingestNew] that succeeds: when the run ends by an exception or by
    an exit, the sync state rows are left as the run found them. *)
Theorem ingestNew_failure_keeps_state w e :
  (ingestNew w).1 = Abort e ->
  forall cid row,
    ingest_state (db w) !! cid = Some row ->
    ingest_state (db (ingestNew w).2) !! cid = Some row.
Proof.
  set (Rel := fun d d' : Database =>
                forall cid row, ingest_state d !! cid = Some row ->
                                ingest_state d' !! cid = Some row).
  intros Habort.
  enough (wp ingestNew
             (fun r w' => (exists e, r = Abort e) -> Rel (db w) (db w')) w) as H.
  { apply wp_elim in H. apply H. by exists e. }
  unfold ingestNew. cbv zeta. wp_step. wp_step; wp_step; [by intros _ cid row|].
  wp_step.
  eapply wp_mono;
    [apply (performs_keeps
              (fun qr => qr = QEnsureStateRow (COMMUNITY_ID cfg) \/
                         qr = QSelectState (COMMUNITY_ID cfg))
              (fun _ _ => False) Rel)|].
  - by intros d cid row.
  - intros d1 d2 d3 H12 H23 cid row Hrow. by apply H23, H12.
  - intros qr d [->| ->] cid row Hrow; [|done]. cbn.
    destruct (ingest_state d !! COMMUNITY_ID cfg) eqn:Hcid; [done|]. cbn.
    rewrite lookup_insert_ne; [done|]. intros <-. by rewrite Hcid in Hrow.
  - apply performs_getState; [by left|by right].
  - intros [state|e1] w1 H1; [|done].
    wp_step. apply wp_state_field; [|done]. intros stored.
    wp_step. eapply wp_mono; [apply ingest_pages_effect|].
    intros [newLastSeen|e2] w2 (evs & _ & _ & Hstate & _).
    + wp_step.
      * unfold setLastSeenTweetId. wp_step. apply wp_q.
        destruct (default _ _) as [rows|message].
        -- wp_step. by intros [e' He'].
        -- intros _ cid row Hrow. wsimpl. rewrite Hstate. by apply H1.
      * wp_step. by intros [e' He'].
    + intros _ cid row Hrow. rewrite Hstate. by apply H1.
Qed.

(** ** Where a run of backfill starts *)

(** The first request of a call of the client, and of what follows
    it. *)
Lemma get_first_request path params retries w :
  API_KEY cfg <> EmptyString ->
  wp (get cfg path params retries)
     (fun _ w' =>
        exists evs,
          trace w' = trace w ++ evs /\
          head (requests evs) = Some (path, search_params params)) w.
Proof.
  intros Hkey. apply wp_intro.
  destruct (get_requests_shape path params retries w)
    as (evs & Ht & Hall & _ & _ & Hne).
  apply String.eqb_neq in Hkey. rewrite Hkey in Hne. exists evs.
  split; [done|]. destruct (requests evs) as [|r rs]; [done|].
  by inversion Hall; subst.
Qed.

Lemma first_request_bind {A B : Type} St Rq (m : M A) (k : A -> M B) r w :
  wp m (fun _ w' => exists evs, trace w' = trace w ++ evs /\
                                head (requests evs) = Some r) w ->
  (forall a, performs St Rq (k a)) ->
  wp (bind m k) (fun _ w' => exists evs, trace w' = trace w ++ evs /\
                                         head (requests evs) = Some r) w.
Proof.
  intros Hm Hk. wp_step. eapply wp_mono; [exact Hm|].
  intros [a|e] w1 (evs & Ht & Hhead); [|by exists evs].
  eapply wp_mono; [apply Hk|]. intros _ w' (acts & -> & Hall).
  destruct (journal_run St Rq acts w1 Hall) as (evs2 & Ht2 & _).
  exists (evs ++ evs2). rewrite Ht2, Ht, app_assoc, requests_app.
  split; [done|]. by destruct (requests evs).
Qed.


(** With a community configured and the database answering, a run of
    [backfill] is its page loop, started at the stored cursor in the
    state the two statements of [getState] leave. *)
Lemma backfill_answered w :
  COMMUNITY_ID cfg <> EmptyString ->
  db_up w ->
  let cid := COMMUNITY_ID cfg in
  let stored :=
    match ingest_state (db w) !! cid with
    | Some row => backfill_cursor row
    | None => None
    end in
  let w2 := answered (QSelectState cid) (answered (QEnsureStateRow cid) w) in
  backfill w =
  backfill_pages cid
    (if 0 <? BACKFILL_CUTOFF_DAYS cfg
     then Some (now w2 - BACKFILL_CUTOFF_DAYS cfg * 24 * 3600 * 1000)
     else None)
    (Z.to_nat (BACKFILL_PAGES_PER_RUN cfg)) 1 (js_or (of_column stored) JNull) 0
    w2.
Proof.
  intros Hcid Hup cid stored w2.
  unfold backfill. cbv zeta. fold cid.
  apply String.eqb_neq in Hcid. fold cid in Hcid. rewrite Hcid.
  unfold bind at 1. cbn [ret]. unfold bind at 1.
  rewrite (getState_answered cid w Hup). fold w2.
  assert (ingest_state (apply_query (QEnsureStateRow cid) (db w)) !! cid =
          Some (mkStateRow stored
                  (match ingest_state (db w) !! cid with
                   | Some row => last_seen_tweet_id row
                   | None => None
                   end))) as ->.
  { cbn. unfold stored.
    destruct (ingest_state (db w) !! cid) as [[c s]|] eqn:Hrow.
    - by rewrite Hrow.
    - cbn. by rewrite lookup_insert_eq. }
  reflexivity.
Qed.

(** X15: a run of [backfill] resumes where the last one stopped:
    its first request asks for the page of the stored cursor, and for
    the first page when the cursor is null or empty or the community
    has no state row yet. *)
Theorem backfill_resumes_from_cursor w :
  COMMUNITY_ID cfg <> EmptyString ->
  API_KEY cfg <> EmptyString ->
  0 < BACKFILL_PAGES_PER_RUN cfg ->
  db_up w ->
  let stored :=
    match ingest_state (db w) !! COMMUNITY_ID cfg with
    | Some row => backfill_cursor row
    | None => None
    end in
  exists evs,
    trace (backfill w).2 = trace w ++ evs /\
    head (requests evs) =
      Some ("/twitter/community/tweets",
            ("community_id", COMMUNITY_ID cfg)
              :: match stored with
                 | Some c => if String.eqb c EmptyString then [] else [("cursor", c)]
                 | None => []
                 end).
Proof.
  intros Hcid Hkey Hpages Hup stored.
  set (cid := COMMUNITY_ID cfg) in *.
  set (cursor := js_or (of_column stored) JNull).
  assert (search_params [("community_id", JStr cid); ("cursor", cursor)] =
          ("community_id", cid)
            :: match stored with
               | Some c => if String.eqb c EmptyString then [] else [("cursor", c)]
               | None => []
               end) as Hsp.
  { unfold search_params, cursor. cbn.
    destruct cid as [|a s]; [done|]. by destruct stored as [[|b c]|]. }
  rewrite <- Hsp.
  set (w2 := answered (QSelectState cid) (answered (QEnsureStateRow cid) w)).
  assert (wp (backfill_pages cid
                (if 0 <? BACKFILL_CUTOFF_DAYS cfg
                 then Some (now w2 - BACKFILL_CUTOFF_DAYS cfg * 24 * 3600 * 1000)
                 else None)
                (Z.to_nat (BACKFILL_PAGES_PER_RUN cfg)) 1 cursor 0)
             (fun _ w' =>
                exists evs,
                  trace w' = trace w2 ++ evs /\
                  head (requests evs) =
                    Some ("/twitter/community/tweets",
                          search_params [("community_id", JStr cid);
                                         ("cursor", cursor)])) w2) as Hpagesrun.
  { destruct (Z.to_nat (BACKFILL_PAGES_PER_RUN cfg)) as [|n] eqn:Hn; [lia|].
    cbn [backfill_pages].
    eapply (first_request_bind
              (backfill_statement cid)
              (page_request "/twitter/community/tweets" cid));
      [by apply get_first_request|].
    intros data. cbv zeta. unfold setBackfillCursor.
    apply performs_bind; [apply performs_backfill_scan|].
    intros [[thisPage total'] reached].
    auto 12 using performs_backfill_pages with footprint. }
  apply wp_elim in Hpagesrun as (evs & Ht & Hhead).
  rewrite (backfill_answered w Hcid Hup). fold cid stored cursor w2.
  exists ([EvQuery (QEnsureStateRow cid) (default (DbOk []) (head (dbs w)));
           EvQuery (QSelectState cid)
                   (default (DbOk []) (head (dbs (answered (QEnsureStateRow cid) w))))]
            ++ evs).
  rewrite Ht. split; [|done]. unfold w2, answered. cbn [trace].
  by rewrite <- !app_assoc.
Qed.

(** ** Pages that end a run *)

(** Where the first element that satisfies [P] stands in a list. *)
Lemma split_first {A : Type} (P : A -> bool) l1 x l2 : forall pre y post,
  Forall (fun e => P e = false) l1 -> P y = true ->
  l1 ++ x :: l2 = pre ++ y :: post ->
  (pre = l1 /\ y = x /\ post = l2) \/
  (exists k, pre = l1 ++ x :: k /\ l2 = k ++ y :: post).
Proof.
  induction l1 as [|a l1 IH]; intros pre y post H1 Hy Heq.
  - destruct pre as [|p pre]; simpl in Heq.
    + injection Heq as -> ->. by left.
    + injection Heq as -> ->. right. by exists pre.
  - apply Forall_cons in H1 as [Ha H1].
    destruct pre as [|p pre]; simpl in Heq.
    + injection Heq as -> _. congruence.
    + injection Heq as -> Heq.
      destruct (IH pre y post H1 Hy Heq) as [(-> & -> & ->)|(k & -> & ->)].
      * by left.
      * right. by exists k.
Qed.

Lemma first_hit_unique {A : Type} (P : A -> bool) a x b a' x' b' :
  a ++ x :: b = a' ++ x' :: b' ->
  Forall (fun e => P e = false) a -> P x = true ->
  Forall (fun e => P e = false) a' -> P x' = true ->
  a' = a /\ x' = x /\ b' = b.
Proof.
  intros Heq Ha Hx Ha' Hx'.
  destruct (split_first P a x b a' x' b' Ha Hx' Heq) as [?|(k & -> & _)]; [done|].
  apply Forall_app in Ha' as [_ Ha']. apply Forall_cons in Ha' as [Ha' _].
  congruence.
Qed.

Lemma no_hit {A : Type} (P : A -> bool) l pre y post :
  Forall (fun e => P e = false) l -> l = pre ++ y :: post -> P y = true -> False.
Proof.
  intros Hl -> Hy. apply Forall_app in Hl as [_ Hl].
  apply Forall_cons in Hl as [Hl _]. congruence.
Qed.

Lemma unserved_app l1 l2 : unserved l1 -> unserved l2 -> unserved (l1 ++ l2).
Proof. intros H1 H2. by apply Forall_app. Qed.

Lemma upserts_unserved communityId tws evs :
  Forall2 (upsert_event communityId) tws evs -> unserved evs.
Proof. induction 1 as [|tw e tws evs [rows ->] _ IH]; by constructor. Qed.

Lemma served_not_429 res : served res = true -> (status res =? 429) = false.
Proof.
  intros [Hok _]%andb_true_iff. apply Z.eqb_neq. unfold ok in Hok.
  apply andb_true_iff in Hok as [_ H%Z.leb_le]. lia.
Qed.

(** A response the client does not retry: when it is served the call
    returns its body, otherwise the call throws. *)
Lemma finish_answers res path sp t pre w :
  unserved pre ->
  wp (finish res path)
     (fun r w' =>
        exists evs,
          trace w' = trace w ++ evs /\
          match r with
          | Ok data =>
              exists evs0 t' res',
                pre ++ EvFetch t path sp (Some res) :: evs =
                evs0 ++ [EvFetch t' path sp (Some res')] /\
                served res' = true /\ data = parse_body (res_body res') /\
                unserved evs0
          | Abort _ => unserved (pre ++ EvFetch t path sp (Some res) :: evs)
          end) w.
Proof.
  intros Hpre. apply wp_finish. unfold unserved.
  destruct (negb (ok res)) eqn:Hok.
  { apply negb_true_iff in Hok. eexists. split; [reflexivity|].
    apply Forall_app. split; [done|]. repeat constructor.
    cbn. unfold served. by rewrite Hok. }
  apply negb_false_iff in Hok.
  destruct (truthy _ && negb _) eqn:Hst.
  { eexists. split; [reflexivity|].
    apply Forall_app. split; [done|]. repeat constructor.
    cbn. unfold served. by rewrite Hok, Hst. }
  exists []. rewrite app_nil_r. split; [done|].
  exists pre, t, res. split_and!; try done.
  unfold served. by rewrite Hok, Hst.
Qed.

(** Of the requests of one call of the client, only the last can be
    served, and it is when the call returns. *)
Lemma get_loop_answers path sp retries fuel : forall attempt w,
  retries - attempt <= Z.of_nat fuel ->
  wp (get_loop cfg path sp retries fuel attempt)
     (fun r w' =>
        exists evs,
          trace w' = trace w ++ evs /\
          match r with
          | Ok data =>
              exists evs0 t res,
                evs = evs0 ++ [EvFetch t path sp (Some res)] /\
                served res = true /\ data = parse_body (res_body res) /\
                unserved evs0
          | Abort _ => unserved evs
          end) w.
Proof.
  induction fuel as [|fuel IH]; intros attempt w Hfuel;
    rewrite get_loop_eq; cbv zeta.
  all: unfold fetch; repeat wp_step.
  all: destruct (mjoin (head (net w))) as [res|] eqn:Hex; repeat wp_step.
  all: try (eexists; rewrite <- app_assoc; split; [reflexivity|];
            by repeat constructor).
  all: try (eapply wp_mono;
            [apply (finish_answers res path sp (now w) []); constructor|];
            intros r w' (evs & Ht & Hend); wsimpl;
            rewrite <- app_assoc in Ht; eexists; split; [exact Ht|];
            exact Hend).
  all: match goal with
       | H : _ && (_ <=? _) = true |- _ =>
           apply andb_true_iff in H as [H429 Hle]; apply Z.leb_le in Hle;
           apply Z.eqb_eq in H429
       end.
  { simpl in Hfuel. lia. }
  assert (served res = false) as Hun.
  { destruct (served res) eqn:Hs; [|done].
    apply served_not_429, Z.eqb_neq in Hs. done. }
  apply wp_warn_429; intros lines; repeat wp_step; apply wp_pace; wsimpl.
  match goal with |- if ?c then _ else _ => destruct c end.
  all: (eapply wp_mono; [apply IH; lia|]).
  all: intros r w' (evs & Ht & Hend); wsimpl.
  all: repeat rewrite <- app_assoc in Ht; simpl in Ht.
  all: eexists; split; [exact Ht|].
  all: destruct r as [data|e].
  all: try (destruct Hend as (evs0 & t & res' & -> & Hs & -> & Hun0)).
  - eexists (_ :: _ :: _ :: evs0), t, res'. split_and!; try done.
    by repeat constructor.
  - by repeat constructor.
  - eexists (_ :: _ :: evs0), t, res'. split_and!; try done.
    by repeat constructor.
  - by repeat constructor.
Qed.

Lemma get_answers path params retries w :
  wp (get cfg path params retries)
     (fun r w' =>
        exists evs,
          trace w' = trace w ++ evs /\
          match r with
          | Ok data =>
              exists evs0 t res,
                evs = evs0 ++ [EvFetch t path (search_params params) (Some res)] /\
                served res = true /\ data = parse_body (res_body res) /\
                unserved evs0
          | Abort _ => unserved evs
          end) w.
Proof.
  unfold get. repeat wp_step.
  { exists []. rewrite app_nil_r. split; [done|constructor]. }
  apply wp_pace. cbv zeta.
  match goal with |- if ?c then _ else _ => destruct c end.
  all: (eapply wp_mono; [apply get_loop_answers; lia|]).
  all: intros r w' (evs & Ht & Hend); wsimpl.
  all: repeat rewrite <- app_assoc in Ht; simpl in Ht.
  all: eexists; split; [exact Ht|].
  all: destruct r as [data|e]; try done.
  - destruct Hend as (evs0 & t & res' & -> & Hs & -> & Hun0).
    eexists (_ :: evs0), t, res'. split_and!; try done. by constructor.
  - by constructor.
Qed.

(** ** backfill: the age cutoff *)

Lemma stops_unserved communityId cutoffTs r w' evs :
  unserved evs -> stops_at_cutoff communityId cutoffTs r w' evs.
Proof.
  intros Hun evs0 t path sp res evs1 pre tK post Heq Hs. exfalso.
  by apply (no_hit is_served_fetch evs evs0 (EvFetch t path sp (Some res)) evs1).
Qed.

Lemma stops_block communityId cutoffTs r w' evs0 t path sp res mid rest :
  unserved evs0 -> unserved mid -> served res = true ->
  (forall pre tK post,
      tweets_of (parse_body (res_body res)) = pre ++ tK :: post ->
      Forall (fun x => reaches_cutoff cutoffTs (normalizeTweet x) = false) pre ->
      reaches_cutoff cutoffTs (normalizeTweet tK) = true ->
      r = Ok tt /\
      (exists ups reply,
          mid ++ rest =
          ups ++ [EvQuery (QSetBackfillCursor communityId None) reply] /\
          reply_ok reply = true /\
          Forall2 (upsert_event communityId) (map normalizeTweet pre) ups) /\
      exists row,
        ingest_state (db w') !! communityId = Some row /\
        backfill_cursor row = None) ->
  stops_at_cutoff communityId cutoffTs r w' rest ->
  stops_at_cutoff communityId cutoffTs r w'
    (evs0 ++ EvFetch t path sp (Some res) :: mid ++ rest).
Proof.
  intros H0 Hmid Hs Hpage Hrest evs0' t' path' sp' res' evs1 pre tK post
         Heq Hs' Htw Hpre HK.
  apply (split_first is_served_fetch) in Heq
      as [(-> & [= -> -> -> ->] & ->)|(k & -> & Heq)]; try done.
  - by apply (Hpage pre tK post).
  - apply app_eq_inv in Heq as [(j & -> & Hj)|(j & -> & ->)].
    + destruct j as [|y j]; simpl in Hj.
      * by apply (Hrest [] t' path' sp' res' evs1 pre tK post).
      * injection Hj as <- _. exfalso.
        apply Forall_app in Hmid as [_ Hmid].
        apply Forall_cons in Hmid as [Hmid _]. cbn in Hmid. congruence.
    + by apply (Hrest j t' path' sp' res' evs1 pre tK post).
Qed.

Lemma db_up_frame w w' : dbs w' = dbs w -> db_up w -> db_up w'.
Proof. unfold db_up. by intros ->. Qed.

(** In a run of the page loop of [backfill] with the database
    answering, the page that holds the first post older than the
    cutoff ends the run. *)
Lemma backfill_pages_stops communityId cutoffTs n : forall page cursor total w,
  db_up w -> is_Some (ingest_state (db w) !! communityId) ->
  wp (backfill_pages communityId cutoffTs n page cursor total)
     (fun r w' =>
        exists evs,
          trace w' = trace w ++ evs /\
          stops_at_cutoff communityId cutoffTs r w' evs) w.
Proof.
  induction n as [|n IH]; intros page cursor total w Hup Hrow;
    cbn [backfill_pages].
  { wp_step. exists []. rewrite app_nil_r. split; [done|].
    apply stops_unserved. constructor. }
  wp_step. unfold getCommunityTweets.
  match goal with
  | |- wp (get cfg ?p ?ps 6) _ _ =>
      pose proof (wp_elim _ _ _ (get_effect p ps 6 w)) as He;
      pose proof (wp_elim _ _ _ (get_answers p ps 6 w)) as Ha;
      apply wp_intro; destruct (get cfg p ps 6 w) as [r w1]
  end.
  cbn [fst snd] in *.
  destruct He as (_ & evsA & _ & HtA & _ & Hd1 & Hs1 & _ & _).
  destruct Ha as (evsA' & HtA' & Hans).
  rewrite HtA in HtA'. apply app_inv_head in HtA'. subst evsA'.
  destruct r as [data|e].
  2: { exists evsA. split; [done|]. by apply stops_unserved. }
  destruct Hans as (evs0 & t & res & -> & Hserved & -> & Hun0).
  assert (db_up w1) as Hup1 by by apply (db_up_frame w).
  wp_step.
  eapply wp_mono; [apply backfill_scan_effect|].
  intros r w2 (evsB & HtB & (_ & _ & _ & Hst2 & Hup2) & Hok & HendB).
  specialize (Hup2 Hup1). destruct (Hok Hup1) as [[[thisPage total'] reached] ->].
  destruct HendB as (kept & Hups & Hkept & -> & -> & Hreached).
  assert (is_Some (ingest_state (db w2) !! communityId)) as Hrow2
      by by rewrite Hst2, Hd1.
  assert (forall c,
             is_Some (ingest_state
                        (apply_query (QSetBackfillCursor communityId c) (db w2))
                        !! communityId)) as Hrow3.
  { intros c. cbn. rewrite lookup_alter_eq. destruct Hrow2 as [row ->]. by eexists. }
  assert (forall c,
             exists row,
               ingest_state
                 (apply_query (QSetBackfillCursor communityId c) (db w2))
                 !! communityId = Some row /\ backfill_cursor row = c) as Hnull.
  { intros c. cbn. rewrite lookup_alter_eq. destruct Hrow2 as [row ->].
    by eexists. }
  assert (forall pre tK post,
             reached = false ->
             tweets_of (parse_body (res_body res)) = pre ++ tK :: post ->
             reaches_cutoff cutoffTs (normalizeTweet tK) = true -> False)
    as Hnone.
  { intros pre tK post -> Htw HK. rewrite Htw, map_app in Hreached.
    rewrite <- Hreached in Hkept. apply Forall_app in Hkept as [_ Hkept].
    apply Forall_cons in Hkept as [Hkept _]. congruence. }
  repeat wp_step.
  - (* the cutoff stopped the scan *)
    subst reached. destruct Hreached as (tw & rest & Hpage & Htw).
    match goal with
    | |- wp (setBackfillCursor _ _) _ ?w3 =>
        destruct (setBackfillCursor_answered communityId JNull w3 Hup2)
          as [Hset Hreply]
    end.
    eapply wp_run; [exact Hset|].
    eexists. split.
    { cbn. rewrite HtB, HtA, <- !app_assoc. cbn. reflexivity. }
    rewrite <- (app_nil_r [EvQuery _ _]), app_assoc.
    apply stops_block; try done.
    + apply unserved_app; [by eapply upserts_unserved|by repeat constructor].
    + intros pre tK post Htweets Hpre HK. split; [done|].
      rewrite Htweets, map_app in Hpage. cbn in Hpage.
      apply (first_hit_unique (reaches_cutoff cutoffTs)) in Hpage
          as (-> & _ & _); try done; [|by apply Forall_map].
      split; [|apply Hnull]. eexists _, _. rewrite app_nil_r.
      split; [reflexivity|]. by split.
    + apply stops_unserved. constructor.
  - (* the last page *)
    match goal with
    | |- wp (setBackfillCursor _ _) _ ?w3 =>
        destruct (setBackfillCursor_answered communityId JNull w3 Hup2)
          as [Hset Hreply]
    end.
    eapply wp_run; [exact Hset|].
    eexists. split.
    { cbn. rewrite HtB, HtA, <- !app_assoc. cbn. reflexivity. }
    rewrite <- (app_nil_r [EvQuery _ _]), app_assoc.
    apply stops_block; try done.
    + apply unserved_app; [by eapply upserts_unserved|by repeat constructor].
    + intros pre tK post Htweets Hpre HK. exfalso. by eapply Hnone.
    + apply stops_unserved. constructor.
  - (* a page with a next page *)
    match goal with
    | |- wp (setBackfillCursor _ ?c) _ ?w3 =>
        destruct (setBackfillCursor_answered communityId c w3 Hup2)
          as [Hset Hreply]
    end.
    eapply wp_run; [exact Hset|]. cbv beta iota.
    eapply wp_mono.
    { apply IH; [by apply answered_db_up|]. cbn [answered db]. apply Hrow3. }
    intros r w' (evsC & HtC & HstopC).
    eexists. split.
    { rewrite HtC. cbn. rewrite HtB, HtA, <- !app_assoc. cbn. reflexivity. }
    change (?a :: evsC) with ([a] ++ evsC). rewrite app_assoc.
    apply stops_block; try done.
    + apply unserved_app; [by eapply upserts_unserved|by repeat constructor].
    + intros pre tK post Htweets Hpre HK. exfalso. by eapply Hnone.
Qed.

Lemma stops_after_unserved communityId cutoffTs r w' l1 l2 :
  unserved l1 ->
  stops_at_cutoff communityId cutoffTs r w' l2 ->
  stops_at_cutoff communityId cutoffTs r w' (l1 ++ l2).
Proof.
  intros H1 H2 evs0 t path sp res evs1 pre tK post Heq Hs.
  apply app_eq_inv in Heq as [(j & -> & Hj)|(j & -> & ->)].
  - destruct j as [|y j]; simpl in Hj.
    + by apply (H2 [] t path sp res evs1 pre tK post).
    + injection Hj as <- _. exfalso.
      apply Forall_app in H1 as [_ H1]. apply Forall_cons in H1 as [H1 _].
      cbn in H1. congruence.
  - by apply (H2 j t path sp res evs1 pre tK post).
Qed.

(** C3: in a run of [backfill] with an age cutoff configured and the
    database answering, the cutoff is the clock read after the two
    statements that fetch the sync state, less [BACKFILL_CUTOFF_DAYS]
    days (the code takes a cutoff of 0 for none).  Whenever a request of
    the run brings a page whose first post older than the cutoff is
    [tK], the events that follow the request are the upserts of the
    posts before [tK], in order, and the statement that stores a null
    cursor, and nothing else: neither [tK] nor a later post is
    upserted, no other page is requested, the run ends normally and
    leaves a null cursor in the sync state. *)
Theorem backfill_stops_at_cutoff w evs0 t path sp res evs1 pre tK post ts :
  COMMUNITY_ID cfg <> EmptyString ->
  0 < BACKFILL_CUTOFF_DAYS cfg ->
  db_up w ->
  let cid := COMMUNITY_ID cfg in
  let started :=
    now w + Z.of_N (hd 0%N (jitter w)) + Z.of_N (hd 0%N (tl (jitter w))) in
  let cutoff := started - BACKFILL_CUTOFF_DAYS cfg * 24 * 3600 * 1000 in
  cutoff <> 0 ->
  trace (backfill w).2 =
    trace w ++ evs0 ++ EvFetch t path sp (Some res) :: evs1 ->
  served res = true ->
  tweets_of (parse_body (res_body res)) = pre ++ tK :: post ->
  Forall (fun x => forall ts',
              created_at (normalizeTweet x) = Some ts' -> cutoff <= ts') pre ->
  created_at (normalizeTweet tK) = Some ts ->
  ts < cutoff ->
  (backfill w).1 = Ok tt /\
  (exists ups reply,
      evs1 = ups ++ [EvQuery (QSetBackfillCursor cid None) reply] /\
      reply_ok reply = true /\
      Forall2 (upsert_event cid) (map normalizeTweet pre) ups) /\
  exists row,
    ingest_state (db (backfill w).2) !! cid = Some row /\
    backfill_cursor row = None.
Proof.
  intros Hcid Hdays Hup cid started cutoff Hcut Htrace Hserved Htweets Hpre
         HtK Hts.
  pose proof (backfill_answered w Hcid Hup) as Hrun. cbv zeta in Hrun.
  fold cid in Hrun. apply Z.ltb_lt in Hdays. rewrite Hdays in Hrun.
  set (w2 := answered (QSelectState cid) (answered (QEnsureStateRow cid) w))
    in Hrun.
  assert (now w2 = started) as Hnow by (unfold w2, started; cbn; lia).
  rewrite Hnow in Hrun. fold cutoff in Hrun.
  assert (db_up w2) as Hup2 by (by repeat apply answered_db_up).
  assert (is_Some (ingest_state (db w2) !! cid)) as Hrow.
  { unfold w2. cbn. destruct (ingest_state (db w) !! cid) eqn:Hr.
    - rewrite Hr. by eexists.
    - cbn. rewrite lookup_insert_eq. by eexists. }
  match type of Hrun with
  | _ = backfill_pages _ _ ?n ?page ?cursor ?total _ =>
      pose proof (wp_elim _ _ _
                    (backfill_pages_stops cid (Some cutoff) n page cursor total
                                          w2 Hup2 Hrow)) as Hpages
  end.
  rewrite <- Hrun in Hpages. destruct Hpages as (evs & Htr & Hstops).
  assert (trace w2 = trace w ++ [EvQuery (QEnsureStateRow cid)
                                         (default (DbOk []) (head (dbs w)));
                                 EvQuery (QSelectState cid)
                                         (default (DbOk [])
                                                  (head (tl (dbs w))))]) as Ht2.
  { unfold w2. cbn. by rewrite <- app_assoc. }
  rewrite Ht2, <- app_assoc, Htrace in Htr. apply app_inv_head in Htr.
  apply (stops_after_unserved cid (Some cutoff) _ _
           [EvQuery (QEnsureStateRow cid) (default (DbOk []) (head (dbs w)));
            EvQuery (QSelectState cid)
                    (default (DbOk []) (head (tl (dbs w))))]) in Hstops;
    [|by repeat constructor].
  apply (Hstops evs0 t path sp res evs1 pre tK post); try done.
  - eapply Forall_impl; [exact Hpre|]. intros x Hx. unfold reaches_cutoff.
    destruct (created_at (normalizeTweet x)) as [ts'|] eqn:Hts'; [|done].
    specialize (Hx _ Hts'). apply andb_false_iff. right.
    apply Z.ltb_ge. lia.
  - unfold reaches_cutoff. rewrite HtK. apply andb_true_iff. split.
    + by apply negb_true_iff, Z.eqb_neq.
    + by apply Z.ltb_lt.
Qed.

(** ** ingest-new: the watermark *)

Lemma watermark_unserved {A : Type} communityId stopId (r : outcome A) evs :
  unserved evs -> stops_at_watermark communityId stopId r evs.
Proof.
  intros Hun evs0 t path sp res evs1 Heq Hs. exfalso.
  by apply (no_hit is_served_fetch evs evs0 (EvFetch t path sp (Some res)) evs1).
Qed.

Lemma watermark_block {A : Type} communityId stopId (r : outcome A)
      evs0 t path sp res mid rest :
  unserved evs0 -> unserved mid -> served res = true ->
  (forall pre tm post,
      tweets_of (parse_body (res_body res)) = pre ++ tm :: post ->
      Forall (fun x => at_watermark stopId x = false) pre ->
      at_watermark stopId tm = true ->
      (exists v, r = Ok v) /\
      Forall2 (upsert_event communityId) (map normalizeTweet pre) (mid ++ rest)) ->
  (Forall (fun x => at_watermark stopId x = false)
          (tweets_of (parse_body (res_body res))) ->
   Forall2 (upsert_event communityId)
           (map normalizeTweet (tweets_of (parse_body (res_body res)))) mid) ->
  stops_at_watermark communityId stopId r rest ->
  stops_at_watermark communityId stopId r
    (evs0 ++ EvFetch t path sp (Some res) :: mid ++ rest).
Proof.
  intros H0 Hmid Hs Hmatch Hall Hrest evs0' t' path' sp' res' evs1 Heq Hs'.
  apply (split_first is_served_fetch) in Heq
      as [(-> & [= -> -> -> ->] & ->)|(k & -> & Heq)]; try done.
  - cbv zeta. split; [exact Hmatch|]. intros Hno. exists mid, rest.
    by split; [|apply Hall].
  - apply app_eq_inv in Heq as [(j & -> & Hj)|(j & -> & ->)].
    + destruct j as [|y j]; simpl in Hj.
      * by apply (Hrest [] t' path' sp' res' evs1).
      * injection Hj as <- _. exfalso.
        apply Forall_app in Hmid as [_ Hmid].
        apply Forall_cons in Hmid as [Hmid _]. cbn in Hmid. congruence.
    + by apply (Hrest j t' path' sp' res' evs1).
Qed.

(** While the database answers, the scan of [ingestNew] upserts the
    items before the first one at the watermark, in order, and stops
    there. *)
Lemma ingest_scan_answered communityId stopId tweets : forall inserted w,
  db_up w ->
  exists kept inserted' stopped w1 evs,
    ingest_scan communityId stopId tweets inserted w =
      (Ok (inserted', stopped), w1) /\
    trace w1 = trace w ++ evs /\
    Forall2 (upsert_event communityId) (map normalizeTweet kept) evs /\
    db_up w1 /\
    Forall (fun x => at_watermark stopId x = false) kept /\
    if stopped
    then exists tm post,
        tweets = kept ++ tm :: post /\ at_watermark stopId tm = true
    else tweets = kept.
Proof.
  induction tweets as [|x tweets IH]; intros inserted w Hup.
  - exists [], inserted, false, w, []. rewrite app_nil_r.
    split_and!; try done; constructor.
  - cbn [ingest_scan].
    destruct (truthy stopId && strict_eq (JStr (ToString (t_id x))) stopId)
      eqn:Hat.
    + exists [], inserted, true, w, []. rewrite app_nil_r.
      split_and!; try done; try constructor. by exists x, tweets.
    + destruct (upsertCommunityTweet_answered communityId (normalizeTweet x) w Hup)
        as [Hrun Hev].
      set (w0 := answered _ w) in Hrun.
      destruct (IH (inserted + 1) w0 (answered_db_up _ _ Hup))
        as (kept & inserted' & stopped & w1 & evs & Heq & Htr & Hevs & Hup1
            & Hkept & Hstop).
      eexists (x :: kept), inserted', stopped, w1, (_ :: evs). split_and!.
      * unfold bind at 1. rewrite Hrun. exact Heq.
      * rewrite Htr. subst w0. cbn. by rewrite <- app_assoc.
      * cbn. by constructor.
      * done.
      * by constructor.
      * destruct stopped.
        -- destruct Hstop as (tm & post & -> & Htm). by exists tm, post.
        -- by rewrite Hstop.
Qed.

(** In a run of the page loop of [ingestNew] with the database
    answering, the page that holds the watermark ends the loop, and
    every item of a page without it is upserted. *)
Lemma ingest_pages_stops communityId stopId n :
  forall page cursor newLastSeen inserted w,
  db_up w ->
  wp (ingest_pages communityId stopId n page cursor newLastSeen inserted)
     (fun r w' =>
        exists evs,
          trace w' = trace w ++ evs /\ db_up w' /\
          stops_at_watermark communityId stopId r evs) w.
Proof.
  induction n as [|n IH]; intros page cursor newLastSeen inserted w Hup;
    cbn [ingest_pages].
  { wp_step. exists []. rewrite app_nil_r. split_and!; [done..|].
    apply watermark_unserved. constructor. }
  wp_step. unfold getCommunityTweets.
  match goal with
  | |- wp (get cfg ?p ?ps 6) _ _ =>
      pose proof (wp_elim _ _ _ (get_effect p ps 6 w)) as He;
      pose proof (wp_elim _ _ _ (get_answers p ps 6 w)) as Ha;
      apply wp_intro; destruct (get cfg p ps 6 w) as [r w1]
  end.
  cbn [fst snd] in *.
  destruct He as (_ & evsA & _ & HtA & _ & Hd1 & Hs1 & _ & _).
  destruct Ha as (evsA' & HtA' & Hans).
  rewrite HtA in HtA'. apply app_inv_head in HtA'. subst evsA'.
  assert (db_up w1) as Hup1 by by apply (db_up_frame w).
  destruct r as [data|e].
  2: { exists evsA. split_and!; [done..|]. by apply watermark_unserved. }
  destruct Hans as (evs0 & t & res & -> & Hserved & -> & Hun0).
  cbv zeta.
  match goal with
  | |- wp (bind (ingest_scan _ _ ?tw ?ins) _) _ _ =>
      destruct (ingest_scan_answered communityId stopId tw ins w1 Hup1)
        as (kept & inserted' & stopped & w2 & evsB & Hscan & HtB & Hups & Hup2
            & Hkept & Hstop)
  end.
  wp_step. eapply wp_run; [exact Hscan|]. cbv beta iota.
  assert (unserved evsB) as HunB by by eapply upserts_unserved.
  assert (trace w2 =
          trace w ++ evs0 ++
          EvFetch t "/twitter/community/tweets"
                  (search_params [("community_id", JStr communityId);
                                  ("cursor", cursor)]) (Some res)
          :: evsB ++ []) as Ht2.
  { rewrite HtB, HtA, <- !app_assoc, app_nil_r. done. }
  repeat wp_step.
  - (* the watermark stopped the scan *)
    subst stopped. destruct Hstop as (tm & post & Hpage & Htm).
    eexists. split_and!; [exact Ht2|done|].
    apply watermark_block; try done.
    + intros pre tm' post' Htweets Hpre Htm'. split; [by eexists|].
      rewrite Htweets in Hpage.
      apply (first_hit_unique (at_watermark stopId)) in Hpage
          as (-> & _ & _); try done.
      by rewrite app_nil_r.
    + intros Hno. exfalso. rewrite Hpage in Hno.
      apply Forall_app in Hno as [_ Hno]. apply Forall_cons in Hno as [Hno _].
      congruence.
    + apply watermark_unserved. constructor.
  - (* the last page *)
    eexists. split_and!; [exact Ht2|done|].
    match goal with H : stopped = false |- _ => rewrite H in Hstop end.
    apply watermark_block; try done.
    + intros pre tm' post' Htweets Hpre Htm'. exfalso.
      rewrite <- Hstop, Htweets in Hkept.
      apply Forall_app in Hkept as [_ Hkept].
      apply Forall_cons in Hkept as [Hkept _]. congruence.
    + intros _. by rewrite Hstop.
    + apply watermark_unserved. constructor.
  - (* a page with a next page *)
    match goal with H : stopped = false |- _ => rewrite H in Hstop end.
    eapply wp_mono; [by apply IH|].
    intros r w' (evsC & HtC & HupC & HstopC).
    eexists. split_and!; [|done|].
    { rewrite HtC. cbn. rewrite HtB, HtA, <- !app_assoc. cbn. reflexivity. }
    apply watermark_block; try done.
    + intros pre tm' post' Htweets Hpre Htm'. exfalso.
      rewrite <- Hstop, Htweets in Hkept.
      apply Forall_app in Hkept as [_ Hkept].
      apply Forall_cons in Hkept as [Hkept _]. congruence.
    + intros _. by rewrite Hstop.
Qed.

(** With a community configured and the database answering, a run of
    [ingestNew] is its page loop, stopped by the stored watermark and
    started in the state the two statements of [getState] leave,
    followed by the write of the new watermark. *)
Lemma ingestNew_answered w :
  COMMUNITY_ID cfg <> EmptyString ->
  db_up w ->
  let cid := COMMUNITY_ID cfg in
  let stored :=
    match ingest_state (db w) !! cid with
    | Some row => last_seen_tweet_id row
    | None => None
    end in
  let w2 := answered (QSelectState cid) (answered (QEnsureStateRow cid) w) in
  ingestNew w =
  (let* newLastSeen :=
     ingest_pages cid (js_or (of_column stored) JNull)
                  (Z.to_nat (TOP_PAGES cfg)) 1 JNull JNull 0 in
   if truthy newLastSeen then setLastSeenTweetId cid newLastSeen else ret tt) w2.
Proof.
  intros Hcid Hup cid stored w2.
  unfold ingestNew. cbv zeta. fold cid.
  apply String.eqb_neq in Hcid. fold cid in Hcid. rewrite Hcid.
  unfold bind at 1. cbn [ret]. unfold bind at 1.
  rewrite (getState_answered cid w Hup). fold w2.
  assert (ingest_state (apply_query (QEnsureStateRow cid) (db w)) !! cid =
          Some (mkStateRow
                  (match ingest_state (db w) !! cid with
                   | Some row => backfill_cursor row
                   | None => None
                   end) stored)) as ->.
  { cbn. unfold stored.
    destruct (ingest_state (db w) !! cid) as [[c s]|] eqn:Hrow.
    - by rewrite Hrow.
    - cbn. by rewrite lookup_insert_eq. }
  reflexivity.
Qed.

Lemma served_split l1 l2 l3 evs0 e evs1 :
  unserved l1 -> unserved l3 -> is_served_fetch e = true ->
  l1 ++ l2 ++ l3 = evs0 ++ e :: evs1 ->
  exists e0 e1, l2 = e0 ++ e :: e1 /\ evs1 = e1 ++ l3.
Proof.
  intros H1 H3 He Heq.
  assert (exists j, l2 ++ l3 = j ++ e :: evs1) as [j Hj].
  { apply app_eq_inv in Heq as [(j & -> & Hj)|(j & -> & Heq)]; [|by exists j].
    destruct j as [|y j]; simpl in Hj; [by exists []|].
    exfalso. injection Hj as <- _.
    apply Forall_app in H1 as [_ H1]. apply Forall_cons in H1 as [H1 _].
    congruence. }
  apply app_eq_inv in Hj as [(k & -> & Hk)|(k & -> & Hk)].
  - destruct k as [|y k]; simpl in Hk.
    + exfalso. by apply (no_hit is_served_fetch l3 [] e evs1).
    + injection Hk as <- ->. by exists j, k.
  - exfalso. by apply (no_hit is_served_fetch l3 k e evs1).
Qed.

(** C4: in a run of [ingestNew] with the database answering, the
    loop is stopped by the watermark [s] the sync state holds.
    Whenever a request of the run brings a page whose first item with
    the identifier [s] is [tm], the events that follow the request are
    the upserts of the items before [tm], in order, and then at most
    the statement that stores the new watermark: neither [tm] nor a
    later item is upserted, no other page is requested, and the run
    ends normally.  When the page holds no such item, the events that
    follow the request start with the upserts of all its items, in
    order. *)
Theorem ingest_stops_at_watermark w row s evs0 t path sp res evs1 :
  COMMUNITY_ID cfg <> EmptyString ->
  db_up w ->
  let cid := COMMUNITY_ID cfg in
  ingest_state (db w) !! cid = Some row ->
  last_seen_tweet_id row = Some s ->
  s <> EmptyString ->
  trace (ingestNew w).2 =
    trace w ++ evs0 ++ EvFetch t path sp (Some res) :: evs1 ->
  served res = true ->
  let page := tweets_of (parse_body (res_body res)) in
  (forall pre tm post,
      page = pre ++ tm :: post ->
      Forall (fun x => ToString (t_id x) <> s) pre ->
      ToString (t_id tm) = s ->
      (ingestNew w).1 = Ok tt /\
      exists ups last,
        evs1 = ups ++ last /\
        Forall2 (upsert_event cid) (map normalizeTweet pre) ups /\
        (last = [] \/
         exists id reply, last = [EvQuery (QSetLastSeenTweetId cid id) reply])) /\
  (Forall (fun x => ToString (t_id x) <> s) page ->
   exists ups rest,
     evs1 = ups ++ rest /\
     Forall2 (upsert_event cid) (map normalizeTweet page) ups).
Proof.
  intros Hcid Hup cid Hrow Hlast Hs Htrace Hserved page.
  pose proof (ingestNew_answered w Hcid Hup) as Hrun. cbv zeta in Hrun.
  fold cid in Hrun. rewrite Hrow, Hlast in Hrun. cbn [of_column] in Hrun.
  assert (js_or (JStr s) JNull = JStr s) as Hstop.
  { unfold js_or. cbn. apply String.eqb_neq in Hs. by rewrite Hs. }
  rewrite Hstop in Hrun.
  set (w2 := answered (QSelectState cid) (answered (QEnsureStateRow cid) w))
    in Hrun.
  assert (db_up w2) as Hup2 by (by repeat apply answered_db_up).
  assert (trace w2 = trace w ++ [EvQuery (QEnsureStateRow cid)
                                         (default (DbOk []) (head (dbs w)));
                                 EvQuery (QSelectState cid)
                                         (default (DbOk [])
                                                  (head (tl (dbs w))))]) as Ht2.
  { unfold w2. cbn. by rewrite <- app_assoc. }
  pose proof (wp_elim _ _ _
                (ingest_pages_stops cid (JStr s) (Z.to_nat (TOP_PAGES cfg)) 1
                                    JNull JNull 0 w2 Hup2)) as Hpages.
  unfold bind in Hrun.
  destruct (ingest_pages cid (JStr s) (Z.to_nat (TOP_PAGES cfg)) 1 JNull JNull 0
                         w2) as [r w3].
  cbn [fst snd] in Hpages. destruct Hpages as (evs & Htr & Hup3 & Hstops).
  assert (exists last,
             trace (ingestNew w).2 = trace w3 ++ last /\
             unserved last /\
             (last = [] \/
              exists id reply,
                last = [EvQuery (QSetLastSeenTweetId cid id) reply]) /\
             ((exists v, r = Ok v) -> (ingestNew w).1 = Ok tt))
    as (last & Hend & Hunl & Hshape & Hok).
  { rewrite Hrun. destruct r as [v|e].
    - destruct (truthy v).
      + rewrite (setLastSeenTweetId_answered cid v w3 Hup3). cbn.
        eexists. split_and!; [reflexivity|by repeat constructor| |done].
        right. by eexists _, _.
      + exists []. cbn. rewrite app_nil_r. split_and!; try done; [constructor|by left].
    - exists []. cbn. rewrite app_nil_r. split_and!; try done; [constructor|by left|].
      by intros [v [=]]. }
  rewrite Htr, Ht2, <- !app_assoc, Htrace in Hend. apply app_inv_head in Hend.
  symmetry in Hend.
  apply served_split in Hend as (e0 & e1 & -> & ->);
    [|by repeat constructor|done|done].
  destruct (Hstops e0 t path sp res e1 eq_refl Hserved) as [Hmatch Hnone].
  assert (forall l, Forall (fun x => ToString (t_id x) <> s) l ->
                    Forall (fun t => at_watermark (JStr s) t = false) l) as Hno.
  { intros l H. eapply Forall_impl; [exact H|]. intros x Hx.
    apply not_true_is_false. by rewrite at_watermark_iff. }
  split.
  - intros pre tm post Hpage Hpre Htm.
    destruct (Hmatch pre tm post Hpage (Hno _ Hpre)) as [Hv Hups].
    { by apply at_watermark_iff. }
    split; [by apply Hok|]. by exists e1, last.
  - intros Hall. destruct (Hnone (Hno _ Hall)) as (ups & rest & -> & Hups).
    exists ups, (rest ++ last). by rewrite <- app_assoc.
Qed.

(** ** A call that is served at once *)

Lemma pace_frame w :
  net (_pace cfg w).2 = net w /\ console (_pace cfg w).2 = console w /\
  dbs (_pace cfg w).2 = dbs w /\ db (_pace cfg w).2 = db w.
Proof.
  apply (wp_elim (_pace cfg)
           (fun _ w' => net w' = net w /\ console w' = console w /\
                        dbs w' = dbs w /\ db w' = db w)).
  apply wp_pace. cbv zeta. by destruct (0 <? _).
Qed.

Lemma fetch_frame path sp w :
  net (fetch path sp w).2 = tl (net w) /\
  console (fetch path sp w).2 = console w /\
  dbs (fetch path sp w).2 = dbs w /\ db (fetch path sp w).2 = db w /\
  forall res, mjoin (head (net w)) = Some res -> (fetch path sp w).1 = Ok res.
Proof.
  unfold fetch, bind, Date_now, next_exchange, emit, suspend, ret, throw.
  cbn [fst snd]. destruct (mjoin (head (net w))); wsimpl; split_and!; try done.
  by intros res [= <-].
Qed.

(** A response that is served ends the call with the request that
    brought it. *)
Lemma get_served_eq path params retries w res rest :
  API_KEY cfg <> EmptyString ->
  net w = Some res :: rest ->
  served res = true ->
  get cfg path params retries w =
  (Ok (parse_body (res_body res)), act (ARequest path (search_params params)) w).
Proof.
  intros Hkey Hnet Hserved. apply andb_true_iff in Hserved as [Hok Hst].
  apply negb_true_iff in Hst.
  assert ((status res =? 429) = false) as Hno.
  { apply Z.eqb_neq. unfold ok in Hok.
    apply andb_true_iff in Hok as [_ H%Z.leb_le]. lia. }
  destruct (pace_frame w) as (Hpnet & _).
  destruct (fetch_frame path (search_params params) (_pace cfg w).2)
    as (_ & _ & _ & _ & Hres).
  specialize (Hres res). rewrite Hpnet, Hnet in Hres. specialize (Hres eq_refl).
  apply String.eqb_neq in Hkey.
  unfold get. rewrite Hkey. unfold bind at 1. cbn [ret act]. unfold bind at 1.
  pose proof (pace_ok w) as Hpace.
  destruct (_pace cfg w) as [r1 w1]; cbn [fst snd] in *. subst r1.
  destruct (Z.to_nat retries); rewrite get_loop_eq; cbv zeta.
  all: unfold bind at 1; cbn [act].
  all: destruct (fetch path (search_params params) w1) as [r2 w2];
    cbn [fst snd] in *; subst r2.
  all: rewrite Hno; cbn [andb]; unfold finish; cbv zeta.
  all: rewrite Hok, Hst; reflexivity.
Qed.

Lemma request_frame path sp w :
  net (act (ARequest path sp) w) = tl (net w) /\
  console (act (ARequest path sp) w) = console w /\
  dbs (act (ARequest path sp) w) = dbs w /\
  db (act (ARequest path sp) w) = db w /\
  exists evs,
    trace (act (ARequest path sp) w) = trace w ++ evs /\
    requests evs = [(path, sp)] /\ statements evs = [].
Proof.
  cbn [act]. destruct (pace_frame w) as (Hn1 & Hc1 & Hs1 & Hd1).
  destruct (fetch_frame path sp (_pace cfg w).2) as (Hn2 & Hc2 & Hs2 & Hd2 & _).
  rewrite Hn2, Hc2, Hs2, Hd2, Hn1, Hc1, Hs1, Hd1. split_and!; try done.
  destruct (pace_trace w) as (pre & Hpre & Hshape & _).
  destruct (fetch_trace path sp (_pace cfg w).2) as (post & Hpost & Hp & _).
  eexists. rewrite Hpost, Hpre, <- app_assoc. split; [done|].
  by destruct Hshape as [->|[ms ->]], Hp as [->|[m ->]].
Qed.

(** ** doctor *)

Lemma db_ok_not_warning : ~ client_warning "DB: OK".
Proof. intros [rest [H|H]]; cbn in H; discriminate H. Qed.

(** X16: [doctor] checks the environment, then the database, then
    the API, and stops at the first check that fails: with a variable
    missing it exits before any statement; when the database refuses
    [SELECT 1] it throws before any request; when the database answers
    and the call of the API fails, the run ends as the call did and
    prints nothing but the warnings of the client.  It reports
    success, with the number of posts of the page, only after both
    have answered: a run that does not end normally never prints
    the line of the database. *)
Theorem doctor_checks_in_order w :
  (API_KEY cfg = EmptyString \/ COMMUNITY_ID cfg = EmptyString \/
   DATABASE_URL = EmptyString ->
   (doctor w).1 = Abort (Exited 1) /\
   trace (doctor w).2 = trace w /\ net (doctor w).2 = net w /\
   dbs (doctor w).2 = dbs w /\
   console (doctor w).2 =
     console w ++ ["FATAL: Missing env vars (key/community_id/database_url)"]) /\
  (API_KEY cfg <> EmptyString -> COMMUNITY_ID cfg <> EmptyString ->
   DATABASE_URL <> EmptyString ->
   (forall m,
       default (DbOk []) (head (dbs w)) = DbFail m ->
       (doctor w).1 = Abort (Thrown m) /\
       trace (doctor w).2 = trace w ++ [EvQuery QSelect1 (DbFail m); EvThrow m] /\
       net (doctor w).2 = net w /\ console (doctor w).2 = console w) /\
   (forall rows e,
       default (DbOk []) (head (dbs w)) = DbOk rows ->
       (getCommunityTweets cfg (COMMUNITY_ID cfg) JUndefined
                           (answered QSelect1 w)).1 = Abort e ->
       (doctor w).1 = Abort e /\
       exists warns,
         console (doctor w).2 = console w ++ warns /\
         Forall client_warning warns) /\
   (forall rows res rest,
       default (DbOk []) (head (dbs w)) = DbOk rows ->
       net w = Some res :: rest ->
       served res = true ->
       (doctor w).1 = Ok tt /\
       net (doctor w).2 = rest /\
       console (doctor w).2 =
         console w ++
         ["DB: OK";
          "API: OK (/community/tweets returned " +:+
          pretty (Z.of_nat (length (tweets_of (parse_body (res_body res))))) +:+
          " tweets)"])) /\
  (forall e,
      (doctor w).1 = Abort e ->
      exists lines,
        console (doctor w).2 = console w ++ lines /\ "DB: OK" ∉ lines).
Proof.
  split; [|split].
  - intros Hmissing. unfold doctor.
    assert (String.eqb (API_KEY cfg) EmptyString
            || String.eqb (COMMUNITY_ID cfg) EmptyString
            || String.eqb DATABASE_URL EmptyString = true) as ->; [|done].
    destruct Hmissing as [->|[->| ->]]; by rewrite ?orb_true_r.
  - intros Hkey Hcid Hurl.
    assert (String.eqb (API_KEY cfg) EmptyString
            || String.eqb (COMMUNITY_ID cfg) EmptyString
            || String.eqb DATABASE_URL EmptyString = false) as Henv.
    { apply String.eqb_neq in Hkey, Hcid, Hurl. by rewrite Hkey, Hcid, Hurl. }
    split; [|split].
    + intros m Hreply. unfold doctor. rewrite Henv.
      unfold bind at 1. cbn [ret]. unfold bind at 1.
      unfold q, bind, next_dbreply, emit, suspend, modify_db, ret, throw.
      cbn [fst snd]. rewrite Hreply. cbn. by rewrite <- app_assoc.
    + intros rows e Hreply Hget.
      assert (q QSelect1 w = (Ok rows, answered QSelect1 w)) as Hq.
      { unfold q, bind, next_dbreply, emit, suspend, modify_db, ret, answered.
        simpl. rewrite Hreply. reflexivity. }
      pose proof (wp_elim _ _ _ (get_console
                    "/twitter/community/tweets"
                    [("community_id", JStr (COMMUNITY_ID cfg));
                     ("cursor", JUndefined)] 6 (answered QSelect1 w) Hkey))
        as (warns & Hcon & Hwarns).
      assert (doctor w =
              (Abort e,
               (getCommunityTweets cfg (COMMUNITY_ID cfg) JUndefined
                                   (answered QSelect1 w)).2)) as ->.
      { unfold doctor. rewrite Henv.
        unfold bind at 1. cbn [ret]. unfold bind at 1. rewrite Hq.
        unfold bind at 1.
        destruct (getCommunityTweets cfg _ _ (answered QSelect1 w)) as [r w2].
        cbn [fst snd] in *. by subst r. }
      cbn [fst snd]. split; [done|]. by exists warns.
    + intros rows res rest Hreply Hnet Hserved.
      apply (wp_elim doctor
               (fun r w' =>
                  r = Ok tt /\ net w' = rest /\
                  console w' =
                    console w ++
                    ["DB: OK";
                     "API: OK (/community/tweets returned " +:+
                     pretty (Z.of_nat (length (tweets_of
                                                 (parse_body (res_body res))))) +:+
                     " tweets)"])).
      unfold doctor, getCommunityTweets. rewrite Henv. cbv zeta.
      wp_step. wp_step. wp_step. apply wp_q. rewrite Hreply. wp_step.
      eapply wp_run; [by apply (get_served_eq _ _ _ _ res rest Hkey)|].
      cbv beta iota.
      match goal with
      | |- context [act (ARequest ?p ?sp) ?w0] =>
          destruct (request_frame p sp w0) as (Hn & Hc & _);
          set (w2 := act (ARequest p sp) w0) in *; clearbody w2
      end.
      repeat wp_step. rewrite Hn, Hc. wsimpl. rewrite Hnet.
      by rewrite <- app_assoc.
  - apply (wp_elim doctor
             (fun r w' =>
                forall e, r = Abort e ->
                          exists lines,
                            console w' = console w ++ lines /\
                            "DB: OK" ∉ lines)).
    unfold doctor, getCommunityTweets. cbv zeta. repeat wp_step.
    { intros e _. eexists. split; [done|].
      intros Hin%list_elem_of_singleton. discriminate Hin. }
    assert (API_KEY cfg <> EmptyString) as Hkey.
    { match goal with
      | H : _ || _ || _ = false |- _ =>
          apply orb_false_iff in H as [H _]; apply orb_false_iff in H as [H _];
          by apply String.eqb_neq in H
      end. }
    apply wp_q. destruct (default _ _) as [rows|m].
    2: { intros e _. exists []. rewrite app_nil_r. split; [done|].
         apply not_elem_of_nil. }
    wp_step.
    eapply wp_mono; [by apply get_console|].
    intros r w1 (warns & Hcon & Hwarns). wsimpl.
    destruct r as [data|e]; [by repeat wp_step|].
    intros e' _. exists warns. split; [done|].
    intros Hin. eapply Forall_forall in Hwarns; [|exact Hin].
    by apply db_ok_not_warning.
Qed.

(** ** refresh-metrics *)

Lemma bind_ok {A B : Type} (m : M A) (k : A -> M B) w a w1 :
  m w = (Ok a, w1) -> bind m k w = k a w1.
Proof. intros H. unfold bind. by rewrite H. Qed.

Lemma answered_frame qr w :
  net (answered qr w) = net w /\ console (answered qr w) = console w /\
  exists evs,
    trace (answered qr w) = trace w ++ evs /\ requests evs = [].
Proof. split_and!; try done. by eexists [_]. Qed.

Lemma upsertMetrics_answered m w :
  db_up w ->
  exists qr, upsertMetrics m w = (Ok tt, answered qr w).
Proof.
  intros Hup. unfold upsertMetrics.
  match goal with
  | |- context [q ?qr] =>
      destruct (q_answered qr w Hup) as (rows & _ & Hq); exists qr
  end.
  by erewrite bind_ok by exact Hq.
Qed.

Lemma metrics_loop tweets : forall w,
  db_up w ->
  exists w',
    for_of tweets upsertMetrics w = (Ok tt, w') /\ db_up w' /\
    net w' = net w /\ console w' = console w /\
    exists evs, trace w' = trace w ++ evs /\ requests evs = [].
Proof.
  induction tweets as [|t tweets IH]; intros w Hup; cbn [for_of].
  - exists w. split_and!; try done. exists []. by rewrite app_nil_r.
  - destruct (upsertMetrics_answered t w Hup) as (qr & Hq).
    destruct (IH (answered qr w) (answered_db_up qr w Hup))
      as (w' & Hrun & Hup' & Hnet & Hcon & evs & Ht & Hr).
    destruct (answered_frame qr w) as (Hn0 & Hc0 & evs0 & Ht0 & Hr0).
    exists w'. erewrite bind_ok by exact Hq.
    split_and!; try done; try congruence.
    exists (evs0 ++ evs). rewrite Ht, Ht0, requests_app, Hr, Hr0, app_assoc.
    done.
Qed.

Lemma batches_loop rest groups : forall ress w,
  API_KEY cfg <> EmptyString ->
  length ress = length groups ->
  Forall (fun res => served res = true) ress ->
  net w = map Some ress ++ rest ->
  db_up w ->
  exists w',
    for_of groups
      (fun group =>
         let* data := getTweetsByIds cfg group in
         for_of (tweets_of data) upsertMetrics;;
         log ("refresh-metrics: updated batch size=" +:+
              pretty (Z.of_nat (length group)))) w = (Ok tt, w') /\
    net w' = rest /\
    console w' =
      console w ++
      map (fun group => "refresh-metrics: updated batch size=" +:+
                        pretty (Z.of_nat (length group))) groups /\
    exists evs,
      trace w' = trace w ++ evs /\
      requests evs =
        map (fun group =>
               ("/twitter/tweets",
                search_params [("tweet_ids", JStr (String.concat "," group))]))
            groups.
Proof.
  induction groups as [|g groups IH]; intros ress w Hkey Hlen Hserved Hnet Hup.
  - destruct ress; [|done]. exists w. cbn. rewrite !app_nil_r.
    split_and!; try done. exists []. by rewrite app_nil_r.
  - destruct ress as [|res ress]; [done|]. inversion Hserved; subst.
    cbn [for_of]. unfold getTweetsByIds at 1.
    pose proof (get_served_eq "/twitter/tweets"
                  [("tweet_ids", JStr (String.concat "," g))] 6 w res
                  (map Some ress ++ rest) Hkey Hnet ltac:(done)) as Hget.
    destruct (request_frame "/twitter/tweets"
                (search_params [("tweet_ids", JStr (String.concat "," g))]) w)
      as (Hn1 & Hc1 & Hs1 & _ & evs1 & Ht1 & Hr1 & _).
    set (w1 := act _ w) in *. clearbody w1.
    rewrite Hnet in Hn1. cbn [tl map app] in Hn1.
    assert (db_up w1) as Hup1 by (unfold db_up; by rewrite Hs1).
    destruct (metrics_loop (tweets_of (parse_body (res_body res))) w1 Hup1)
      as (w2 & Hloop & Hup2 & Hn2 & Hc2 & evs2 & Ht2 & Hr2).
    set (w3 := (log ("refresh-metrics: updated batch size=" +:+
                     pretty (Z.of_nat (length g))) w2).2).
    destruct (IH ress w3 Hkey) as (w' & Hrun & Hn' & Hc' & evs & Ht & Hr).
    { by injection Hlen. }
    { done. }
    { unfold w3. cbn. congruence. }
    { done. }
    exists w'. split_and!.
    + erewrite bind_ok; [exact Hrun|].
      erewrite bind_ok; [|exact Hget]. by erewrite bind_ok by exact Hloop.
    + done.
    + rewrite Hc'. unfold w3. cbn. rewrite Hc2, Hc1. by rewrite <- app_assoc.
    + exists (evs1 ++ evs2 ++ evs). rewrite Ht. unfold w3. cbn [log snd trace].
      rewrite Ht2, Ht1, !requests_app, Hr1, Hr2, Hr, <- !app_assoc. done.
Qed.

(** X17: with the API and the database answering, a run of
    [refreshMetrics] asks for each selected identifier once: one
    request for each group cut by [chunk], in order, carrying the
    identifiers of the group joined by commas; it reports each batch
    and the end of the run, unless nothing was selected: then it sends
    no request and stops after its first line. *)
Theorem refreshMetrics_batches hours all w rows groups ress rest :
  COMMUNITY_ID cfg <> EmptyString ->
  API_KEY cfg <> EmptyString ->
  db_up w ->
  default (DbOk []) (head (dbs w)) = DbOk rows ->
  chunk (map ToString rows) (BATCH_TWEET_IDS cfg) = Some groups ->
  net w = map Some ress ++ rest ->
  length ress = length groups ->
  Forall (fun res => served res = true) ress ->
  (refreshMetrics hours all w).1 = Ok tt /\
  net (refreshMetrics hours all w).2 = rest /\
  console (refreshMetrics hours all w).2 =
    console w ++
    ["refresh-metrics: tweets to update = " +:+
     pretty (Z.of_nat (length rows)) +:+
     " (all=" +:+ (if all then "true" else "false") +:+
     ", hours=" +:+ pretty hours +:+ ")"] ++
    match rows with
    | [] => []
    | _ :: _ =>
        map (fun group => "refresh-metrics: updated batch size=" +:+
                          pretty (Z.of_nat (length group))) groups ++
        ["refresh-metrics done."]
    end /\
  exists evs,
    trace (refreshMetrics hours all w).2 = trace w ++ evs /\
    requests evs =
      map (fun group =>
             ("/twitter/tweets",
              search_params [("tweet_ids", JStr (String.concat "," group))]))
          groups.
Proof.
  intros Hcid Hkey Hup Hreply Hchunk Hnet Hlen Hserved.
  apply String.eqb_neq in Hcid.
  destruct (q_answered (QSelectStaleTweets (COMMUNITY_ID cfg) all (pretty hours))
              w Hup) as (rows' & Hrows' & Hq).
  rewrite Hreply in Hrows'. injection Hrows' as <-.
  destruct (answered_frame (QSelectStaleTweets (COMMUNITY_ID cfg) all
                                               (pretty hours)) w)
    as (Hn0 & Hc0 & evs0 & Ht0 & Hr0).
  pose proof (answered_db_up (QSelectStaleTweets (COMMUNITY_ID cfg) all
                                                 (pretty hours)) w Hup) as Hup0.
  set (w0 := answered _ w) in *. clearbody w0.
  unfold refreshMetrics. cbv zeta. rewrite Hcid.
  erewrite bind_ok by reflexivity. erewrite bind_ok by exact Hq.
  erewrite bind_ok by reflexivity. rewrite length_map.
  destruct rows as [|row rows].
  - cbn in Hchunk. injection Hchunk as <-. destruct ress; [|done].
    cbn. rewrite Hn0, Hc0. split_and!; try done.
    exists evs0. by rewrite Hr0.
  - cbn [length Nat.eqb]. rewrite Hchunk.
    set (line := _ +:+ _).
    destruct (batches_loop rest groups ress (log line w0).2 Hkey Hlen Hserved)
      as (w' & Hrun & Hn' & Hc' & evs & Ht & Hr).
    { cbn. congruence. }
    { done. }
    erewrite bind_ok by exact Hrun. cbn [log fst snd net console trace].
    rewrite Hc'. cbn. rewrite Hc0, <- !app_assoc. split_and!; try done.
    exists (evs0 ++ evs). rewrite Ht. cbn. rewrite Ht0, requests_app, Hr0, Hr.
    by rewrite <- app_assoc.
Qed.

(** ** A request that meets no response *)

(** X18: a request that fails in the network is not retried:
    the call sends that one request and throws. *)
Theorem get_network_failure_not_retried path params retries w :
  API_KEY cfg <> EmptyString ->
  mjoin (head (net w)) = None ->
  exists message evs,
    (get cfg path params retries w).1 = Abort (Thrown message) /\
    trace (get cfg path params retries w).2 = trace w ++ evs /\
    requests evs = [(path, search_params params)] /\
    net (get cfg path params retries w).2 = tl (net w).
Proof.
  intros Hkey Hnone.
  assert (get cfg path params retries w =
          (Abort (Thrown "fetch failed"),
           act (ARequest path (search_params params)) w)) as ->.
  { destruct (pace_frame w) as (Hpnet & _).
    apply String.eqb_neq in Hkey.
    unfold get. rewrite Hkey. unfold bind at 1. cbn [ret act]. unfold bind at 1.
    pose proof (pace_ok w) as Hpace.
    destruct (_pace cfg w) as [r1 w1]; cbn [fst snd] in *. subst r1.
    rewrite <- Hpnet in Hnone.
    destruct (Z.to_nat retries); rewrite get_loop_eq; cbv zeta.
    all: unfold bind at 1.
    all: unfold fetch, bind, Date_now, next_exchange, emit, suspend, ret, throw.
    all: cbn [fst snd]; by rewrite Hnone. }
  destruct (request_frame path (search_params params) w)
    as (Hn & _ & _ & _ & evs & Ht & Hr & _).
  by exists "fetch failed", evs.
Qed.

(** ** refresh-users *)

(** X19: [refreshUsers] reports a handle as done as soon as the
    API call returns: when the response holds no profile, or a profile
    without an identifier or a handle, nothing is sent to the database
    and the line still says ok. *)
Theorem refresh_reports_ok_without_profile username w res rest :
  API_KEY cfg <> EmptyString ->
  net w = Some res :: rest ->
  served res = true ->
  match profile_of (parse_body (res_body res)) with
  | None => True
  | Some u => truthy (u_id u) = false \/ truthy (u_userName u) = false
  end ->
  (refresh_guarded username w).1 = Ok tt /\
  console (refresh_guarded username w).2 =
    console w ++ ["refresh-users ok @" +:+ ToString username] /\
  db (refresh_guarded username w).2 = db w /\
  dbs (refresh_guarded username w).2 = dbs w.
Proof.
  intros Hkey Hnet Hserved Hprofile.
  destruct (request_frame "/twitter/user/info"
              (search_params [("userName", username)]) w)
    as (_ & Hc & Hs & Hd & _).
  assert (refresh_one username w =
          log ("refresh-users ok @" +:+ ToString username)
              (act (ARequest "/twitter/user/info"
                             (search_params [("userName", username)])) w))
    as Hone.
  { unfold refresh_one, getUserInfo.
    erewrite bind_ok by by apply (get_served_eq _ _ _ _ res rest).
    set (w1 := act _ w). unfold profile_of in Hprofile.
    destruct (p_user _) as [u|];
      [|destruct (p_data _) as [u|]; [|destruct (p_result _) as [u|]]].
    all: try by erewrite bind_ok by by apply upsertUser_skips.
    by erewrite bind_ok by reflexivity. }
  unfold refresh_guarded, try_catch. rewrite Hone.
  set (w1 := act _ w) in *. clearbody w1. cbn. by rewrite Hc, Hs, Hd.
Qed.

(** ** What a normalised post stores *)

Lemma pg_param_or_null v :
  pg_param (js_or v JNull) = if truthy v then Some (ToString v) else None.
Proof. unfold js_or. destruct (truthy v) eqn:Hv; [|done]. by destruct v. Qed.

Lemma truthy_text v : truthy v = true -> ToString v <> EmptyString.
Proof.
  intros Hv Hempty. apply truthy_ToString in Hv. rewrite Hempty in Hv. done.
Qed.

(** X20: the row of a normalised post always has a text, the empty
    string at worst.  Its url, the identifier of its author and the
    handle of its author are NULL exactly when the payload has nothing
    there (no value, or a falsy one such as the empty string), and the
    text of the value otherwise: never the empty string.  The handle is
    read from [userName] and, failing that, from [username].  A
    creation time is stored only for a payload that has one that
    parses. *)
Theorem normalizeTweet_columns t :
  let row := tweet_params (normalizeTweet t) in
  let column v := if truthy v then Some (ToString v) else None in
  text_col row =
    Some (if truthy (t_text t) then ToString (t_text t) else EmptyString) /\
  url_col row = column (t_url t) /\
  author_user_id_col row = column (author_field a_id t) /\
  author_username_col row =
    (if truthy (author_field a_userName t)
     then Some (ToString (author_field a_userName t))
     else column (author_field a_username t)) /\
  created_at_col row =
    (if truthy (t_createdAt t) then new_Date (t_createdAt t) else None) /\
  url_col row <> Some EmptyString /\
  author_user_id_col row <> Some EmptyString /\
  author_username_col row <> Some EmptyString.
Proof.
  cbv zeta. cbn [tweet_params normalizeTweet text_col url_col author_user_id_col
                 author_username_col created_at_col text url author_user_id
                 author_username created_at].
  assert (forall v, truthy v = true -> pg_param v = Some (ToString v)) as Hp
      by (by intros []).
  assert (forall v, (if truthy v then Some (ToString v) else None)
                    <> Some EmptyString) as Hne.
  { intros v. destruct (truthy v) eqn:H; [|done].
    intros [= Heq]. by apply (truthy_text _ H). }
  assert (author_username_col
            (tweet_params (normalizeTweet t)) =
          (if truthy (author_field a_userName t)
           then Some (ToString (author_field a_userName t))
           else if truthy (author_field a_username t)
                then Some (ToString (author_field a_username t)) else None))
    as Hname.
  { cbn. unfold js_or at 1. destruct (truthy (author_field a_userName t)) eqn:H.
    - by apply Hp.
    - apply pg_param_or_null. }
  cbn in Hname.
  split_and!.
  - unfold js_or. destruct (truthy (t_text t)) eqn:H; [|done]. by apply Hp.
  - apply pg_param_or_null.
  - by destruct (truthy (author_field a_id t)).
  - exact Hname.
  - unfold parseCreatedAt. destruct (truthy (t_createdAt t)); [|done].
    by destruct (new_Date (t_createdAt t)).
  - rewrite pg_param_or_null. apply Hne.
  - destruct (truthy (author_field a_id t)) eqn:H; [|done]. cbn.
    intros [= Heq]. by apply (truthy_text _ H).
  - rewrite Hname. destruct (truthy (author_field a_userName t)) eqn:H.
    + intros [= Heq]. by apply (truthy_text _ H).
    + apply Hne.
Qed.

(** ** The cursor written is the cursor of the next request *)

Lemma no_statement_no_cursor_write evs :
  statements evs = [] -> no_cursor_write evs.
Proof.
  induction evs as [|e evs IH]; [constructor|].
  destruct e; cbn; try done; intros H; (apply Forall_cons; split; [done|by apply IH]).
Qed.

Lemma scan_requests evs : Forall scan_event evs -> requests evs = [].
Proof.
  induction 1 as [|e evs He _ IH]; [done|].
  destruct e as [| |[]|]; cbn in *; done.
Qed.

Lemma cursor_leads_none cid evs : no_cursor_write evs -> cursor_leads cid evs.
Proof.
  intros Hno pre c reply post r -> _. exfalso.
  apply Forall_app in Hno as [_ Hno]. apply Forall_cons in Hno as [Hno _]. done.
Qed.

Lemma cursor_leads_write cid c reply rest :
  cursor_leads cid rest ->
  (forall r, head (requests rest) = Some r ->
             exists v,
               c = pg_param v /\
               r = ("/twitter/community/tweets",
                    search_params [("community_id", JStr cid); ("cursor", v)])) ->
  cursor_leads cid (EvQuery (QSetBackfillCursor cid c) reply :: rest).
Proof.
  intros Hrest Hhead pre c0 reply0 post r Heq Hr.
  destruct pre as [|p pre]; cbn in Heq.
  - injection Heq as <- <- <-. by apply Hhead.
  - injection Heq as _ ->. by eapply Hrest.
Qed.

Lemma cursor_leads_app cid l1 l2 :
  no_cursor_write l1 -> cursor_leads cid l2 -> cursor_leads cid (l1 ++ l2).
Proof.
  induction l1 as [|a l1 IH]; intros Hno Hl2; [done|].
  apply Forall_cons in Hno as [Ha Hno].
  intros pre c reply post r Heq Hr. destruct pre as [|p pre]; cbn in Heq.
  - injection Heq as -> _. done.
  - injection Heq as _ Heq. by eapply (IH Hno Hl2).
Qed.

Lemma backfill_pages_leads cid cutoffTs n : forall page cursor total w,
  wp (backfill_pages cid cutoffTs n page cursor total)
     (fun _ w' =>
        exists evs,
          trace w' = trace w ++ evs /\
          cursor_leads cid evs /\
          forall r,
            head (requests evs) = Some r ->
            r = ("/twitter/community/tweets",
                 search_params [("community_id", JStr cid);
                                ("cursor", cursor)])) w.
Proof.
  induction n as [|n IH]; intros page cursor total w; cbn [backfill_pages].
  { wp_step. exists []. rewrite app_nil_r. split; [done|].
    split; [apply cursor_leads_none; constructor|done]. }
  wp_step. unfold getCommunityTweets. apply wp_intro.
  destruct (get_requests_shape
              "/twitter/community/tweets"
              [("community_id", JStr cid); ("cursor", cursor)] 6 w)
    as (evsA & HtA & HallA & HsA & _ & Hkey).
  apply no_statement_no_cursor_write in HsA.
  assert (forall rest r,
             requests evsA <> [] ->
             head (requests (evsA ++ rest)) = Some r ->
             r = ("/twitter/community/tweets",
                  search_params [("community_id", JStr cid);
                                 ("cursor", cursor)])) as Hfirst.
  { intros rest r Hne. rewrite requests_app.
    destruct (requests evsA) as [|r0 rs]; [done|]. cbn. intros [= <-].
    by inversion HallA. }
  destruct (String.eqb (API_KEY cfg) EmptyString).
  { destruct Hkey as [-> ->]. exists []. split; [done|].
    split; [apply cursor_leads_none; constructor|done]. }
  destruct (get cfg _ _ 6 w) as [[data|e] w1]; cbn [fst snd] in *.
  2: { exists evsA. split; [done|]. split; [by apply cursor_leads_none|].
       intros r. rewrite <- (app_nil_r evsA). by apply Hfirst. }
  wp_step.
  eapply wp_mono; [apply backfill_scan_effect|].
  intros r w2 (evsB & HtB & _ & _ & HendB).
  assert (Forall scan_event evsB) as HscanB.
  { destruct r as [[[thisPage total'] reached]|[m|c|]]; cbn in HendB; try done.
    - destruct HendB as (kept & Hups & _). by eapply upsert_events_scan.
    - by destruct HendB as (? & _ & ?). }
  pose proof (scan_requests _ HscanB) as HreqB.
  pose proof (scan_no_cursor_write _ HscanB) as HnoB.
  destruct r as [[[thisPage total'] reached]|e].
  2: { exists (evsA ++ evsB). split; [by rewrite HtB, HtA, <- app_assoc|].
       split; [apply cursor_leads_none; by apply Forall_app|].
       intros r. by apply Hfirst. }
  repeat wp_step.
  1, 2: apply wp_setBackfillCursor; intros reply w' Htr _ _; wsimpl.
  1, 2: rewrite HtB, HtA, <- !app_assoc in Htr.
  1, 2: eexists; split; [exact Htr|].
  1, 2: split; [|intros r; by apply Hfirst].
  1, 2: apply cursor_leads_app; [done|]; apply cursor_leads_app; [done|].
  1, 2: apply cursor_leads_write;
    [apply cursor_leads_none; destruct reply; by repeat constructor|].
  1, 2: by destruct reply.
  apply wp_setBackfillCursor. intros reply w0 Htr _ _. wsimpl.
  rewrite HtB, HtA, <- !app_assoc in Htr.
  destruct reply as [rows|message].
  - eapply wp_mono; [apply IH|].
    intros _ w' (rest & Htr' & Hleads & Hnext). rewrite Htr, <- !app_assoc in Htr'.
    eexists. split; [exact Htr'|]. split; [|intros r; by apply Hfirst].
    apply cursor_leads_app; [done|]. apply cursor_leads_app; [done|].
    apply cursor_leads_write; [done|]. intros r Hr.
    exists (p_next_cursor data). split; [done|]. by apply Hnext.
  - eexists. split; [exact Htr|]. split; [|intros r; by apply Hfirst].
    apply cursor_leads_app; [done|]. apply cursor_leads_app; [done|].
    apply cursor_leads_write; [|done].
    apply cursor_leads_none. by repeat constructor.
Qed.

(** X21: in a run of [backfill], whatever the API and the
    database answer, the request that follows a write of the cursor
    asks for the page of the cursor just written: what is stored is
    where the run goes on. *)
Theorem backfill_cursor_leads w :
  exists evs,
    trace (backfill w).2 = trace w ++ evs /\
    cursor_leads (COMMUNITY_ID cfg) evs.
Proof.
  apply (wp_elim backfill
           (fun _ w' =>
              exists evs,
                trace w' = trace w ++ evs /\
                cursor_leads (COMMUNITY_ID cfg) evs)).
  unfold backfill. cbv zeta. repeat wp_step.
  { exists []. rewrite app_nil_r. split; [done|].
    apply cursor_leads_none. constructor. }
  eapply wp_mono; [apply getState_effect|].
  intros r w1 (evs1 & Ht1 & Hpre & _ & _).
  apply prelude_no_cursor_write in Hpre.
  destruct r as [state|e].
  2: { exists evs1. split; [done|]. by apply cursor_leads_none. }
  wp_step. apply wp_state_field.
  2: { intros message. exists (evs1 ++ [EvThrow message]). wsimpl.
       rewrite Ht1, <- app_assoc. split; [done|].
       apply cursor_leads_none, Forall_app. split; [done|]. by repeat constructor. }
  intros stored. repeat wp_step.
  eapply wp_mono; [apply backfill_pages_leads|].
  intros _ w2 (evs2 & Ht2 & Hleads & _).
  exists (evs1 ++ evs2). split; [by rewrite Ht2, Ht1, <- app_assoc|].
  by apply cursor_leads_app.
Qed.

(** ** main *)

Lemma refreshMetrics_as_number hours all :
  refreshMetrics_as (pretty hours) all = refreshMetrics hours all.
Proof. reflexivity. Qed.

Lemma refreshUsers_as_number hours :
  refreshUsers_as (pretty hours) = refreshUsers hours.
Proof. reflexivity. Qed.

Lemma stays_ret {A : Type} (a : A) : stays (ret a).
Proof. intros w. by wp_step. Qed.

Lemma stays_bind {A B : Type} (m : M A) (k : A -> M B) :
  stays m -> (forall a, stays (k a)) -> stays (bind m k).
Proof.
  intros Hm Hk w. wp_step. eapply wp_mono; [apply Hm|].
  intros [a|e] w1 H; [apply Hk|].
  intros c [= ->]. by apply (H c).
Qed.

Lemma stays_if {A : Type} (b : bool) (m1 m2 : M A) :
  stays m1 -> stays m2 -> stays (if b then m1 else m2).
Proof. by destruct b. Qed.

Lemma stays_log line : stays (log line).
Proof. intros w. by wp_step. Qed.

Lemma stays_diverge {A : Type} : stays (@diverge A).
Proof. intros w. by wp_step. Qed.

Lemma stays_Date_now : stays Date_now.
Proof. intros w. by wp_step. Qed.

Lemma stays_get_db : stays get_db.
Proof. intros w. by wp_step. Qed.

Lemma stays_throw {A : Type} message : stays (@throw A message).
Proof. intros w. by wp_step. Qed.

Lemma stays_q qr : stays (q qr).
Proof. intros w. apply wp_q. by destruct (default _ _). Qed.

Lemma stays_get path params retries :
  API_KEY cfg <> EmptyString -> stays (get cfg path params retries).
Proof.
  intros Hkey w. eapply wp_mono; [apply get_effect|].
  intros r w' [H _]. by apply H.
Qed.

Lemma stays_for_of {A : Type} (xs : list A) (body : A -> M unit) :
  (forall x, stays (body x)) -> stays (for_of xs body).
Proof.
  intros Hbody. induction xs as [|x xs IH]; cbn [for_of].
  - apply stays_ret.
  - apply stays_bind; [apply Hbody|by intros _].
Qed.

Lemma stays_try_catch {A : Type} (m : M A) (handler : string -> M A) :
  stays m -> (forall message, stays (handler message)) ->
  stays (try_catch m handler).
Proof.
  intros Hm Hh w. apply wp_try_catch. eapply wp_mono; [apply Hm|].
  intros [a|[message|c|]] w1 H; try done. apply Hh.
Qed.

Create HintDb stays discriminated.
Hint Resolve stays_ret stays_log stays_diverge stays_Date_now stays_get_db stays_throw
     stays_q stays_get stays_for_of stays_try_catch : stays.
Hint Extern 1 (stays (bind _ _)) => apply stays_bind; [|intros ?] : stays.
Hint Extern 1 (stays (if _ then _ else _)) => apply stays_if : stays.
Hint Extern 2 (stays (match ?x with _ => _ end)) => destruct x : stays.

Section Configured.
Hypothesis Hkey : API_KEY cfg <> EmptyString.
Hypothesis Hcid : COMMUNITY_ID cfg <> EmptyString.

Lemma stays_upsertCommunityTweet cid tw : stays (upsertCommunityTweet cid tw).
Proof. unfold upsertCommunityTweet. auto with stays. Qed.

Lemma stays_getState cid : stays (getState cid).
Proof. unfold getState, ensureStateRow. auto 10 with stays. Qed.

Lemma stays_state_field f state : stays (state_field f state).
Proof. unfold state_field. auto with stays. Qed.

Lemma stays_backfill_scan cid cutoffTs tweets : forall a b,
  stays (backfill_scan cid cutoffTs tweets a b).
Proof.
  induction tweets as [|t tweets IH]; intros a b; cbn [backfill_scan];
    auto using stays_upsertCommunityTweet with stays.
Qed.

Lemma stays_backfill_pages cid cutoffTs n : forall page cursor total,
  stays (backfill_pages cid cutoffTs n page cursor total).
Proof.
  induction n as [|n IH]; intros page cursor total; cbn [backfill_pages].
  - auto with stays.
  - unfold getCommunityTweets, setBackfillCursor.
    apply stays_bind; [auto with stays|]. intros data.
    apply stays_bind; [apply stays_backfill_scan|].
    intros [[thisPage total'] reached]. auto 12 with stays.
Qed.

Lemma stays_backfill : stays backfill.
Proof.
  unfold backfill. cbv zeta. apply String.eqb_neq in Hcid. rewrite Hcid.
  auto 10 using stays_getState, stays_state_field, stays_backfill_pages
    with stays.
Qed.

Lemma stays_ingest_scan cid stopId tweets : forall inserted,
  stays (ingest_scan cid stopId tweets inserted).
Proof.
  induction tweets as [|t tweets IH]; intros inserted; cbn [ingest_scan];
    auto using stays_upsertCommunityTweet with stays.
Qed.

Lemma stays_ingest_pages cid stopId n :
  forall page cursor newLastSeen inserted,
  stays (ingest_pages cid stopId n page cursor newLastSeen inserted).
Proof.
  induction n as [|n IH]; intros page cursor newLastSeen inserted;
    cbn [ingest_pages].
  - auto with stays.
  - unfold getCommunityTweets.
    apply stays_bind; [auto with stays|]. intros data. cbv zeta.
    apply stays_bind; [apply stays_ingest_scan|].
    intros [inserted' stopped]. auto 10 with stays.
Qed.

Lemma stays_ingestNew : stays ingestNew.
Proof.
  unfold ingestNew, setLastSeenTweetId. cbv zeta.
  apply String.eqb_neq in Hcid. rewrite Hcid.
  auto 10 using stays_getState, stays_state_field, stays_ingest_pages
    with stays.
Qed.

Lemma stays_upsertMetrics m : stays (upsertMetrics m).
Proof. unfold upsertMetrics. auto with stays. Qed.

Lemma stays_upsertUser u : stays (upsertUser u).
Proof. unfold upsertUser. cbv zeta. auto with stays. Qed.

Lemma stays_refreshMetrics_as hours all : stays (refreshMetrics_as hours all).
Proof.
  unfold refreshMetrics_as, getTweetsByIds. cbv zeta.
  apply String.eqb_neq in Hcid. rewrite Hcid.
  auto 12 using stays_upsertMetrics with stays.
Qed.

Lemma stays_refreshUsers_as hours : stays (refreshUsers_as hours).
Proof.
  unfold refreshUsers_as, refresh_guarded, refresh_one, getUserInfo. cbv zeta.
  apply String.eqb_neq in Hcid. rewrite Hcid.
  auto 12 using stays_upsertUser with stays.
Qed.

Lemma stays_sync_pages cid fuel : forall cursor total,
  stays (sync_pages cid fuel cursor total).
Proof.
  induction fuel as [|fuel IH]; intros cursor total; cbn [sync_pages].
  - auto with stays.
  - unfold getCommunityMembers, sync_member. cbv zeta.
    auto 12 using stays_upsertUser with stays.
Qed.

Lemma stays_syncMembers : stays syncMembers.
Proof.
  unfold syncMembers. cbv zeta. apply String.eqb_neq in Hcid. rewrite Hcid.
  apply stays_bind; [auto with stays|]. intros _.
  apply stays_bind; [|auto with stays].
  intros w. apply wp_intro.
  exact (wp_elim _ _ _ (stays_sync_pages _ _ _ _ w)).
Qed.

Lemma stays_doctor : DATABASE_URL <> EmptyString -> stays doctor.
Proof.
  intros Hurl. unfold doctor, getCommunityTweets. cbv zeta.
  rewrite (proj2 (String.eqb_neq _ _) Hcid), (proj2 (String.eqb_neq _ _) Hkey),
    (proj2 (String.eqb_neq _ _) Hurl).
  cbn [orb]. auto 12 with stays.
Qed.
End Configured.


(** X23: but for [user-stats], [main] ends the process only before
    any work is done: when a variable is missing or the command is
    unknown, with code 1 and with no request and no statement sent;
    once a driver has started, it ends or throws. *)
Theorem main_exits_before_work argv w c :
  argv !! 2%nat <> Some "user-stats" ->
  (main argv w).1 = Abort (Exited c) ->
  c = 1 /\ trace (main argv w).2 = trace w /\ db (main argv w).2 = db w /\
  net (main argv w).2 = net w /\ dbs (main argv w).2 = dbs w.
Proof.
  intros Hcmd Hexit.
  enough (wp (main argv)
             (fun r w' =>
                forall c, r = Abort (Exited c) ->
                          c = 1 /\ trace w' = trace w /\ db w' = db w /\
                          net w' = net w /\ dbs w' = dbs w) w) as H.
  { apply wp_elim in H. by apply H. }
  clear Hexit. unfold main.
  destruct (argv !! 2%nat) as [cmd|]; [|by wp_step].
  destruct (_ || _); [by wp_step|].
  wp_step. wp_step; wp_step; [by intros c' [= <-]|].
  wp_step. wp_step; wp_step; [by intros c' [= <-]|].
  wp_step. wp_step; wp_step; [by intros c' [= <-]|].
  repeat match goal with
         | H : String.eqb _ EmptyString = false |- _ =>
             apply String.eqb_neq in H
         end.
  assert (forall (m : M unit),
             stays m ->
             wp m (fun r w' =>
                     forall c, r = Abort (Exited c) ->
                               c = 1 /\ trace w' = trace w /\ db w' = db w /\
                               net w' = net w /\ dbs w' = dbs w) w) as Hstays.
  { intros m Hm. eapply wp_mono; [apply Hm|]. intros r w' Hr c' ->.
    by destruct (Hr c'). }
  destruct (String.eqb cmd "doctor"); [by apply Hstays, stays_doctor|].
  destruct (String.eqb cmd "backfill"); [by apply Hstays, stays_backfill|].
  destruct (String.eqb cmd "ingest-new"); [by apply Hstays, stays_ingestNew|].
  destruct (String.eqb cmd "refresh-metrics");
    [by apply Hstays, stays_refreshMetrics_as|].
  destruct (String.eqb cmd "refresh-users");
    [by apply Hstays, stays_refreshUsers_as|].
  destruct (String.eqb cmd "sync-members");
    [by apply Hstays, stays_syncMembers|].
  destruct (String.eqb cmd "user-stats") eqn:Hstats.
  { apply String.eqb_eq in Hstats. by subst cmd. }
  wp_step. by intros c' [= <-].
Qed.

Lemma after_eq_flag text : after_eq ("--hours=" +:+ text) = Some text.
Proof. reflexivity. Qed.

(** X24: with the environment set, [main] runs [refresh-users] and
    [refresh-metrics] for the number of hours of the first [--hours=]
    argument: the text that follows it, up to a second ["="], read as
    a number, which need not be an integer, and written back as text;
    and for the configured default when there is no such argument.
    [refresh-metrics] covers all posts exactly when [--all] is among
    the arguments. *)
Theorem main_hours_flag argv w :
  DATABASE_URL <> EmptyString ->
  COMMUNITY_ID cfg <> EmptyString ->
  API_KEY cfg <> EmptyString ->
  let all := existsb (String.eqb "--all") argv in
  match List.find (String.prefix "--hours=") argv with
  | None =>
      (argv !! 2%nat = Some "refresh-users" ->
       main argv w = refreshUsers (ACTIVE_HOURS cfg) w) /\
      (argv !! 2%nat = Some "refresh-metrics" ->
       main argv w = refreshMetrics (RECENT_HOURS cfg) all w)
  | Some flag =>
      forall text,
        flag = "--hours=" +:+ text ->
        let hours := Number_text (upto_eq text) in
        (argv !! 2%nat = Some "refresh-users" ->
         main argv w = refreshUsers_as hours w) /\
        (argv !! 2%nat = Some "refresh-metrics" ->
         main argv w = refreshMetrics_as hours all w) /\
        (forall n, hours = pretty n ->
                   refreshUsers_as hours = refreshUsers n /\
                   refreshMetrics_as hours all = refreshMetrics n all)
  end.
Proof.
  intros Hurl Hcid Hkey. cbv zeta.
  apply String.eqb_neq in Hurl, Hcid, Hkey.
  assert (forall m : M unit, bind (ret tt) (fun _ => m) w = m w) as Hret by done.
  destruct (List.find _ argv) as [flag|] eqn:Hflag.
  - intros text ->.
    split_and!; [| |by intros n ->].
    all: intros Hcmd; unfold main, hours_flag, split_eq_1;
      rewrite Hcmd, Hflag, after_eq_flag, Hurl, Hcid, Hkey.
    all: repeat match goal with
                | |- context [String.eqb "refresh-users" ?b] =>
                    let v := eval vm_compute in (String.eqb "refresh-users" b) in
                    change (String.eqb "refresh-users" b) with v
                | |- context [String.eqb "refresh-metrics" ?b] =>
                    let v := eval vm_compute in (String.eqb "refresh-metrics" b) in
                    change (String.eqb "refresh-metrics" b) with v
                end.
    all: cbv beta iota; cbn [orb]; cbv beta iota.
    all: by rewrite !Hret.
  - split; intros Hcmd; unfold main, hours_flag;
      rewrite Hcmd, Hflag, Hurl, Hcid, Hkey.
    all: repeat match goal with
                | |- context [String.eqb "refresh-users" ?b] =>
                    let v := eval vm_compute in (String.eqb "refresh-users" b) in
                    change (String.eqb "refresh-users" b) with v
                | |- context [String.eqb "refresh-metrics" ?b] =>
                    let v := eval vm_compute in (String.eqb "refresh-metrics" b) in
                    change (String.eqb "refresh-metrics" b) with v
                end.
    all: cbv beta iota; cbn [orb]; cbv beta iota.
    all: by rewrite !Hret.
Qed.

(** ** A page that is not JSON *)

(** X25: a response that is ok but whose body is empty or is not
    JSON counts as a last page without posts: the run of [backfill]
    ends normally after that one request, writes no post and clears
    the stored cursor, so that the next run starts from the first
    page. *)
Theorem backfill_clears_cursor_on_empty_body w res rest :
  COMMUNITY_ID cfg <> EmptyString ->
  API_KEY cfg <> EmptyString ->
  0 < BACKFILL_PAGES_PER_RUN cfg ->
  db_up w ->
  net w = Some res :: rest ->
  ok res = true ->
  res_body res = BodyEmpty \/ (exists text, res_body res = BodyText text) ->
  (backfill w).1 = Ok tt /\
  net (backfill w).2 = rest /\
  community_tweets (db (backfill w).2) = community_tweets (db w) /\
  exists row,
    ingest_state (db (backfill w).2) !! COMMUNITY_ID cfg = Some row /\
    backfill_cursor row = None.
Proof.
  intros Hcid Hkey Hpages Hup Hnet Hok Hbody.
  assert (parse_body (res_body res) = empty_payload) as Hdata
      by (by destruct Hbody as [->|[text ->]]).
  assert (served res = true) as Hserved
      by (unfold served; by rewrite Hok, Hdata).
  rewrite (backfill_answered w Hcid Hup). cbv zeta.
  set (cid := COMMUNITY_ID cfg).
  set (w1 := answered (QEnsureStateRow cid) w).
  set (w2 := answered (QSelectState cid) w1).
  assert (db_up w2) as Hup2 by (by repeat apply answered_db_up).
  assert (exists row1, ingest_state (db w2) !! cid = Some row1) as [row1 Hrow1].
  { unfold w2, w1. cbn. destruct (ingest_state (db w) !! cid) eqn:Hrow.
    - rewrite Hrow. by eexists.
    - cbn. rewrite lookup_insert_eq. by eexists. }
  assert (community_tweets (db w2) = community_tweets (db w)) as Hposts.
  { unfold w2, w1. cbn. by destruct (ingest_state (db w) !! cid). }
  assert (tail (net w2) = rest) as Hnet2 by (cbn; by rewrite Hnet).
  assert (net w2 = Some res :: rest) as Hnet2' by done.
  destruct (Z.to_nat (BACKFILL_PAGES_PER_RUN cfg)) as [|n] eqn:Hn; [lia|].
  match goal with
  | |- context [backfill_pages cid ?cutoff (S n) 1 ?cursor 0 w2] =>
      apply (wp_elim (backfill_pages cid cutoff (S n) 1 cursor 0)
               (fun r w' =>
                  r = Ok tt /\ net w' = rest /\
                  community_tweets (db w') = community_tweets (db w) /\
                  exists row,
                    ingest_state (db w') !! cid = Some row /\
                    backfill_cursor row = None));
      destruct (request_frame
                  "/twitter/community/tweets"
                  (search_params [("community_id", JStr cid); ("cursor", cursor)])
                  w2) as (Hn3 & _ & Hs3 & Hd3 & _)
  end.
  cbn [backfill_pages]. unfold getCommunityTweets. wp_step.
  eapply wp_run; [by apply (get_served_eq _ _ _ _ res rest Hkey)|].
  cbv beta iota. set (w3 := act _ w2) in *. clearbody w3.
  rewrite Hdata. cbn [tweets_of empty_payload p_tweets default backfill_scan].
  repeat wp_step;
    [|match goal with H : no_next_page empty_payload = false |- _ =>
        discriminate H end].
  unfold setBackfillCursor. wp_step. apply wp_q. wsimpl.
  assert (exists rows, default (DbOk []) (head (dbs w3)) = DbOk rows)
    as [rows ->].
  { rewrite Hs3. by apply db_up_head. }
  repeat wp_step. cbn. rewrite Hn3, Hnet2, Hd3, lookup_alter_eq, Hrow1, Hposts.
  split_and!; try done. by eexists.
Qed.


End Platform.

(** * Examples *)

(** The post T3 is stored with the handle alice; upserted again without
    an author it keeps the handle and takes the new text. *)
Lemma upsertCommunityTweet_coalesces_witness :
  exists stored,
    community_tweets (db (upsertCommunityTweet "c1" anonymous_post w_post).2)
      !! ("c1", "T3") = Some stored /\
    author_username_col stored = Some "alice" /\
    text_col stored = Some "hello again".
Proof.
  destruct (upsertCommunityTweet_coalesces "c1" anonymous_post stored_post [] w_post)
    as (stored & _ & Hrow & _ & _ & Hname & _ & Htext & _).
  - reflexivity.
  - reflexivity.
  - exists stored. split; [exact Hrow|]. split; [exact Hname|exact Htext].
Defined.

(** A user without a handle leaves the world as it is. *)
Lemma upsertUser_drops_incomplete_witness :
  truthy (u_userName no_handle) = false /\
  upsertUser demo_StringToNumber no_handle w_post = (Ok tt, w_post).
Proof.
  split; [reflexivity|].
  apply (upsertUser_drops_incomplete demo_StringToNumber no_handle w_post).
  right. reflexivity.
Defined.

(** On the page T3, T2, T1 the date of T2 does not parse: T2 is upserted
    after T3 and the scan goes on with T1. *)
Lemma unparsed_date_bypasses_cutoff_witness :
  parseCreatedAt demo_Date_parse (t_createdAt (post "T2" "soon")) = None /\
  exists w1 evs e,
    backfill_scan demo_Date_parse "c1" (Some cutoff0)
                  ([post "T3" "2024-01-01T00:00:00.000Z"] ++ post "T2" "soon"
                   :: [post "T1" "2020-01-01T00:00:00.000Z"]) 0 0 w_post =
    backfill_scan demo_Date_parse "c1" (Some cutoff0)
                  [post "T1" "2020-01-01T00:00:00.000Z"] 2 2 w1 /\
    trace w1 = trace w_post ++ evs ++ [e] /\
    upsert_event "c1" (normalizeTweet demo_Date_parse (post "T2" "soon")) e.
Proof.
  split; [reflexivity|].
  destruct (proj2 (unparsed_date_bypasses_cutoff demo_Date_parse "c1"
                     (Some cutoff0) (post "T2" "soon") eq_refl)
                  [post "T3" "2024-01-01T00:00:00.000Z"]
                  [post "T1" "2020-01-01T00:00:00.000Z"] 0 0 w_post)
    as (w1 & evs & e & Hscan & Htrace & _ & Hevent & _).
  - constructor.
  - repeat constructor.
  - exists w1, evs, e. split; [exact Hscan|]. split; [exact Htrace|exact Hevent].
Defined.

(** The run on [w0] starts thirty days after [cutoff0]; its first page
    is T3, T2, T1 with T1 older than the cutoff: after the request T3
    and T2 are upserted, the cursor is set to null and the run ends. *)
Lemma backfill_stops_at_cutoff_witness :
  (backfill demo_Date_parse cfg0 w0).1 = Ok tt /\
  exists ups reply,
    drop 3 (trace (backfill demo_Date_parse cfg0 w0).2) =
      ups ++ [EvQuery (QSetBackfillCursor "c1" None) reply] /\
    Forall2 (upsert_event "c1")
            (map (normalizeTweet demo_Date_parse)
                 [post "T3" "2024-01-01T00:00:00.000Z"; post "T2" "soon"]) ups.
Proof.
  destruct (backfill_stops_at_cutoff demo_Date_parse cfg0 w0
              [EvQuery (QEnsureStateRow "c1") (DbOk []);
               EvQuery (QSelectState "c1") (DbOk [])]
              1704070000000 "/twitter/community/tweets" [("community_id", "c1")]
              (mkResponse 200 (BodyJson page1))
              (drop 3 (trace (backfill demo_Date_parse cfg0 w0).2))
              [post "T3" "2024-01-01T00:00:00.000Z"; post "T2" "soon"]
              (post "T1" "2020-01-01T00:00:00.000Z") [] 1577836800000)
    as (Hok & (ups & reply & Hevs & _ & Hups) & _).
  - discriminate.
  - reflexivity.
  - constructor.
  - vm_compute. discriminate.
  - vm_compute. reflexivity.
  - reflexivity.
  - reflexivity.
  - repeat constructor; vm_compute; intros ts' H; inversion H; discriminate.
  - reflexivity.
  - reflexivity.
  - split; [exact Hok|]. exists ups, reply. split; [exact Hevs|exact Hups].
Defined.

(** On the page T3, T2, T1 the only write of the cursor follows the
    request and the upserts of T3 and T2, and writes null. *)
Lemma backfill_cursor_follows_scan_witness :
  exists evs t,
    trace (backfill demo_Date_parse cfg0 w0).2 = trace w0 ++ evs /\
    cursor_follows_scan demo_Date_parse "c1"
                        (Some (t - 30 * 24 * 3600 * 1000)) evs /\
    length (filter (fun e => is_cursor_write e = true) evs) = 1%nat.
Proof.
  destruct (backfill_cursor_follows_scan demo_Date_parse cfg0 w0)
    as (evs & t & Htrace & Hscan & _).
  exists evs, t. split; [exact Htrace|]. split; [exact Hscan|].
  apply (app_inv_head (trace w0)) in Htrace. rewrite <- Htrace.
  vm_compute. reflexivity.
Defined.

(** C1, as the specification words it, fails: on a page whose only post
    is older than the cutoff the driver writes the cursor although the
    post it normalised was never upserted. *)
Lemma backfill_cursor_written_without_upsert :
  trace (backfill demo_Date_parse cfg0 w_old).2 =
    [EvQuery (QEnsureStateRow "c1") (DbOk []);
     EvQuery (QSelectState "c1") (DbOk []);
     EvFetch 1704070000000 "/twitter/community/tweets" [("community_id", "c1")]
             (Some (mkResponse 200 (BodyJson old_page)));
     EvQuery (QSetBackfillCursor "c1" None) (DbOk [])] /\
  ~ cursor_follows_page demo_Date_parse "c1"
      (trace (backfill demo_Date_parse cfg0 w_old).2).
Proof.
  assert (trace (backfill demo_Date_parse cfg0 w_old).2 =
    [EvQuery (QEnsureStateRow "c1") (DbOk []);
     EvQuery (QSelectState "c1") (DbOk []);
     EvFetch 1704070000000 "/twitter/community/tweets" [("community_id", "c1")]
             (Some (mkResponse 200 (BodyJson old_page)));
     EvQuery (QSetBackfillCursor "c1" None) (DbOk [])]) as Htrace
    by (vm_compute; reflexivity).
  split; [exact Htrace|]. rewrite Htrace. intros Hclaim.
  destruct (Hclaim
              [EvQuery (QEnsureStateRow "c1") (DbOk []);
               EvQuery (QSelectState "c1") (DbOk []);
               EvFetch 1704070000000 "/twitter/community/tweets"
                       [("community_id", "c1")]
                       (Some (mkResponse 200 (BodyJson old_page)))]
              None (DbOk []) [] eq_refl)
    as (pre0 & t & sp & res & ups & Hpre & Hups).
  destruct pre0 as [|e1 [|e2 [|e3 [|e4 pre0]]]]; simpl in Hpre;
    try discriminate Hpre.
  inversion Hpre; subst. simpl in Hups. inversion Hups.
Qed.

(** The first page starts with T100 and the stored watermark T90 is
    never met: the run takes its three pages and stores T100. *)
Lemma ingestNew_persists_head_witness :
  (ingestNew demo_Date_parse cfg0 w_head).1 = Ok tt /\
  last_seen_tweet_id
    <$> ingest_state (db (ingestNew demo_Date_parse cfg0 w_head).2) !! "c1"
  = Some (Some "T100") /\
  length (net (ingestNew demo_Date_parse cfg0 w_head).2) = 1%nat.
Proof.
  split; [vm_compute; reflexivity|]. split; [|vm_compute; reflexivity].
  refine (proj2 (ingestNew_persists_head demo_Date_parse cfg0 w_head
                   (Some (mkStateRow None (Some "T90")))
                   (getState "c1" w_head).2
                   (page_of ["T100"; "T99"] (JStr "n1"))
                   (getCommunityTweets cfg0 "c1" JNull (getState "c1" w_head).2).2
                   (ingestNew demo_Date_parse cfg0 w_head).2 _ _ _ _ _)).
  - discriminate.
  - vm_compute. discriminate.
  - vm_compute. reflexivity.
  - vm_compute. reflexivity.
  - vm_compute. reflexivity.
Defined.

(** The sync state of [w_mark] holds the watermark T98, the third item
    of the first page: after the request T100 and T99 are upserted,
    the new watermark is stored and the second page is not requested. *)
Lemma ingest_stops_at_watermark_witness :
  (ingestNew demo_Date_parse cfg0 w_mark).1 = Ok tt /\
  (exists ups last,
      drop 3 (trace (ingestNew demo_Date_parse cfg0 w_mark).2) = ups ++ last /\
      Forall2 (upsert_event "c1")
              (map (normalizeTweet demo_Date_parse)
                   [post "T100" "2024-01-01T00:00:00.000Z";
                    post "T99" "2024-01-01T00:00:00.000Z"]) ups /\
      (last = [] \/
       exists id reply, last = [EvQuery (QSetLastSeenTweetId "c1" id) reply])) /\
  net (ingestNew demo_Date_parse cfg0 w_mark).2 =
    [served_page ["T96"] (JStr "n2")].
Proof.
  destruct (proj1 (ingest_stops_at_watermark demo_Date_parse cfg0 w_mark
                     (mkStateRow None (Some "T98")) "T98"
                     [EvQuery (QEnsureStateRow "c1") (DbOk []);
                      EvQuery (QSelectState "c1") (DbOk [])]
                     1704070000000 "/twitter/community/tweets"
                     [("community_id", "c1")]
                     (mkResponse 200
                        (BodyJson (page_of ["T100"; "T99"; "T98"; "T97"]
                                           (JStr "n1"))))
                     (drop 3 (trace (ingestNew demo_Date_parse cfg0 w_mark).2))
                     ltac:(discriminate) ltac:(constructor) eq_refl eq_refl
                     ltac:(discriminate) ltac:(vm_compute; reflexivity) eq_refl)
                  [post "T100" "2024-01-01T00:00:00.000Z";
                   post "T99" "2024-01-01T00:00:00.000Z"]
                  (post "T98" "2024-01-01T00:00:00.000Z")
                  [post "T97" "2024-01-01T00:00:00.000Z"])
    as (Hok & Hevs).
  - reflexivity.
  - repeat constructor; discriminate.
  - reflexivity.
  - split; [exact Hok|]. split; [exact Hevs|]. vm_compute. reflexivity.
Defined.

(** Each of the three handles fails in its own way, each leaves its
    line with the message of its failure, and the run ends normally. *)
Lemma refreshUsers_isolates_failures_witness :
  (refreshUsers demo_StringToNumber cfg0 24 w_users).1 = Ok tt /\
  console (refreshUsers demo_StringToNumber cfg0 24 w_users).2 =
    ["refresh-users: found 3 active users (last 24h)";
     "refresh-users fail @alice: boom @ /twitter/user/info";
     "refresh-users fail @bob: deadlock detected";
     "refresh-users fail @carol: fetch failed";
     "refresh-users done."] /\
  (exists blocks,
      Forall2 handled [JStr "alice"; JStr "bob"; JStr "carol"] blocks) /\
  unwinds (backfill demo_Date_parse cfg0).
Proof.
  destruct (refreshUsers_isolates_failures demo_Date_parse demo_StringToNumber cfg0 24
              w_users [JStr "alice"; JStr "bob"; JStr "carol"])
    as [(blocks & Hok & _ & _ & Hblocks) (Hbackfill & _)].
  - discriminate.
  - discriminate.
  - reflexivity.
  - split; [exact Hok|]. split; [vm_compute; reflexivity|].
    split; [exists blocks; exact Hblocks|exact Hbackfill].
Defined.



(** Seven 429 in a row: six retries, after 6.2, 7.2, ... 11.2 seconds,
    and then the error of the seventh response. *)
Lemma get_retries_429_witness :
  (get cfg0 "/twitter/user/info" [("userName", JStr "bob")] 6 w_limited).1 =
    Abort (Thrown "one request every 5 seconds @ /twitter/user/info") /\
  sleeps (trace (get cfg0 "/twitter/user/info" [("userName", JStr "bob")] 6
                     w_limited).2) =
    [6200; 7200; 8200; 9200; 10200; 11200].
Proof.
  destruct (get_retries_429 cfg0 "/twitter/user/info" [("userName", JStr "bob")] 6
              (replicate 6 too_many) too_many [] w_limited)
    as (w1 & evs & Hget & _ & _ & _ & _ & _ & _ & Hthrow).
  - discriminate.
  - repeat constructor.
  - vm_compute. discriminate.
  - reflexivity.
  - right. reflexivity.
  - split; [|vm_compute; reflexivity].
    rewrite Hget. exact (Hthrow eq_refl).
Defined.

(** C5, as the specification words it, fails: the error raised once the
    retries are used up is the error a response 500 with the same body
    raises; nothing tells a rate limit from another HTTP failure. *)
Lemma rate_limit_error_is_the_http_error :
  (get cfg0 "/twitter/user/info" [("userName", JStr "bob")] 6 w_limited).1 =
    Abort (Thrown "one request every 5 seconds @ /twitter/user/info") /\
  (get cfg0 "/twitter/user/info" [("userName", JStr "bob")] 6 w_broken).1 =
    Abort (Thrown "one request every 5 seconds @ /twitter/user/info").
Proof. split; vm_compute; reflexivity. Qed.


(** Seven identifiers in groups of three. *)
Lemma chunk_partitions_witness :
  exists groups,
    chunk ["a"; "b"; "c"; "d"; "e"; "f"; "g"] 3 = Some groups /\
    concat groups = ["a"; "b"; "c"; "d"; "e"; "f"; "g"] /\
    Z.of_nat (length groups) = 3.
Proof.
  destruct (chunk_partitions ["a"; "b"; "c"; "d"; "e"; "f"; "g"] 3)
    as (groups & Hchunk & Hcat & _ & _ & Hcount & _).
  - lia.
  - exists groups. split; [exact Hchunk|]. split; [exact Hcat|exact Hcount].
Defined.

(** The row of the community of [w_head] is returned as it is. *)
Lemma getState_ensures_row_witness :
  exists row, (getState "c1" w_head).1 = Ok (Some row) /\
              ingest_state (db (getState "c1" w_head).2) !! "c1" = Some row.
Proof.
  destruct (getState_ensures_row "c1" w_head) as (row & Hret & Hrow & _).
  - constructor.
  - exists row. split; [exact Hret|exact Hrow].
Defined.

(** The cursor cur9 written over the state of [w_head] is read back,
    beside the watermark T90. *)
Lemma state_setters_round_trip_witness :
  (getState "c1" (setBackfillCursor "c1" (JStr "cur9") w_head).2).1 =
  Ok (Some (mkStateRow (Some "cur9") (Some "T90"))).
Proof.
  pose proof (state_setters_round_trip "c1" (JStr "cur9") w_head
                ltac:(constructor)) as H.
  assert (ingest_state (db w_head) !! "c1" = Some (mkStateRow None (Some "T90")))
    as Hrow by (vm_compute; reflexivity).
  rewrite Hrow in H. exact (proj1 H).
Defined.

(** The metrics of T3: ten views, and no like counter, stored as 0. *)
Lemma upsertMetrics_overwrites_witness :
  tweet_metrics_latest (db (upsertMetrics demo_StringToNumber measured w_post).2)
    !! "T3" =
  Some (mkMetricsRow (Some 10) (Some 0) (Some 2) (Some 0) (Some 0) (Some 0)).
Proof.
  destruct (upsertMetrics_overwrites demo_StringToNumber measured [] w_post)
    as (_ & Hrow & _).
  - reflexivity.
  - exact Hrow.
Defined.

(** Bob has no picture: the column is NULL. *)
Lemma upsertUser_overwrites_witness :
  users (db (upsertUser demo_StringToNumber bob w_post).2) !! "7" =
  Some (mkUserRow (Some "bob") (Some "Bob") (Some 10) (Some 2) None).
Proof.
  destruct (upsertUser_overwrites demo_StringToNumber bob [] w_post)
    as (_ & Hrow & _).
  - reflexivity.
  - reflexivity.
  - reflexivity.
  - exact Hrow.
Defined.

(** The post T3 is stored with a text and a url; seen again with
    neither, it keeps the url and loses the text. *)
Lemma upsert_replaces_text_witness :
  exists stored,
    community_tweets
      (db (upsertCommunityTweet "c1" (normalizeTweet demo_Date_parse textless)
                                w_post).2) !! ("c1", "T3") = Some stored /\
    text_col stored = Some "" /\
    url_col stored = Some "https://x.com/a/1".
Proof.
  destruct (upsert_replaces_text demo_Date_parse "c1" textless stored_post []
                                 w_post)
    as (stored & Hrow & _ & Htext & Hurl).
  - reflexivity.
  - reflexivity.
  - exists stored. split; [exact Hrow|].
    split; [exact (Htext eq_refl)|exact (Hurl eq_refl)].
Defined.

(** A member without an identifier is stored under "undefined". *)
Lemma sync_member_without_profile_witness :
  users (db (sync_member demo_StringToNumber "c1" ghost w_post).2) =
    users (db w_post) /\
  community_members (db (sync_member demo_StringToNumber "c1" ghost w_post).2)
    !! ("c1", "undefined") = Some (Some "ghost").
Proof.
  destruct (sync_member_without_profile demo_StringToNumber "c1" ghost w_post)
    as (_ & Husers & Hmember & _).
  - constructor.
  - left. reflexivity.
  - split; [exact Husers|exact Hmember].
Defined.

(** The network fails on the second page: the run throws, the posts of
    the first page are stored and the watermark is still T90. *)
Lemma ingestNew_failure_keeps_state_witness :
  (ingestNew demo_Date_parse cfg0 w_cut).1 = Abort (Thrown "fetch failed") /\
  ingest_state (db (ingestNew demo_Date_parse cfg0 w_cut).2) !! "c1" =
    Some (mkStateRow None (Some "T90")) /\
  is_Some (community_tweets (db (ingestNew demo_Date_parse cfg0 w_cut).2)
             !! ("c1", "T100")).
Proof.
  split; [vm_compute; reflexivity|]. split; [|vm_compute; eexists; reflexivity].
  apply (ingestNew_failure_keeps_state demo_Date_parse cfg0 w_cut
           (Thrown "fetch failed")).
  - vm_compute. reflexivity.
  - vm_compute. reflexivity.
Defined.

(** The run on [w_resume] starts at the cursor cur7. *)
Lemma backfill_resumes_from_cursor_witness :
  exists evs,
    trace (backfill demo_Date_parse cfg0 w_resume).2 = trace w_resume ++ evs /\
    head (requests evs) =
      Some ("/twitter/community/tweets",
            [("community_id", "c1"); ("cursor", "cur7")]).
Proof.
  pose proof (backfill_resumes_from_cursor demo_Date_parse cfg0 w_resume) as H.
  assert (ingest_state (db w_resume) !! COMMUNITY_ID cfg0 =
          Some (mkStateRow (Some "cur7") None)) as Hrow
      by (vm_compute; reflexivity).
  cbv zeta in H. rewrite Hrow in H. apply H.
  - discriminate.
  - discriminate.
  - reflexivity.
  - constructor.
Defined.

(** Both checks pass on [w_head]; with the network down the database
    is not reported either. *)
Lemma doctor_checks_in_order_witness :
  (doctor cfg0 "postgres://db" w_head).1 = Ok tt /\
  console (doctor cfg0 "postgres://db" w_head).2 =
    ["DB: OK"; "API: OK (/community/tweets returned 2 tweets)"] /\
  (doctor cfg0 "postgres://db" w_down).1 = Abort (Thrown "fetch failed") /\
  console (doctor cfg0 "postgres://db" w_down).2 = [].
Proof.
  destruct (doctor_checks_in_order cfg0 "postgres://db" w_head) as (_ & H & _).
  destruct H as (_ & _ & H); [discriminate..|].
  destruct (H [] (mkResponse 200 (BodyJson (page_of ["T100"; "T99"] (JStr "n1"))))
              [served_page ["T98"] (JStr "n2");
               served_page ["T97"] (JStr "n3");
               served_page ["T96"] (JStr "n4")])
    as (Hok & _ & Hconsole).
  - reflexivity.
  - reflexivity.
  - reflexivity.
  - destruct (doctor_checks_in_order cfg0 "postgres://db" w_down) as (_ & H' & _).
    destruct H' as (_ & H' & _); [discriminate..|].
    destruct (H' [] (Thrown "fetch failed")) as (Hthrown & warns & Hc & _).
    + reflexivity.
    + reflexivity.
    + split; [exact Hok|]. split; [exact Hconsole|]. split; [exact Hthrown|].
      reflexivity.
Defined.

(** Three stale posts, batches of two: two requests. *)
Lemma refreshMetrics_batches_witness :
  exists evs,
    trace (refreshMetrics demo_StringToNumber cfg_pairs 48 false w_stale).2 =
      trace w_stale ++ evs /\
    requests evs =
      [("/twitter/tweets", [("tweet_ids", "T1,T2")]);
       ("/twitter/tweets", [("tweet_ids", "T3")])].
Proof.
  destruct (refreshMetrics_batches demo_StringToNumber cfg_pairs 48 false w_stale
              [JStr "T1"; JStr "T2"; JStr "T3"] [["T1"; "T2"]; ["T3"]]
              [metrics_page [measured]; metrics_page []] [])
    as (_ & _ & _ & evs & Htrace & Hrequests).
  - discriminate.
  - discriminate.
  - repeat constructor.
  - reflexivity.
  - reflexivity.
  - reflexivity.
  - reflexivity.
  - repeat constructor.
  - exists evs. split; [exact Htrace|exact Hrequests].
Defined.

(** With the network down the call throws after one request. *)
Lemma get_network_failure_not_retried_witness :
  exists message evs,
    (get cfg0 "/twitter/user/info" [("userName", JStr "bob")] 6 w_down).1 =
      Abort (Thrown message) /\
    trace (get cfg0 "/twitter/user/info" [("userName", JStr "bob")] 6 w_down).2 =
      trace w_down ++ evs /\
    requests evs = [("/twitter/user/info", [("userName", "bob")])].
Proof.
  destruct (get_network_failure_not_retried cfg0 "/twitter/user/info"
              [("userName", JStr "bob")] 6 w_down)
    as (message & evs & Hthrown & Htrace & Hrequests & _).
  - discriminate.
  - reflexivity.
  - exists message, evs. split; [exact Hthrown|]. split; [exact Htrace|exact Hrequests].
Defined.

(** The profile has no handle: nothing is stored, the line says ok. *)
Lemma refresh_reports_ok_without_profile_witness :
  console (refresh_guarded demo_StringToNumber cfg0 (JStr "alice") w_ghost).2 =
    ["refresh-users ok @alice"] /\
  db (refresh_guarded demo_StringToNumber cfg0 (JStr "alice") w_ghost).2 =
    empty_db.
Proof.
  destruct (refresh_reports_ok_without_profile demo_StringToNumber cfg0
              (JStr "alice") w_ghost
              (mkResponse 200 (BodyJson (user_payload no_handle))) [])
    as (_ & Hconsole & Hdb & _).
  - discriminate.
  - reflexivity.
  - reflexivity.
  - right. reflexivity.
  - split; [exact Hconsole|exact Hdb].
Defined.


(** An unknown command ends the process at once. *)
Lemma main_exits_before_work_witness :
  (main demo_Date_parse demo_StringToNumber cfg0 "postgres://db"
        demo_Number_text (fun _ => ret tt) ["node"; "parser.js"; "bogus"]
        w_head).1 =
    Abort (Exited 1) /\
  trace (main demo_Date_parse demo_StringToNumber cfg0 "postgres://db"
              demo_Number_text (fun _ => ret tt) ["node"; "parser.js"; "bogus"]
              w_head).2 = [].
Proof.
  split; [reflexivity|].
  refine (proj1 (proj2 (main_exits_before_work demo_Date_parse
                          demo_StringToNumber cfg0 "postgres://db"
                          demo_Number_text (fun _ => ret tt)
                          ["node"; "parser.js"; "bogus"] w_head 1 _ _))).
  - discriminate.
  - reflexivity.
Defined.

(** [refresh-users --hours=1.5] looks an hour and a half back. *)
Lemma main_hours_flag_witness :
  main demo_Date_parse demo_StringToNumber cfg0 "postgres://db" demo_Number_text
       (fun _ => ret tt) ["node"; "parser.js"; "refresh-users"; "--hours=1.5"]
       w_users =
  refreshUsers_as demo_StringToNumber cfg0 "1.5" w_users.
Proof.
  refine (proj1 (main_hours_flag demo_Date_parse demo_StringToNumber cfg0
                   "postgres://db" demo_Number_text (fun _ => ret tt)
                   ["node"; "parser.js"; "refresh-users"; "--hours=1.5"] w_users
                   _ _ _ "1.5" _) _).
  - discriminate.
  - discriminate.
  - discriminate.
  - reflexivity.
  - reflexivity.
Defined.

(** The empty body costs the run its cursor cur7. *)
Lemma backfill_clears_cursor_on_empty_body_witness :
  (backfill demo_Date_parse cfg0 w_blank).1 = Ok tt /\
  exists row,
    ingest_state (db (backfill demo_Date_parse cfg0 w_blank).2) !! "c1" =
      Some row /\
    backfill_cursor row = None.
Proof.
  destruct (backfill_clears_cursor_on_empty_body demo_Date_parse cfg0 w_blank
              (mkResponse 200 BodyEmpty) [])
    as (Hok & _ & _ & Hrow).
  - discriminate.
  - discriminate.
  - reflexivity.
  - constructor.
  - reflexivity.
  - reflexivity.
  - left. reflexivity.
  - split; [exact Hok|exact Hrow].
Defined.
